(** * load_mcode.py: the payload transforms and the batch uploader

    A shallow embedding of [src/load_mcode.py].

    Python values.  The documents handled by the program are what
    [json.load] builds: [None], [bool], [int], [str], [list] and [dict]
    with [str] keys.  A [str] is a sequence of Unicode code points, a
    [dict] keeps its items in insertion order.  Python floats (binary64)
    are outside this embedding: [json.loads] below answers [Unmodelled]
    on a float literal, and no theorem concludes anything from an
    [Unmodelled] outcome.

    Exceptions.  Every operation returns [Ok v], [Raise e] for a Python
    exception, or [Unmodelled] where the embedding does not follow
    Python. *)

From Stdlib Require Import String Ascii.
From Stdlib Require Import List NArith ZArith Lia Bool Arith.
From Stdlib Require Import DecimalN DecimalPos DecimalFacts.
Import ListNotations.

Set Warnings "-register-all".

(** ** Python strings *)

Definition pystr := list N.

(** [str "abc"] is the Python string with these (ASCII) characters. *)
Definition str (s : string) : pystr := map N_of_ascii (list_ascii_of_string s).
Arguments str s%_string.

Fixpoint str_eqb (a b : pystr) : bool :=
  match a, b with
  | [], [] => true
  | x :: a', y :: b' => N.eqb x y && str_eqb a' b'
  | _, _ => false
  end.

(** Lexicographic order on code points: [a < b] on Python strings. *)
Fixpoint str_ltb (a b : pystr) : bool :=
  match a, b with
  | _, [] => false
  | [], _ :: _ => true
  | x :: a', y :: b' => N.ltb x y || (N.eqb x y && str_ltb a' b')
  end.

(** [s.startswith(p)] *)
Fixpoint startswith (p s : pystr) : bool :=
  match p, s with
  | [], _ => true
  | x :: p', y :: s' => N.eqb x y && startswith p' s'
  | _ :: _, [] => false
  end.

(** ** Exceptions and results *)

Inductive exn :=
| KeyError (key : pystr)
| KeyErrorInt (key : nat)
| TypeError
| ValueError
| IndexError
| AttributeError
| JSONDecodeError
| OSError
| RequestException.

Inductive result (A : Type) :=
| Ok (a : A)
| Raise (e : exn)
| Unmodelled.

Arguments Ok {A} a.
Arguments Raise {A} e.
Arguments Unmodelled {A}.

Definition bind {A B} (m : result A) (k : A -> result B) : result B :=
  match m with
  | Ok a => k a
  | Raise e => Raise e
  | Unmodelled => Unmodelled
  end.

Notation "x <- m ;; k" := (bind m (fun x => k))
  (at level 61, m at next level, right associativity).
Notation "' p <- m ;; k" := (bind m (fun x => let p := x in k))
  (at level 61, p pattern, m at next level, right associativity).

(** A [for] loop over a list whose body updates the loop state [st] and
    may raise. *)
Fixpoint for_each {A S} (xs : list A) (st : S) (body : A -> S -> result S)
  : result S :=
  match xs with
  | [] => Ok st
  | x :: xs' => st' <- body x st ;; for_each xs' st' body
  end.

(** [enumerate(xs)] *)
Definition enumerate {A} (xs : list A) : list (nat * A) :=
  combine (seq 0 (length xs)) xs.

(** ** JSON documents as Python values *)

Inductive json :=
| JNull
| JBool (b : bool)
| JInt (z : Z)
| JStr (s : pystr)
| JArr (l : list json)
| JObj (kvs : list (pystr * json)).

(** A [dict] with [str] keys, in insertion order. *)
Fixpoint dict_get (k : pystr) (kvs : list (pystr * json)) : option json :=
  match kvs with
  | [] => None
  | (k', v) :: rest => if str_eqb k k' then Some v else dict_get k rest
  end.

(** [d[k] = v]: an existing key keeps its position, a new one goes last. *)
Fixpoint dict_set (k : pystr) (v : json) (kvs : list (pystr * json))
  : list (pystr * json) :=
  match kvs with
  | [] => [(k, v)]
  | (k', v') :: rest =>
      if str_eqb k k' then (k', v) :: rest else (k', v') :: dict_set k v rest
  end.

Fixpoint keys_unique (ks : list pystr) : bool :=
  match ks with
  | [] => true
  | k :: rest => negb (existsb (str_eqb k) rest) && keys_unique rest
  end.

(** Strings that [json.load] can build: code points below 0x110000, and
    no high surrogate directly followed by a low surrogate (a pair of
    escapes is decoded to one code point). *)
Definition is_high_surrogate (c : N) : bool := (55296 <=? c)%N && (c <=? 56319)%N.
Definition is_low_surrogate (c : N) : bool := (56320 <=? c)%N && (c <=? 57343)%N.

Fixpoint valid_str (s : pystr) : bool :=
  match s with
  | [] => true
  | c :: rest =>
      (c <? 1114112)%N
      && negb (is_high_surrogate c
               && match rest with c' :: _ => is_low_surrogate c' | [] => false end)
      && valid_str rest
  end.

(** Well-formed values: what a Python object graph loaded from JSON text
    looks like when written as a tree (dict keys are unique). *)
Fixpoint wf (j : json) : bool :=
  match j with
  | JNull | JBool _ | JInt _ => true
  | JStr s => valid_str s
  | JArr l => forallb wf l
  | JObj kvs =>
      keys_unique (map fst kvs)
      && forallb (fun kv => valid_str (fst kv) && wf (snd kv)) kvs
  end.

(** [a == b] on these values. [bool] is a subclass of [int]:
    [True == 1] and [False == 0]. Two dicts are equal when they have the
    same number of keys and every item of the first is in the second. *)
Fixpoint py_eq (a b : json) {struct a} : bool :=
  match a, b with
  | JNull, JNull => true
  | JBool x, JBool y => Bool.eqb x y
  | JBool x, JInt y => Z.eqb (if x then 1 else 0) y
  | JInt x, JBool y => Z.eqb x (if y then 1 else 0)
  | JInt x, JInt y => Z.eqb x y
  | JStr x, JStr y => str_eqb x y
  | JArr x, JArr y =>
      (fix go (x y : list json) : bool :=
         match x, y with
         | [], [] => true
         | a' :: x', b' :: y' => py_eq a' b' && go x' y'
         | _, _ => false
         end) x y
  | JObj x, JObj y =>
      Nat.eqb (length x) (length y)
      && (fix go (x : list (pystr * json)) : bool :=
            match x with
            | [] => true
            | (k, v) :: x' =>
                match dict_get k y with
                | Some v' => py_eq v v'
                | None => false
                end && go x'
            end) x
  | _, _ => false
  end.

(** [v[k]] for a [str] key. *)
Definition getitem (v : json) (k : pystr) : result json :=
  match v with
  | JObj kvs =>
      match dict_get k kvs with
      | Some x => Ok x
      | None => Raise (KeyError k)
      end
  | _ => Raise TypeError
  end.

(** [v[k] = x] for a [str] key: the value of [v] afterwards. *)
Definition setitem (v : json) (k : pystr) (x : json) : result json :=
  match v with
  | JObj kvs => Ok (JObj (dict_set k x kvs))
  | _ => Raise TypeError
  end.

(** [list(v)], also what a [for] loop or a comprehension iterates. *)
Definition py_list (v : json) : result (list json) :=
  match v with
  | JArr l => Ok l
  | JObj kvs => Ok (map (fun kv => JStr (fst kv)) kvs)
  | JStr s => Ok (map (fun c => JStr [c]) s)
  | _ => Raise TypeError
  end.

(** [len(v)] *)
Definition py_len (v : json) : result nat :=
  match v with
  | JArr l => Ok (length l)
  | JObj kvs => Ok (length kvs)
  | JStr s => Ok (length s)
  | _ => Raise TypeError
  end.

(** [v[i]] for an [int] index [i >= 0]. *)
Definition getidx (v : json) (i : nat) : result json :=
  match v with
  | JArr l =>
      match nth_error l i with
      | Some x => Ok x
      | None => Raise IndexError
      end
  | JObj _ => Raise (KeyErrorInt i)
  | JStr s =>
      match nth_error s i with
      | Some c => Ok (JStr [c])
      | None => Raise IndexError
      end
  | _ => Raise TypeError
  end.

(** [k in v.keys()] *)
Definition in_keys (k : pystr) (v : json) : result bool :=
  match v with
  | JObj kvs => Ok (match dict_get k kvs with Some _ => true | None => false end)
  | _ => Raise AttributeError
  end.

(** [hash(k)], needed of a dict key: lists and dicts are unhashable. *)
Definition hashable (k : json) : result unit :=
  match k with
  | JArr _ | JObj _ => Raise TypeError
  | _ => Ok tt
  end.

(** A dict under construction whose keys are arbitrary hashable values,
    compared with [==]. *)
Fixpoint kdict_set (k : json) (v : json) (d : list (json * json))
  : list (json * json) :=
  match d with
  | [] => [(k, v)]
  | (k', v') :: rest =>
      if py_eq k' k then (k', v) :: rest else (k', v') :: kdict_set k v rest
  end.

Fixpoint list_update {A} (l : list A) (i : nat) (x : A) : list A :=
  match l, i with
  | [], _ => []
  | _ :: l', O => x :: l'
  | y :: l', S i' => y :: list_update l' i' x
  end.

(** [l.remove(e)]: drops the first element equal to [e]. *)
Fixpoint remove_first (e : json) (l : list json) : option (list json) :=
  match l with
  | [] => None
  | x :: l' =>
      if py_eq x e then Some l'
      else match remove_first e l' with
           | Some r => Some (x :: r)
           | None => None
           end
  end.

Definition list_remove (entry e : json) : result json :=
  match entry with
  | JArr l =>
      match remove_first e l with
      | Some l' => Ok (JArr l')
      | None => Raise ValueError
      end
  | _ => Raise AttributeError
  end.

(** ** Decimal text of an [int] *)

Fixpoint uint_chars (u : Decimal.uint) : pystr :=
  match u with
  | Decimal.Nil => []
  | Decimal.D0 u' => 48%N :: uint_chars u'
  | Decimal.D1 u' => 49%N :: uint_chars u'
  | Decimal.D2 u' => 50%N :: uint_chars u'
  | Decimal.D3 u' => 51%N :: uint_chars u'
  | Decimal.D4 u' => 52%N :: uint_chars u'
  | Decimal.D5 u' => 53%N :: uint_chars u'
  | Decimal.D6 u' => 54%N :: uint_chars u'
  | Decimal.D7 u' => 55%N :: uint_chars u'
  | Decimal.D8 u' => 56%N :: uint_chars u'
  | Decimal.D9 u' => 57%N :: uint_chars u'
  end.

(** [str(z)] / [repr(z)] for an [int]. *)
Definition int_repr (z : Z) : pystr :=
  if (z <? 0)%Z then 45%N :: uint_chars (N.to_uint (Z.to_N (- z)))
  else uint_chars (N.to_uint (Z.to_N z)).

(** [format(v, '')], as an f-string field does it.  For a list or a dict
    Python prints the [repr] of the elements, which is not modelled. *)
Definition py_format (v : json) : result pystr :=
  match v with
  | JStr s => Ok s
  | JInt z => Ok (int_repr z)
  | JBool true => Ok (str "True")
  | JBool false => Ok (str "False")
  | JNull => Ok (str "None")
  | JArr _ | JObj _ => Unmodelled
  end.

(** ** The transforms that work on the parsed document

    Each of [purge_duplicates], [remove_provenance] and
    [add_if_none_exist_clause] mutates its argument and returns [None];
    the function below gives the value of the argument after the call
    from its value before.  The containers of a loaded document are not
    shared, so an update of a nested container is an update of the
    document. *)

(** <<
def purge_duplicates(d):
    entry = d['entry']
    unique = {each['fullUrl']: each for each in entry}.values()
    d['entry'] = list(unique)
>> *)
Definition purge_duplicates (d : json) : result json :=
  entry <- getitem d (str "entry") ;;
  items <- py_list entry ;;
  unique <- for_each items []
              (fun each acc =>
                 k <- getitem each (str "fullUrl") ;;
                 _ <- hashable k ;;
                 Ok (kdict_set k each acc)) ;;
  setitem d (str "entry") (JArr (map snd unique)).

(** <<
def remove_provenance(p):
    entry = p['entry']
    for e in list(entry):
        if e['resource']['resourceType'] == 'Provenance':
            entry.remove(e)

    p['entry'] = entry
>> *)
Definition remove_provenance (p : json) : result json :=
  entry <- getitem p (str "entry") ;;
  items <- py_list entry ;;
  entry <- for_each items entry
             (fun e entry =>
                resource <- getitem e (str "resource") ;;
                resource_type <- getitem resource (str "resourceType") ;;
                if py_eq resource_type (JStr (str "Provenance"))
                then list_remove entry e
                else Ok entry) ;;
  setitem p (str "entry") entry.

Definition synthea_system : pystr :=
  str "https://github.com/synthetichealth/synthea".

(** [entry[i][k] = x]: the value of [entry] afterwards. *)
Definition setitem_at (entry : json) (i : nat) (k : pystr) (x : json)
  : result json :=
  ei <- getidx entry i ;;
  ei' <- setitem ei k x ;;
  match entry with
  | JArr l => Ok (JArr (list_update l i ei'))
  | _ => Ok entry
  end.

(** [f"{resource_type}?identifier={system}|{value}"] *)
Definition query_term_of (resource_type system value : json) : result pystr :=
  a <- py_format resource_type ;;
  b <- py_format system ;;
  c <- py_format value ;;
  Ok (a ++ str "?identifier=" ++ b ++ str "|" ++ c).

(** The body of the loop of [add_if_none_exist_clause], for the index
    [i] and the element [e] of the copy [list(entry)]; the loop state is
    the list [entry]. *)
Definition add_clause_step (ie : nat * json) (entry : json) : result json :=
  let '(i, e) := ie in
  resource <- getitem e (str "resource") ;;
  request <- getitem e (str "request") ;;
  resource_type <- getitem resource (str "resourceType") ;;
  has <- in_keys (str "identifier") resource ;;
  nonempty <- (if has
               then (ids <- getitem resource (str "identifier") ;;
                     n <- py_len ids ;;
                     Ok (0 <? n))
               else Ok false) ;;
  '(identifier, resource) <-
     (if nonempty
      then (ids <- getitem resource (str "identifier") ;;
            identifier <- getidx ids 0 ;;
            Ok (identifier, resource))
      else (rid <- getitem resource (str "id") ;;
            let identifier :=
              JArr [JObj [(str "system", JStr synthea_system);
                          (str "value", rid)]] in
            resource <- setitem resource (str "identifier") identifier ;;
            identifier <- getidx identifier 0 ;;
            Ok (identifier, resource))) ;;
  system <- getitem identifier (str "system") ;;
  value <- getitem identifier (str "value") ;;
  query_term <- query_term_of resource_type system value ;;
  request <- setitem request (str "ifNoneExist") (JStr query_term) ;;
  entry <- setitem_at entry i (str "request") request ;;
  setitem_at entry i (str "resource") resource.

(** <<
def add_if_none_exist_clause(p):
    entry = p['entry']
    for i, e in enumerate(list(entry)):
        ...
    p['entry'] = entry
>> *)
Definition add_if_none_exist_clause (p : json) : result json :=
  entry <- getitem p (str "entry") ;;
  items <- py_list entry ;;
  entry <- for_each (enumerate items) entry add_clause_step ;;
  setitem p (str "entry") entry.

(** ** [json.dumps] with its default arguments

    [ensure_ascii=True], separators [", "] and [": "], no indentation. *)

Definition hexdigit (d : N) : N := if (d <? 10)%N then (48 + d)%N else (87 + d)%N.

(** ['{0:04x}'.format(c)] for [c < 0x10000] *)
Definition hex4 (c : N) : pystr :=
  [hexdigit (c / 4096 mod 16); hexdigit (c / 256 mod 16);
   hexdigit (c / 16 mod 16); hexdigit (c mod 16)]%N.

Definition encode_char (c : N) : pystr :=
  if (c =? 34)%N then [92; 34]%N
  else if (c =? 92)%N then [92; 92]%N
  else if (c =? 10)%N then [92; 110]%N
  else if (c =? 13)%N then [92; 114]%N
  else if (c =? 9)%N then [92; 116]%N
  else if (c =? 12)%N then [92; 102]%N
  else if (c =? 8)%N then [92; 98]%N
  else if (32 <=? c)%N && (c <=? 126)%N then [c]
  else if (c <? 65536)%N then 92%N :: 117%N :: hex4 c
  else
    let n := (c - 65536)%N in
    let s1 := N.lor 55296 (N.land (N.shiftr n 10) 1023) in
    let s2 := N.lor 56320 (N.land n 1023) in
    (92%N :: 117%N :: hex4 s1) ++ (92%N :: 117%N :: hex4 s2).

Definition encode_body (s : pystr) : pystr := flat_map encode_char s.

Definition encode_str (s : pystr) : pystr := 34%N :: encode_body s ++ [34%N].

Fixpoint dumps (j : json) : pystr :=
  match j with
  | JNull => str "null"
  | JBool true => str "true"
  | JBool false => str "false"
  | JInt z => int_repr z
  | JStr s => encode_str s
  | JArr l =>
      91%N ::
      match l with
      | [] => []
      | x :: rest =>
          dumps x ++
          (fix more (r : list json) : pystr :=
             match r with
             | [] => []
             | y :: r' => str ", " ++ dumps y ++ more r'
             end) rest
      end ++ [93%N]
  | JObj kvs =>
      123%N ::
      match kvs with
      | [] => []
      | (k, v) :: rest =>
          encode_str k ++ str ": " ++ dumps v ++
          (fix more (r : list (pystr * json)) : pystr :=
             match r with
             | [] => []
             | (k', v') :: r' =>
                 str ", " ++ encode_str k' ++ str ": " ++ dumps v' ++ more r'
             end) rest
      end ++ [125%N]
  end.

(** ** Regular expressions: [re.sub] on ASCII text

    The patterns of this program are sequences of literal characters and
    repeated character classes, with one capturing group.  The classes
    [\s] and [\w] are given on ASCII characters; beyond ASCII Python
    consults the Unicode database, so [re_sub] answers [Unmodelled] on a
    subject that is not ASCII.  [json.dumps] only produces ASCII. *)

Inductive atom :=
| Lit (c : N)                       (* a literal character *)
| Star (cls : N -> bool)            (* cls*, greedy *)
| Plus (cls : N -> bool)            (* cls+, greedy *)
| Rep (n : nat) (cls : N -> bool)   (* cls{n} *)
| GOpen                             (* ( *)
| GClose.                           (* ) *)

(** [\s] on ASCII: space, \t \n \v \f \r and the separators 0x1c-0x1f. *)
Definition cls_space (c : N) : bool :=
  (c =? 32)%N || ((9 <=? c)%N && (c <=? 13)%N) || ((28 <=? c)%N && (c <=? 31)%N).

(** [\w] on ASCII: [a-zA-Z0-9_]. *)
Definition cls_word (c : N) : bool :=
  ((48 <=? c)%N && (c <=? 57)%N) || ((65 <=? c)%N && (c <=? 90)%N)
  || ((97 <=? c)%N && (c <=? 122)%N) || (c =? 95)%N.

(** [[0-9a-f]] *)
Definition cls_hex (c : N) : bool :=
  ((48 <=? c)%N && (c <=? 57)%N) || ((97 <=? c)%N && (c <=? 102)%N).

Definition lits (s : string) : list atom := map Lit (str s).
Arguments lits s%_string.

(** <<
UUID_REGEX = "[0-9a-f]{8}-[0-9a-f]{4}-[0-9a-f]{4}-[0-9a-f]{4}-[0-9a-f]{12}"
REFERENCE_REGEX = f'"reference"\s*:\s*\"(\w+\/){UUID_REGEX}\"'
>> *)
Definition UUID_REGEX : list atom :=
  [Rep 8 cls_hex; Lit 45; Rep 4 cls_hex; Lit 45; Rep 4 cls_hex; Lit 45;
   Rep 4 cls_hex; Lit 45; Rep 12 cls_hex]%N.

Definition REFERENCE_REGEX : list atom :=
  [Lit 34%N] ++ lits "reference" ++ [Lit 34%N]
  ++ [Star cls_space; Lit 58%N; Star cls_space; Lit 34%N]
  ++ [GOpen; Plus cls_word; Lit 47%N; GClose]
  ++ UUID_REGEX ++ [Lit 34%N].

(** A match: the text of group 0, the text of group 1, and what follows. *)
Record rmatch := { group0 : pystr; group1 : pystr; after : pystr }.

(** The group being captured: where it started in group 0, then its text. *)
Record gstate := { g_start : nat; g_text : pystr }.

(** Greedy repetition with backtracking: the longest run is tried first,
    and one character is given back at a time when the rest of the
    pattern, [k], fails. *)
Fixpoint m_star {R} (cls : N -> bool) (s acc : pystr)
         (k : pystr -> pystr -> option R) : option R :=
  match s with
  | c :: s' =>
      if cls c
      then match m_star cls s' (acc ++ [c]) k with
           | Some r => Some r
           | None => k acc s
           end
      else k acc s
  | [] => k acc []
  end.

Fixpoint m_rep {R} (n : nat) (cls : N -> bool) (s acc : pystr)
         (k : pystr -> pystr -> option R) : option R :=
  match n with
  | O => k acc s
  | S n' =>
      match s with
      | c :: s' => if cls c then m_rep n' cls s' (acc ++ [c]) k else None
      | [] => None
      end
  end.

(** Match the atoms [rs] at the start of [s]; [acc] is the text matched
    so far. *)
Fixpoint m_atoms (rs : list atom) (s acc : pystr) (g : gstate)
  : option rmatch :=
  match rs with
  | [] => Some {| group0 := acc; group1 := g_text g; after := s |}
  | Lit c :: rs' =>
      match s with
      | x :: s' => if (x =? c)%N then m_atoms rs' s' (acc ++ [x]) g else None
      | [] => None
      end
  | Star cls :: rs' => m_star cls s acc (fun acc' s' => m_atoms rs' s' acc' g)
  | Plus cls :: rs' =>
      match s with
      | x :: s' =>
          if cls x
          then m_star cls s' (acc ++ [x]) (fun acc' s' => m_atoms rs' s' acc' g)
          else None
      | [] => None
      end
  | Rep n cls :: rs' => m_rep n cls s acc (fun acc' s' => m_atoms rs' s' acc' g)
  | GOpen :: rs' =>
      m_atoms rs' s acc {| g_start := length acc; g_text := [] |}
  | GClose :: rs' =>
      m_atoms rs' s acc
              {| g_start := g_start g; g_text := skipn (g_start g) acc |}
  end.

(** [pattern.match(s)]: a match anchored at the start of [s]. *)
Definition re_match (rs : list atom) (s : pystr) : option rmatch :=
  m_atoms rs s [] {| g_start := 0; g_text := [] |}.

(** The scan of [re.sub]: at every position the pattern is tried; a
    match is replaced and the scan goes on after it ([skip] counts the
    characters of a match still to pass), otherwise the character is
    copied. An empty match is replaced and the character copied. *)
Fixpoint sub_scan (rs : list atom) (repl : rmatch -> pystr) (skip : nat)
         (s : pystr) : pystr :=
  match s with
  | [] =>
      match skip, re_match rs [] with
      | O, Some m => repl m
      | _, _ => []
      end
  | c :: s' =>
      match skip with
      | S k => sub_scan rs repl k s'
      | O =>
          match re_match rs s with
          | Some m =>
              match length (group0 m) with
              | O => repl m ++ c :: sub_scan rs repl 0 s'
              | S k => repl m ++ sub_scan rs repl k s'
              end
          | None => c :: sub_scan rs repl 0 s'
          end
      end
  end.

Definition is_ascii (c : N) : bool := (c <? 128)%N.

(** [re.sub(pattern, repl, s)] with a function [repl]. *)
Definition re_sub (rs : list atom) (repl : rmatch -> pystr) (s : pystr)
  : result pystr :=
  if forallb is_ascii s then Ok (sub_scan rs repl 0 s) else Unmodelled.

(** [s.replace(old, new)]: every occurrence of [old], leftmost first,
    none overlapping; [skip] counts the characters of an occurrence
    still to pass. With an empty [old], [new] goes before every
    character and at the end. *)
Fixpoint replace_scan (old new : pystr) (skip : nat) (s : pystr) : pystr :=
  match s with
  | [] => match old with [] => new | _ => [] end
  | c :: s' =>
      match skip with
      | S k => replace_scan old new k s'
      | O =>
          match old with
          | [] => new ++ c :: replace_scan old new 0 s'
          | _ :: old' =>
              if startswith old s
              then new ++ replace_scan old new (length old') s'
              else c :: replace_scan old new 0 s'
          end
      end
  end.

Definition py_replace (s old new : pystr) : pystr := replace_scan old new 0 s.

(** <<
    def urnreplc(obj):
        return obj.group(0).replace(obj.group(1), "urn:uuid:")
>> *)
Definition urnreplc (obj : rmatch) : pystr :=
  py_replace (group0 obj) (group1 obj) (str "urn:uuid:").

(** ** [json.loads] with its default arguments *)

Definition is_ws (c : N) : bool :=
  (c =? 32)%N || (c =? 9)%N || (c =? 10)%N || (c =? 13)%N.

Fixpoint skip_ws (s : pystr) : pystr :=
  match s with
  | c :: s' => if is_ws c then skip_ws s' else s
  | [] => []
  end.

Definition is_digit (c : N) : bool := (48 <=? c)%N && (c <=? 57)%N.

Definition hexval (c : N) : option N :=
  if (48 <=? c)%N && (c <=? 57)%N then Some (c - 48)%N
  else if (97 <=? c)%N && (c <=? 102)%N then Some (c - 87)%N
  else if (65 <=? c)%N && (c <=? 70)%N then Some (c - 55)%N
  else None.

Definition hex4_value (a b c d : N) : option N :=
  match hexval a, hexval b, hexval c, hexval d with
  | Some x, Some y, Some z, Some w => Some (((x * 16 + y) * 16 + z) * 16 + w)%N
  | _, _, _, _ => None
  end.

(** The low surrogate that the text [s] starts with, as an escape. *)
Definition low_escape (s : pystr) : option N :=
  match s with
  | 92%N :: 117%N :: a :: b :: c :: d :: _ =>
      match hex4_value a b c d with
      | Some u => if is_low_surrogate u then Some u else None
      | None => None
      end
  | _ => None
  end.

Definition join_surrogates (hi lo : N) : N :=
  (65536 + N.lor (N.shiftl (hi - 55296) 10) (lo - 56320))%N.

Definition unescape (e : N) : option N :=
  if (e =? 34)%N then Some 34%N
  else if (e =? 92)%N then Some 92%N
  else if (e =? 47)%N then Some 47%N
  else if (e =? 98)%N then Some 8%N
  else if (e =? 102)%N then Some 12%N
  else if (e =? 110)%N then Some 10%N
  else if (e =? 114)%N then Some 13%N
  else if (e =? 116)%N then Some 9%N
  else None.

(** The string scanner, called after the opening quote ([strict=True]):
    the decoded string and the text after the closing quote. *)
Fixpoint scanstring (s : pystr) : result (pystr * pystr) :=
  match s with
  | [] => Raise JSONDecodeError
  | c :: s1 =>
      if (c =? 34)%N then Ok ([], s1)
      else if (c =? 92)%N then
        match s1 with
        | [] => Raise JSONDecodeError
        | e :: s2 =>
            if (e =? 117)%N then
              match s2 with
              | h1 :: h2 :: h3 :: h4 :: s3 =>
                  match hex4_value h1 h2 h3 h4 with
                  | None => Raise JSONDecodeError
                  | Some u =>
                      match (if is_high_surrogate u then low_escape s3 else None),
                            s3 with
                      | Some lo, _ :: _ :: _ :: _ :: _ :: _ :: s4 =>
                          '(r, rest) <- scanstring s4 ;;
                          Ok (join_surrogates u lo :: r, rest)
                      | _, _ =>
                          '(r, rest) <- scanstring s3 ;;
                          Ok (u :: r, rest)
                      end
                  end
              | _ => Raise JSONDecodeError
              end
            else
              match unescape e with
              | Some c' => '(r, rest) <- scanstring s2 ;; Ok (c' :: r, rest)
              | None => Raise JSONDecodeError
              end
        end
      else if (c <=? 31)%N then Raise JSONDecodeError
      else '(r, rest) <- scanstring s1 ;; Ok (c :: r, rest)
  end.

Fixpoint span_digits (s : pystr) : pystr * pystr :=
  match s with
  | c :: s' =>
      if is_digit c then let '(d, r) := span_digits s' in (c :: d, r)
      else ([], s)
  | [] => ([], [])
  end.

Fixpoint uint_of_chars (ds : pystr) : Decimal.uint :=
  match ds with
  | [] => Decimal.Nil
  | c :: ds' =>
      let u := uint_of_chars ds' in
      if (c =? 48)%N then Decimal.D0 u
      else if (c =? 49)%N then Decimal.D1 u
      else if (c =? 50)%N then Decimal.D2 u
      else if (c =? 51)%N then Decimal.D3 u
      else if (c =? 52)%N then Decimal.D4 u
      else if (c =? 53)%N then Decimal.D5 u
      else if (c =? 54)%N then Decimal.D6 u
      else if (c =? 55)%N then Decimal.D7 u
      else if (c =? 56)%N then Decimal.D8 u
      else Decimal.D9 u
  end.

(** [int(ds)] for a string of decimal digits. *)
Definition digits_value (ds : pystr) : N := N.of_uint (uint_of_chars ds).

(** The integer part of a number, [0|[1-9][0-9]*]: its digits and the
    rest. *)
Definition int_part (s : pystr) : option (pystr * pystr) :=
  match s with
  | c :: s' =>
      if (c =? 48)%N then Some ([c], s')
      else if is_digit c then let '(d, r) := span_digits s' in Some (c :: d, r)
      else None
  | [] => None
  end.

(** Does a fraction [\.[0-9]+] or an exponent [[eE][-+]?[0-9]+] follow? *)
Definition float_tail (s : pystr) : bool :=
  match s with
  | 46%N :: d :: _ => is_digit d
  | e :: s' =>
      if (e =? 101)%N || (e =? 69)%N then
        match s' with
        | sg :: d :: _ =>
            if (sg =? 45)%N || (sg =? 43)%N then is_digit d else is_digit sg
        | [d] => is_digit d
        | [] => false
        end
      else false
  | [] => false
  end.

(** A number at the start of [s] (which starts with [-] or a digit). *)
Definition scan_number (s : pystr) : result (json * pystr) :=
  let '(neg, s0) := match s with
                    | 45%N :: s' => (true, s')
                    | _ => (false, s)
                    end in
  match int_part s0 with
  | None => Raise JSONDecodeError
  | Some (ds, rest) =>
      if float_tail rest then Unmodelled
      else
        let n := Z.of_N (digits_value ds) in
        Ok (JInt (if neg then (- n)%Z else n), rest)
  end.

(** The members of an object from the first key on ([s] starts at its
    opening quote); [acc] is the dict built so far, [pv] scans a value.
    A repeated key keeps its first position and takes the last value. *)
Fixpoint parse_members (pv : pystr -> result (json * pystr)) (n : nat)
         (s : pystr) (acc : list (pystr * json))
  : result (list (pystr * json) * pystr) :=
  match n with
  | O => Unmodelled
  | S n' =>
      match s with
      | 34%N :: s1 =>
          '(k, s2) <- scanstring s1 ;;
          match skip_ws s2 with
          | 58%N :: s3 =>
              '(v, s4) <- pv (skip_ws s3) ;;
              let acc' := dict_set k v acc in
              match skip_ws s4 with
              | 125%N :: s5 => Ok (acc', s5)
              | 44%N :: s5 => parse_members pv n' (skip_ws s5) acc'
              | _ => Raise JSONDecodeError
              end
          | _ => Raise JSONDecodeError
          end
      | _ => Raise JSONDecodeError
      end
  end.

(** The elements of an array from the first one on. *)
Fixpoint parse_elems (pv : pystr -> result (json * pystr)) (n : nat)
         (s : pystr) (acc : list json) : result (list json * pystr) :=
  match n with
  | O => Unmodelled
  | S n' =>
      '(v, s1) <- pv s ;;
      match skip_ws s1 with
      | 93%N :: s2 => Ok (acc ++ [v], s2)
      | 44%N :: s2 => parse_elems pv n' (skip_ws s2) (acc ++ [v])
      | _ => Raise JSONDecodeError
      end
  end.

(** [scan_once]: one value at the start of [s]. The recursion of the
    scanner is bounded by [fuel]; [loads] gives it more than the length
    of the text. *)
Fixpoint parse_value (fuel : nat) (s : pystr) : result (json * pystr) :=
  match fuel with
  | O => Unmodelled
  | S fuel' =>
      match s with
      | [] => Raise JSONDecodeError
      | c :: s1 =>
          if (c =? 34)%N then '(x, r) <- scanstring s1 ;; Ok (JStr x, r)
          else if (c =? 123)%N then
            match skip_ws s1 with
            | 125%N :: r => Ok (JObj [], r)
            | s2 =>
                '(kvs, r) <- parse_members (parse_value fuel') fuel' s2 [] ;;
                Ok (JObj kvs, r)
            end
          else if (c =? 91)%N then
            match skip_ws s1 with
            | 93%N :: r => Ok (JArr [], r)
            | s2 =>
                '(l, r) <- parse_elems (parse_value fuel') fuel' s2 [] ;;
                Ok (JArr l, r)
            end
          else if startswith (str "null") s then Ok (JNull, skipn 4 s)
          else if startswith (str "true") s then Ok (JBool true, skipn 4 s)
          else if startswith (str "false") s then Ok (JBool false, skipn 5 s)
          else if startswith (str "NaN") s then Unmodelled
          else if startswith (str "Infinity") s then Unmodelled
          else if startswith (str "-Infinity") s then Unmodelled
          else if (c =? 45)%N || is_digit c then scan_number s
          else Raise JSONDecodeError
      end
  end.

Definition loads (s : pystr) : result json :=
  let s0 := skip_ws s in
  '(v, r) <- parse_value (S (length s0)) s0 ;;
  match skip_ws r with
  | [] => Ok v
  | _ => Raise JSONDecodeError
  end.

(** ** The reference normalizer

<<
def standardize_references(p):
    dumped_p = json.dumps(p)

    def urnreplc(obj):
        return obj.group(0).replace(obj.group(1), "urn:uuid:")

    dumped_p = re.sub(REFERENCE_REGEX, urnreplc, dumped_p)
    p = json.loads(dumped_p)

    return p
>> *)
Definition standardize_references (p : json) : result json :=
  let dumped_p := dumps p in
  dumped_p <- re_sub REFERENCE_REGEX urnreplc dumped_p ;;
  loads dumped_p.

(** ** Objects and identity

    A document has an identity: a variable holds a reference to it, a
    function that assigns into its argument changes the object the
    caller holds, and [json.loads] builds a new object.  The store maps
    references to the current value of each document. *)

Module Obj.

Definition ref := nat.
Definition store := list json.
Definition M (A : Type) := store -> result (A * store).

Definition deref (h : store) (r : ref) : option json := nth_error h r.

(** A call [f(r)] of a function that mutates its argument and has no
    [return]: the result is [None], written [tt]. *)
Definition in_place (f : json -> result json) (r : ref) : M unit :=
  fun h =>
    match deref h r with
    | Some v => v' <- f v ;; Ok (tt, list_update h r v')
    | None => Unmodelled
    end.

(** A call [f(r)] of a function that reads its argument and returns a
    newly built document. *)
Definition new_object (f : json -> result json) (r : ref) : M ref :=
  fun h =>
    match deref h r with
    | Some v => v' <- f v ;; Ok (length h, h ++ [v'])
    | None => Unmodelled
    end.

Definition purge_duplicates : ref -> M unit := in_place purge_duplicates.
Definition remove_provenance : ref -> M unit := in_place remove_provenance.
Definition standardize_references : ref -> M ref :=
  new_object standardize_references.
Definition add_if_none_exist_clause : ref -> M unit :=
  in_place add_if_none_exist_clause.

(** <<
def preprocess_payload(payload):
  # reduce_payload_size(payload)
  purge_duplicates(payload)
  remove_provenance(payload)
  payload = standardize_references(payload)
  add_if_none_exist_clause(payload)

  return payload
>> *)
Definition preprocess_payload (payload : ref) : M ref :=
  fun h =>
    '(_, h) <- purge_duplicates payload h ;;
    '(_, h) <- remove_provenance payload h ;;
    '(payload, h) <- standardize_references payload h ;;
    '(_, h) <- add_if_none_exist_clause payload h ;;
    Ok (payload, h).

(** The same sequence without the rebinding of [payload], to compare
    with: [standardize_references(payload)] as a statement. *)
Definition preprocess_payload_no_rebind (payload : ref) : M ref :=
  fun h =>
    '(_, h) <- purge_duplicates payload h ;;
    '(_, h) <- remove_provenance payload h ;;
    '(_, h) <- standardize_references payload h ;;
    '(_, h) <- add_if_none_exist_clause payload h ;;
    Ok (payload, h).

End Obj.

(** [payload = json.load(f); payload = preprocess_payload(payload)]: the
    document is loaded into a store of its own, and the value of the
    returned object is read back. *)
Definition preprocess_loaded (payload : json) : result json :=
  '(r, h) <- Obj.preprocess_payload 0 [payload] ;;
  match Obj.deref h r with
  | Some v => Ok v
  | None => Unmodelled
  end.

(** ** The batch uploader *)

Definition HEADERS : list (pystr * pystr) :=
  [(str "Accept-Charset", str "utf-8");
   (str "Accept",
    str "application/fhir+json;q=1.0, application/json+fhir;q=0.9");
   (str "User-Agent",
    str "HAPI-FHIR/6.10.0 (FHIR Client; FHIR 4.0.1/R4; apache)");
   (str "Accept-Encoding", str "gzip");
   (str "Content-Type", str "application/fhir+json; charset=UTF-8")].

(** What the run does to the outside, in order. *)
Inductive event :=
| EvOpen (path : pystr)                     (* open(payload_file, 'r') *)
| EvPost (endpoint : pystr) (body : json)   (* requests.post(...) *)
| EvPrint (line : pystr).                   (* print(...) *)

Fixpoint insert_sorted (x : pystr) (l : list pystr) : list pystr :=
  match l with
  | [] => [x]
  | y :: l' =>
      if str_ltb x y then x :: l
      else if str_eqb x y then l
      else y :: insert_sorted x l'
  end.

(** [sorted(list(set(l)))] *)
Definition sorted_set (l : list pystr) : list pystr :=
  fold_right insert_sorted [] l.

Definition path_in (x : pystr) (l : list pystr) : bool := existsb (str_eqb x) l.

Section Uploader.

(** The outside world: the FHIR server behind [requests.post] followed
    by [raise_for_status] ([true]: a 2xx response; [false]: a
    [RequestException]), [urllib.parse.urljoin], the content of the
    files, and the listing of the folder.  A path is written as its
    text. The progress bar and the [logging.info] lines, which the
    root logger drops, are left out. *)
Variable server : Type.
Variable http_post :
  server -> pystr -> json -> list (pystr * pystr) -> bool * server.
Variable urljoin : pystr -> pystr -> pystr.
Variable read_text : pystr -> result pystr.
Variable glob : pystr -> pystr -> list pystr.
Variable iterdir : pystr -> list pystr.

Record world := { srv : server; trace : list event }.

Definition emit (e : event) (w : world) : world :=
  {| srv := srv w; trace := trace w ++ [e] |}.

(** <<
def upload_payload(payload_file, server):
  endpoint = urljoin(server, "fhir/")
  with open(payload_file, 'r') as f:
      payload = json.load(f)
      payload = preprocess_payload(payload)

  resp = requests.post(endpoint, json=payload, headers=HEADERS)
  resp.raise_for_status()
>> *)
Definition upload_payload (payload_file fhir_server : pystr) (w : world)
  : result unit * world :=
  let endpoint := urljoin fhir_server (str "fhir/") in
  let w := emit (EvOpen payload_file) w in
  match (text <- read_text payload_file ;;
         payload <- loads text ;;
         preprocess_loaded payload) with
  | Ok payload =>
      let w := emit (EvPost endpoint payload) w in
      let '(ok, s) := http_post (srv w) endpoint payload HEADERS in
      let w := {| srv := s; trace := trace w |} in
      if ok then (Ok tt, w) else (Raise RequestException, w)
  | Raise e => (Raise e, w)
  | Unmodelled => (Unmodelled, w)
  end.

(** <<
  for payload_file in pbar:
      upload_payload(payload_file, fhir_server)
>> *)
Fixpoint upload_each (files : list pystr) (fhir_server : pystr) (w : world)
  : result unit * world :=
  match files with
  | [] => (Ok tt, w)
  | payload_file :: rest =>
      match upload_payload payload_file fhir_server w with
      | (Ok _, w') => upload_each rest fhir_server w'
      | (r, w') => (r, w')
      end
  end.

(** <<
  for payload_file in pbar:
      try:
          upload_payload(payload_file, fhir_server)
      except requests.exceptions.RequestException as e:
          print(f"Failed: {payload_file}")
>> *)
Fixpoint upload_each_try (files : list pystr) (fhir_server : pystr)
         (w : world) : result unit * world :=
  match files with
  | [] => (Ok tt, w)
  | payload_file :: rest =>
      match upload_payload payload_file fhir_server w with
      | (Ok _, w') => upload_each_try rest fhir_server w'
      | (Raise RequestException, w') =>
          upload_each_try rest fhir_server
            (emit (EvPrint (str "Failed: " ++ payload_file)) w')
      | (r, w') => (r, w')
      end
  end.

Definition hospital_information_payloads (mcode_folder : pystr) :=
  glob mcode_folder (str "hospitalInformation*").
Definition practitioner_information_payloads (mcode_folder : pystr) :=
  glob mcode_folder (str "practitionerInformation*").
Definition patient_payloads (mcode_folder : pystr) : list pystr :=
  sorted_set
    (filter (fun f =>
               negb (path_in f (hospital_information_payloads mcode_folder)
                     || path_in f (practitioner_information_payloads mcode_folder)))
            (iterdir mcode_folder)).

Definition main (mcode_folder fhir_server : pystr) (w : world)
  : result unit * world :=
  match upload_each (hospital_information_payloads mcode_folder)
                    fhir_server w with
  | (Ok _, w) =>
      match upload_each (practitioner_information_payloads mcode_folder)
                        fhir_server w with
      | (Ok _, w) =>
          upload_each_try (patient_payloads mcode_folder) fhir_server w
      | (r, w) => (r, w)
      end
  | (r, w) => (r, w)
  end.

End Uploader.

(** ** Vocabulary of the statements *)

(** The [fullUrl] of an entry, when it is a string. *)
Definition full_url (e : json) : pystr :=
  match getitem e (str "fullUrl") with
  | Ok (JStr u) => u
  | _ => []
  end.

(** The distinct elements of a list, in the order of their first
    occurrence. *)
Definition first_seen (l : list pystr) : list pystr :=
  fold_left (fun acc u => if path_in u acc then acc else acc ++ [u]) l [].

(** [e['resource']['resourceType']] *)
Definition resource_type (e : json) : result json :=
  resource <- getitem e (str "resource") ;;
  getitem resource (str "resourceType").

Definition is_provenance (e : json) : bool :=
  match resource_type e with
  | Ok t => py_eq t (JStr (str "Provenance"))
  | _ => false
  end.

Definition furl (kv : json * json) : pystr := full_url (snd kv).

Definition url_keyed (acc : list (json * json)) : Prop :=
  Forall (fun kv => fst kv = JStr (furl kv)) acc.

Definition last_with_url (e : json) (es : list json) : Prop :=
  exists before after,
    es = before ++ e :: after /\ ~ In (full_url e) (map full_url after).

Definition built (es : list json) (acc : list (json * json)) :=
  fold_left (fun acc e => kdict_set (JStr (full_url e)) e acc) es acc.

Definition scalar (k : json) : Prop := hashable k = Ok tt.

(** The key an entry is filed under. *)
Definition own_key (e : json) : json :=
  match getitem e (str "fullUrl") with
  | Ok k => k
  | _ => JNull
  end.

Definition purge_step (each : json) (acc : list (json * json)) :=
  k <- getitem each (str "fullUrl") ;;
  _ <- hashable k ;;
  Ok (kdict_set k each acc).

Definition filed (kv : json * json) : Prop :=
  scalar (fst kv) /\ scalar (own_key (snd kv))
  /\ getitem (snd kv) (str "fullUrl") = Ok (own_key (snd kv))
  /\ py_eq (fst kv) (own_key (snd kv)) = true.

Fixpoint distinct_keys (acc : list (json * json)) : Prop :=
  match acc with
  | [] => True
  | kv :: rest =>
      Forall (fun kv' => py_eq (fst kv) (fst kv') = false) rest
      /\ distinct_keys rest
  end.

Definition refiled (acc : list (json * json)) : list (json * json) :=
  map (fun kv => (own_key (snd kv), snd kv)) acc.

Definition items_in (x y : list (pystr * json)) : bool :=
  (fix go (x : list (pystr * json)) : bool :=
     match x with
     | [] => true
     | (k, v) :: x' =>
         match dict_get k y with
         | Some v' => py_eq v v'
         | None => false
         end && go x'
     end) x.

Definition strip_step (e entry : json) : result json :=
  resource <- getitem e (str "resource") ;;
  resource_type <- getitem resource (str "resourceType") ;;
  if py_eq resource_type (JStr (str "Provenance"))
  then list_remove entry e
  else Ok entry.

Definition keep (e : json) : bool := negb (is_provenance e).

(** ** Vocabulary of the reference normalizer *)

Definition REF : pystr := str "reference".
Definition URN : pystr := str "urn:uuid:".

(** Canonical UUID text: 8-4-4-4-12 lowercase hexadecimal digits. *)
Definition is_hyphen (c : N) : bool := (c =? 45)%N.

Definition uuid_shape : list (N -> bool) :=
  repeat cls_hex 8 ++ [is_hyphen] ++ repeat cls_hex 4 ++ [is_hyphen]
  ++ repeat cls_hex 4 ++ [is_hyphen] ++ repeat cls_hex 4 ++ [is_hyphen]
  ++ repeat cls_hex 12.

Fixpoint has_shape (shape : list (N -> bool)) (s : pystr) : bool :=
  match shape, s with
  | [], [] => true
  | p :: shape', c :: s' => p c && has_shape shape' s'
  | _, _ => false
  end.

Definition is_uuid (u : pystr) : bool := has_shape uuid_shape u.

Fixpoint span_word (s : pystr) : pystr * pystr :=
  match s with
  | c :: s' =>
      if cls_word c then let '(w, r) := span_word s' in (c :: w, r)
      else ([], s)
  | [] => ([], [])
  end.

(** A relative reference ["<Type>/<uuid>"]: its UUID. *)
Definition rel_ref (s : pystr) : option pystr :=
  match span_word s with
  | (_ :: _, 47%N :: u) => if is_uuid u then Some u else None
  | _ => None
  end.

(** The keys whose JSON text ends in ["reference"] with its quotes: the
    key [reference], and the keys that end in a quote followed by
    [reference]. *)
Fixpoint ends_quote_ref (k : pystr) : bool :=
  match k with
  | [] => false
  | c :: k' => ((c =? 34)%N && str_eqb k' REF) || ends_quote_ref k'
  end.

Definition is_ref_key (k : pystr) : bool := str_eqb k REF || ends_quote_ref k.

Definition normalize_member (k : pystr) (v : json) : json :=
  match v with
  | JStr s =>
      if is_ref_key k
      then match rel_ref s with
           | Some u => JStr (URN ++ u)
           | None => v
           end
      else v
  | _ => v
  end.

(** What the substitution on the text does, told on the document. *)
Fixpoint normalize (j : json) : json :=
  match j with
  | JArr l => JArr (map normalize l)
  | JObj kvs => JObj (map (fun kv => (fst kv, normalize_member (fst kv) (normalize (snd kv)))) kvs)
  | _ => j
  end.

(** Places in a document. *)
Inductive step :=
| Key (k : pystr)
| Idx (i : nat).

Fixpoint get_path (j : json) (path : list step) : option json :=
  match path with
  | [] => Some j
  | Key k :: path' =>
      match j with
      | JObj kvs =>
          match dict_get k kvs with
          | Some v => get_path v path'
          | None => None
          end
      | _ => None
      end
  | Idx i :: path' =>
      match j with
      | JArr l =>
          match nth_error l i with
          | Some v => get_path v path'
          | None => None
          end
      | _ => None
      end
  end.

(** The number of values in a document. *)
Fixpoint size (j : json) : nat :=
  match j with
  | JArr l => S (fold_right (fun x n => size x + n) 0 l)
  | JObj kvs => S (fold_right (fun kv n => size (snd kv) + n) 0 kvs)
  | _ => 1
  end.

(** The opening of a match: ["reference"] with its quotes. *)
Definition QREF : pystr := 34%N :: REF ++ [34%N].

(** The pattern after the literal ["reference"]: [\s*:\s*\"], and then
    [(\w+\/){UUID_REGEX}\"]. *)
Definition REGEX_VALUE : list atom :=
  [GOpen; Plus cls_word; Lit 47%N; GClose] ++ UUID_REGEX ++ [Lit 34%N].
Definition REGEX_TAIL : list atom :=
  [Star cls_space; Lit 58%N; Star cls_space; Lit 34%N] ++ REGEX_VALUE.

Definition g0 : gstate := {| g_start := 0; g_text := [] |}.

(** The match that starts at a ["reference"] followed by [tail]. *)
Definition hit (tail : pystr) : option rmatch := m_atoms REGEX_TAIL tail QREF g0.

Definition stops (cls : N -> bool) (b : pystr) : Prop :=
  match b with
  | [] => True
  | c :: _ => cls c = false
  end.

(** A character that [json.dumps] writes as itself and that is neither a
    quote nor a backslash. *)
Definition plain (c : N) : bool :=
  (32 <=? c)%N && (c <=? 126)%N && negb (c =? 34)%N && negb (c =? 92)%N.

Definition not_quote (c : N) : bool := negb (c =? 34)%N.
Definition not_slash (c : N) : bool := negb (c =? 47)%N.

(** The scan of [re.sub(REFERENCE_REGEX, urnreplc, _)]. *)
Definition scan (s : pystr) : pystr := sub_scan REFERENCE_REGEX urnreplc 0 s.

(** What may follow a value in the text of a document. *)
Definition delim (rest : pystr) : Prop :=
  match rest with
  | [] => True
  | c :: _ => c = 44%N \/ c = 93%N \/ c = 125%N
  end.

(** The text of the elements of a list after the first, and of the
    members of a dict after the first. *)
Definition arr_more (l : list json) : pystr :=
  flat_map (fun y => str ", " ++ dumps y) l.

Definition member_text (kv : pystr * json) : pystr :=
  encode_str (fst kv) ++ str ": " ++ dumps (snd kv).

Definition obj_more (kvs : list (pystr * json)) : pystr :=
  flat_map (fun kv => str ", " ++ member_text kv) kvs.

Definition normalize_kv (kv : pystr * json) : pystr * json :=
  (fst kv, normalize_member (fst kv) (normalize (snd kv))).

(** The characters a value can start with in the text [json.dumps]
    writes. *)
Definition value_starts : list N :=
  [34; 123; 91; 110; 116; 102; 45; 48; 49; 50; 51; 52; 53; 54; 55; 56; 57]%N.

Definition digit_chars : list N := [48; 49; 50; 51; 52; 53; 54; 55; 56; 57]%N.

(** [dict(pairs)] from the pairs read so far. *)
Definition dict_add (acc : list (pystr * json)) (kv : pystr * json) :=
  dict_set (fst kv) (snd kv) acc.

(** What [parse_value] is to do on the text of [j]. *)
Definition reads_back (f : nat) (j : json) : Prop :=
  forall rest, delim rest -> parse_value f (dumps j ++ rest) = Ok (j, rest).

Definition sizes (l : list json) : nat := fold_right (fun x n => size x + n) 0 l.
Definition sizes_kv (kvs : list (pystr * json)) : nat :=
  fold_right (fun kv n => size (snd kv) + n) 0 kvs.

(** ** Vocabulary of the idempotency-key injector *)

Fixpoint map_result {A B} (f : A -> result B) (l : list A) : result (list B) :=
  match l with
  | [] => Ok []
  | x :: l' => y <- f x ;; ys <- map_result f l' ;; Ok (y :: ys)
  end.

(** What the loop body computes from the resource of an entry: the
    resource as it is left, and the query term. *)
Definition key_of (resource : json) : result (json * pystr) :=
  resource_type <- getitem resource (str "resourceType") ;;
  has <- in_keys (str "identifier") resource ;;
  nonempty <- (if has
               then (ids <- getitem resource (str "identifier") ;;
                     n <- py_len ids ;;
                     Ok (0 <? n))
               else Ok false) ;;
  '(identifier, resource) <-
     (if nonempty
      then (ids <- getitem resource (str "identifier") ;;
            identifier <- getidx ids 0 ;;
            Ok (identifier, resource))
      else (rid <- getitem resource (str "id") ;;
            let identifier :=
              JArr [JObj [(str "system", JStr synthea_system);
                          (str "value", rid)]] in
            resource <- setitem resource (str "identifier") identifier ;;
            identifier <- getidx identifier 0 ;;
            Ok (identifier, resource))) ;;
  system <- getitem identifier (str "system") ;;
  value <- getitem identifier (str "value") ;;
  query_term <- query_term_of resource_type system value ;;
  Ok (resource, query_term).

(** What the loop body does to the entry it visits. *)
Definition entry_step (e : json) : result json :=
  resource <- getitem e (str "resource") ;;
  request <- getitem e (str "request") ;;
  '(resource, query_term) <- key_of resource ;;
  request <- setitem request (str "ifNoneExist") (JStr query_term) ;;
  e <- setitem e (str "request") request ;;
  setitem e (str "resource") resource.

(** The identifier synthesized for a resource whose [id] is [rid]. *)
Definition synthesized (rid : json) : json :=
  JArr [JObj [(str "system", JStr synthea_system); (str "value", rid)]].

(** [<resourceType>?identifier=<system>|<value>] *)
Definition query_text (rt sys value : pystr) : pystr :=
  rt ++ str "?identifier=" ++ sys ++ str "|" ++ value.

(** [d] with [d[k] = x] done, for a dict [d]. *)
Definition with_item (d : json) (k : pystr) (x : json) : json :=
  match d with
  | JObj kvs => JObj (dict_set k x kvs)
  | _ => d
  end.

(** The test [not ('identifier' in resource.keys() and
    len(resource['identifier']) > 0)] of the loop body, passed: the
    resource has no identifier, or one of length 0. *)
Definition lacks_identifier (resource : json) : Prop :=
  in_keys (str "identifier") resource = Ok false
  \/ exists ids, getitem resource (str "identifier") = Ok ids
                 /\ py_len ids = Ok 0.

(** What the injector is to do to an entry [e] whose request is a dict
    and whose resource type is a string: when the resource has no
    identifier (or an empty one) and a string [id], the identifier is
    synthesized and the query is built from it; when the resource has a
    list of identifiers whose first has a string [system] and a string
    [value], only the request changes. *)
Inductive injected (e e' : json) : Prop :=
| injected_synthesized resource request rt xyz :
    getitem e (str "resource") = Ok resource ->
    getitem e (str "request") = Ok (JObj request) ->
    getitem resource (str "resourceType") = Ok (JStr rt) ->
    lacks_identifier resource ->
    getitem resource (str "id") = Ok (JStr xyz) ->
    e' = with_item
           (with_item e (str "request")
              (with_item (JObj request) (str "ifNoneExist")
                 (JStr (query_text rt synthea_system xyz))))
           (str "resource")
           (with_item resource (str "identifier") (synthesized (JStr xyz))) ->
    injected e e'
| injected_existing resource request rt first more sys val :
    getitem e (str "resource") = Ok resource ->
    getitem e (str "request") = Ok (JObj request) ->
    getitem resource (str "resourceType") = Ok (JStr rt) ->
    getitem resource (str "identifier") = Ok (JArr (first :: more)) ->
    getitem first (str "system") = Ok (JStr sys) ->
    getitem first (str "value") = Ok (JStr val) ->
    e' = with_item e (str "request")
           (with_item (JObj request) (str "ifNoneExist")
              (JStr (query_text rt sys val))) ->
    injected e e'.

Definition injectable (e : json) : Prop := exists e', injected e e'.

Definition has_identifier (e : json) : Prop :=
  exists resource first more,
    getitem e (str "resource") = Ok resource
    /\ getitem resource (str "identifier") = Ok (JArr (first :: more)).

Definition has_query (e : json) : Prop :=
  exists request q,
    getitem e (str "request") = Ok request
    /\ getitem request (str "ifNoneExist") = Ok (JStr q).

(** An entry before and after the pipeline: the URL is kept, and a
    relative reference below the resource has become a URN. *)
Definition processed (e e' : json) : Prop :=
  full_url e' = full_url e
  /\ forall path w u,
       w <> [] -> forallb cls_word w = true -> is_uuid u = true ->
       get_path e (Key (str "resource") :: path ++ [Key (str "reference")])
       = Some (JStr (w ++ str "/" ++ u)) ->
       get_path e' (Key (str "resource") :: path ++ [Key (str "reference")])
       = Some (JStr (str "urn:uuid:" ++ u)).

(** The four transforms on the value of the document, in the order of
    [preprocess_payload]. *)
Definition pipeline (payload : json) : result json :=
  p1 <- purge_duplicates payload ;;
  p2 <- remove_provenance p1 ;;
  p3 <- standardize_references p2 ;;
  add_if_none_exist_clause p3.

(** What [upload_payload] does before it posts: read the file, parse
    it, run the pipeline. *)
Definition prepare (read_text : pystr -> result pystr) (payload_file : pystr)
  : result json :=
  text <- read_text payload_file ;;
  payload <- loads text ;;
  preprocess_loaded payload.

(** The files opened, the lines printed and the documents posted, in
    the order of a trace. *)
Definition opened (t : list event) : list pystr :=
  flat_map (fun ev => match ev with EvOpen f => [f] | _ => [] end) t.

Definition printed (t : list event) : list pystr :=
  flat_map (fun ev => match ev with EvPrint l => [l] | _ => [] end) t.

Definition posted (t : list event) : list (pystr * json) :=
  flat_map (fun ev => match ev with EvPost u b => [(u, b)] | _ => [] end) t.

(** The files whose request fails when the documents [payload_of f] are
    posted in order to a server in state [s]. *)
Fixpoint failed_posts (server : Type)
         (http_post : server -> pystr -> json -> list (pystr * pystr) -> bool * server)
         (endpoint : pystr) (payload_of : pystr -> json)
         (files : list pystr) (s : server) : list pystr :=
  match files with
  | [] => []
  | f :: rest =>
      let '(ok, s') := http_post s endpoint (payload_of f) HEADERS in
      (if ok then [] else [f])
      ++ failed_posts server http_post endpoint payload_of rest s'
  end.

Definition uuid_patient : pystr := str "550e8400-e29b-41d4-a716-446655440000".
Definition uuid_observation : pystr := str "6ba7b810-9dad-41d1-80b4-00c04fd430c8".
Definition uuid_provenance : pystr := str "0f8fad5b-d9cb-469f-a165-70867728950e".

Definition post_request (resource_type : pystr) : json :=
  JObj [(str "method", JStr (str "POST")); (str "url", JStr resource_type)].

(** A patient without identifier. *)
Definition patient_entry (gender : pystr) : json :=
  JObj [(str "fullUrl", JStr (str "urn:uuid:" ++ uuid_patient));
        (str "resource",
         JObj [(str "resourceType", JStr (str "Patient"));
               (str "id", JStr uuid_patient);
               (str "gender", JStr gender)]);
        (str "request", post_request (str "Patient"))].

Definition provenance_entry : json :=
  JObj [(str "fullUrl", JStr (str "urn:uuid:" ++ uuid_provenance));
        (str "resource",
         JObj [(str "resourceType", JStr (str "Provenance"));
               (str "id", JStr uuid_provenance);
               (str "target",
                JArr [JObj [(str "reference",
                             JStr (str "urn:uuid:" ++ uuid_patient))]])]);
        (str "request", post_request (str "Provenance"))].

(** An observation with an identifier and a relative reference to the
    patient. *)
Definition observation_entry : json :=
  JObj [(str "fullUrl", JStr (str "urn:uuid:" ++ uuid_observation));
        (str "resource",
         JObj [(str "resourceType", JStr (str "Observation"));
               (str "id", JStr uuid_observation);
               (str "identifier",
                JArr [JObj [(str "system", JStr (str "urn:example:observations"));
                            (str "value", JStr (str "obs-1"))]]);
               (str "subject",
                JObj [(str "reference",
                       JStr (str "Patient/" ++ uuid_patient))]);
               (str "performer",
                JArr [JObj [(str "reference", JStr (str "Patient/abc"))]])]);
        (str "request", post_request (str "Observation"))].

Definition scenario_entries : list json :=
  [patient_entry (str "unknown"); provenance_entry; observation_entry;
   patient_entry (str "female")].

Definition bundle_of (entries : list json) : json :=
  JObj [(str "resourceType", JStr (str "Bundle"));
        (str "type", JStr (str "transaction"));
        (str "entry", JArr entries)].

Definition scenario_bundle : json := bundle_of scenario_entries.

(** A bundle with an entry that has no [request]. *)
Definition broken_bundle : json :=
  bundle_of
    [JObj [(str "fullUrl", JStr (str "urn:uuid:" ++ uuid_patient));
           (str "resource",
            JObj [(str "resourceType", JStr (str "Patient"));
                  (str "id", JStr uuid_patient)])]].

(** A folder of three patient files, and a server that refuses its
    second request. *)
Definition file_a : pystr := str "mcode/patient_a.json".
Definition file_b : pystr := str "mcode/patient_b.json".
Definition file_c : pystr := str "mcode/patient_c.json".

Definition refuse_second (s : nat) (endpoint : pystr) (body : json)
           (headers : list (pystr * pystr)) : bool * nat :=
  (negb (Nat.eqb s 1), S s).

Definition join_text (base url : pystr) : pystr := base ++ url.

Definition folder_text (path : pystr) : result pystr :=
  if path_in path [file_a; file_b; file_c] then Ok (dumps scenario_bundle)
  else Raise OSError.

Definition broken_text (path : pystr) : result pystr :=
  if str_eqb path file_b then Ok (dumps broken_bundle)
  else if path_in path [file_a; file_c] then Ok (dumps scenario_bundle)
  else Raise OSError.

Definition no_glob (folder pattern : pystr) : list pystr := [].
Definition folder_list (folder : pystr) : list pystr := [file_c; file_a; file_b].

Definition fresh_world : world nat := {| srv := 0; trace := [] |}.

Definition loaded_payload : json :=
  match preprocess_loaded scenario_bundle with
  | Ok p => p
  | _ => JNull
  end.

(** The scenario bundle after the injector alone. *)
Definition keyed_bundle : json :=
  match add_if_none_exist_clause scenario_bundle with
  | Ok p => p
  | _ => JNull
  end.

Definition fhir_url : pystr := str "http://localhost:8080/".

(** The world after the first patient file of the folder has gone
    through. *)
Definition after_first_file : world nat :=
  snd (upload_each_try nat refuse_second join_text broken_text
         [file_a] fhir_url fresh_world).

(** What the injector leaves alone in an entry: every field but
    [request] and [resource], every field of the request but
    [ifNoneExist], every field of the resource but [identifier]. *)
Definition same_but_keys (e e' : json) : Prop :=
  (forall k, k <> str "request" -> k <> str "resource" ->
             getitem e' k = getitem e k)
  /\ exists resource resource' request request',
      getitem e (str "resource") = Ok resource
      /\ getitem e' (str "resource") = Ok resource'
      /\ getitem e (str "request") = Ok request
      /\ getitem e' (str "request") = Ok request'
      /\ (forall k, k <> str "identifier" ->
                    getitem resource' k = getitem resource k)
      /\ (forall k, k <> str "ifNoneExist" ->
                    getitem request' k = getitem request k).

(** [v[:n]] for [n >= 0].  A dict cannot be sliced; what Python raises
    there depends on its version, so that case is not followed. *)
Definition slice_to (v : json) (n : nat) : result json :=
  match v with
  | JArr l => Ok (JArr (firstn n l))
  | JStr s => Ok (JStr (firstn n s))
  | JObj _ => Unmodelled
  | _ => Raise TypeError
  end.

(** <<
def reduce_payload_size(p):
    entry = p['entry']
    entry = entry[:10]
    p['entry'] = entry
>>
    The pipeline does not call it: the call is commented out. *)
Definition reduce_payload_size (p : json) : result json :=
  entry <- getitem p (str "entry") ;;
  entry <- slice_to entry 10 ;;
  setitem p (str "entry") entry.

(** Strictly ascending in the order of [<] on strings. *)
Fixpoint ascending (l : list pystr) : Prop :=
  match l with
  | [] => True
  | x :: l' => Forall (fun y => str_ltb x y = true) l' /\ ascending l'
  end.

Definition clean_entries : list json :=
  [patient_entry (str "female"); observation_entry].

Definition clean_bundle : json := bundle_of clean_entries.

Definition patient_resource : json :=
  JObj [(str "resourceType", JStr (str "Patient"));
        (str "id", JStr uuid_patient)].

Definition entry_without_url : json :=
  JObj [(str "resource", patient_resource);
        (str "request", post_request (str "Patient"))].

Definition entry_with_list_url : json :=
  JObj [(str "fullUrl", JArr []);
        (str "resource", patient_resource);
        (str "request", post_request (str "Patient"))].

Definition entry_without_resource : json :=
  JObj [(str "fullUrl", JStr (str "urn:uuid:" ++ uuid_provenance));
        (str "request", post_request (str "Patient"))].

Definition entry_without_type : json :=
  JObj [(str "fullUrl", JStr (str "urn:uuid:" ++ uuid_provenance));
        (str "resource", JObj [(str "id", JStr uuid_provenance)]);
        (str "request", post_request (str "Patient"))].

Definition entry_of_resource (resource : json) : json :=
  JObj [(str "fullUrl", JStr (str "urn:uuid:" ++ uuid_provenance));
        (str "resource", resource);
        (str "request", post_request (str "Patient"))].

Definition resource_without_id : json :=
  JObj [(str "resourceType", JStr (str "Patient"))].

Definition resource_without_system : json :=
  JObj [(str "resourceType", JStr (str "Patient"));
        (str "identifier", JArr [JObj [(str "value", JStr (str "p-1"))]])].

Definition resource_without_value : json :=
  JObj [(str "resourceType", JStr (str "Patient"));
        (str "identifier",
         JArr [JObj [(str "system", JStr (str "urn:example:patients"))]])].

(** The key made of [x], a double quote and [reference]. *)
Definition quoted_key : pystr := str "x" ++ 34%N :: str "reference".

Definition quoted_key_document : json :=
  JObj [(quoted_key, JStr (str "Patient/" ++ uuid_patient));
        (str "note", JStr (str "Patient/" ++ uuid_patient));
        (str "reference", JArr [JStr (str "Patient/" ++ uuid_patient)])].

Definition plain_document : json :=
  JObj [(str "reference", JStr (str "Patient/abc"))].

Definition twelve_entries : list json := repeat (patient_entry (str "female")) 12.

(** A folder with a hospital file and a patient file, and a server that
    refuses its first request. *)
Definition file_h : pystr := str "mcode/hospitalInformation1.json".

Definition hospital_glob (folder pattern : pystr) : list pystr :=
  if str_eqb pattern (str "hospitalInformation*") then [file_h] else [].

Definition hospital_list (folder : pystr) : list pystr := [file_a; file_h].

Definition hospital_text (path : pystr) : result pystr :=
  if path_in path [file_h; file_a] then Ok (dumps scenario_bundle)
  else Raise OSError.

Definition refuse_first (s : nat) (endpoint : pystr) (body : json)
           (headers : list (pystr * pystr)) : bool * nat :=
  (negb (Nat.eqb s 0), S s).

Definition accept_all (s : nat) (endpoint : pystr) (body : json)
           (headers : list (pystr * pystr)) : bool * nat :=
  (true, S s).

(** * Strings and dicts *)

Lemma str_eqb_eq (a b : pystr) : str_eqb a b = true <-> a = b.
Proof.
  revert b; induction a as [|x a IH]; intros [|y b]; simpl; split; intro H;
    try reflexivity; try discriminate.
  - apply andb_true_iff in H as [H1 H2]. apply N.eqb_eq in H1.
    apply IH in H2. congruence.
  - injection H as -> ->. rewrite N.eqb_refl. simpl. now apply IH.
Qed.

Lemma str_eqb_refl (a : pystr) : str_eqb a a = true.
Proof. now apply str_eqb_eq. Qed.

Lemma str_eqb_neq (a b : pystr) : str_eqb a b = false <-> a <> b.
Proof.
  split; intro H.
  - intro E. apply str_eqb_eq in E. congruence.
  - destruct (str_eqb a b) eqn:E; [|reflexivity].
    apply str_eqb_eq in E. contradiction.
Qed.

Lemma str_eqb_sym (a b : pystr) : str_eqb a b = str_eqb b a.
Proof.
  destruct (str_eqb a b) eqn:E.
  - apply str_eqb_eq in E. subst. symmetry. apply str_eqb_refl.
  - apply str_eqb_neq in E. symmetry. apply str_eqb_neq. congruence.
Qed.

Lemma path_in_In (x : pystr) (l : list pystr) : path_in x l = true <-> In x l.
Proof.
  unfold path_in. rewrite existsb_exists. split.
  - intros (y & Hy & E). apply str_eqb_eq in E. now subst.
  - intro H. exists x. split; [assumption | apply str_eqb_refl].
Qed.

Lemma path_in_not_In (x : pystr) (l : list pystr) :
  path_in x l = false <-> ~ In x l.
Proof.
  split; intro H.
  - intro I. apply path_in_In in I. congruence.
  - destruct (path_in x l) eqn:E; [|reflexivity].
    apply path_in_In in E. contradiction.
Qed.

Lemma bind_Ok {A B} (m : result A) (k : A -> result B) (b : B) :
  bind m k = Ok b -> exists a, m = Ok a /\ k a = Ok b.
Proof. destruct m; simpl; intro H; try discriminate. now exists a. Qed.

Lemma getitem_Ok (v : json) (k : pystr) (x : json) :
  getitem v k = Ok x -> exists kvs, v = JObj kvs /\ dict_get k kvs = Some x.
Proof.
  destruct v; simpl; try discriminate. intro H. exists kvs. split; [reflexivity|].
  destruct (dict_get k kvs); [congruence | discriminate].
Qed.

Lemma dict_get_set_same k v kvs : dict_get k (dict_set k v kvs) = Some v.
Proof.
  induction kvs as [|[k' v'] rest IH]; simpl.
  - now rewrite str_eqb_refl.
  - destruct (str_eqb k k') eqn:E; simpl; rewrite E; [reflexivity | exact IH].
Qed.

Lemma dict_get_set_other k k' v kvs :
  k <> k' -> dict_get k' (dict_set k v kvs) = dict_get k' kvs.
Proof.
  intro N. induction kvs as [|[k0 v0] rest IH]; simpl.
  - assert (str_eqb k' k = false) as -> by (apply str_eqb_neq; congruence).
    reflexivity.
  - destruct (str_eqb k k0) eqn:E; simpl.
    + apply str_eqb_eq in E. subst k0.
      assert (str_eqb k' k = false) as -> by (apply str_eqb_neq; congruence).
      reflexivity.
    + destruct (str_eqb k' k0); [reflexivity | exact IH].
Qed.

Lemma dict_set_idem k v kvs :
  dict_set k v (dict_set k v kvs) = dict_set k v kvs.
Proof.
  induction kvs as [|[k' v'] rest IH]; simpl.
  - now rewrite str_eqb_refl.
  - destruct (str_eqb k k') eqn:E; simpl; rewrite E; [reflexivity | now rewrite IH].
Qed.

Lemma dict_set_same k v kvs :
  dict_get k kvs = Some v -> dict_set k v kvs = kvs.
Proof.
  induction kvs as [|[k' v'] rest IH]; simpl; [discriminate|].
  destruct (str_eqb k k') eqn:E.
  - intro H. now injection H as ->.
  - intro H. now rewrite IH.
Qed.

Lemma dict_set_keys k v kvs :
  dict_get k kvs <> None -> map fst (dict_set k v kvs) = map fst kvs.
Proof.
  induction kvs as [|[k' v'] rest IH]; simpl; [congruence|].
  destruct (str_eqb k k') eqn:E; simpl; [reflexivity|].
  intro H. now rewrite IH.
Qed.

(** * The duplicate purger *)

Lemma first_seen_snoc (l : list pystr) (u : pystr) :
  first_seen (l ++ [u]) =
  if path_in u (first_seen l) then first_seen l else first_seen l ++ [u].
Proof. unfold first_seen. rewrite fold_left_app. reflexivity. Qed.

Lemma first_seen_In (l : list pystr) (u : pystr) :
  In u (first_seen l) <-> In u l.
Proof.
  induction l as [|x l IH] using rev_ind.
  - reflexivity.
  - rewrite first_seen_snoc, in_app_iff. simpl.
    destruct (path_in x (first_seen l)) eqn:E.
    + apply path_in_In in E. rewrite IH in *. intuition (subst; auto).
    + rewrite in_app_iff, IH. simpl. tauto.
Qed.

Lemma first_seen_NoDup (l : list pystr) : NoDup (first_seen l).
Proof.
  induction l as [|x l IH] using rev_ind.
  - constructor.
  - rewrite first_seen_snoc. destruct (path_in x (first_seen l)) eqn:E; [assumption|].
    apply path_in_not_In in E.
    apply NoDup_app; [assumption | repeat constructor; intros [] | ].
    intros y Hy [<- | []]. contradiction.
Qed.

Lemma full_url_Ok e u : getitem e (str "fullUrl") = Ok (JStr u) -> full_url e = u.
Proof. unfold full_url. now intros ->. Qed.

Lemma purge_loop_built (es : list json) (acc : list (json * json)) :
  (forall e, In e es -> exists u, getitem e (str "fullUrl") = Ok (JStr u)) ->
  for_each es acc
    (fun each acc =>
       k <- getitem each (str "fullUrl") ;;
       _ <- hashable k ;;
       Ok (kdict_set k each acc)) = Ok (built es acc).
Proof.
  revert acc. induction es as [|e es IH]; intros acc H; simpl; [reflexivity|].
  destruct (H e (or_introl eq_refl)) as [u Hu].
  rewrite Hu. simpl. rewrite (full_url_Ok _ _ Hu).
  apply IH. intros e' He'. apply H. now right.
Qed.

Lemma kdict_set_new acc u e :
  url_keyed acc -> ~ In u (map furl acc) ->
  kdict_set (JStr u) e acc = acc ++ [(JStr u, e)].
Proof.
  induction acc as [|[k v] acc IH]; intros K N; simpl; [reflexivity|].
  inversion K as [|? ? Hk K']; subst. unfold furl in Hk. simpl in Hk. subst k. simpl.
  assert (str_eqb (full_url v) u = false) as ->.
  { apply str_eqb_neq. intro E. apply N. left. exact E. }
  rewrite IH; [reflexivity | assumption | ].
  intro I. apply N. now right.
Qed.

Lemma kdict_set_old acc u e :
  url_keyed acc -> In u (map furl acc) ->
  exists a v b,
    acc = a ++ (JStr u, v) :: b /\ full_url v = u /\ ~ In u (map furl a)
    /\ kdict_set (JStr u) e acc = a ++ (JStr u, e) :: b.
Proof.
  induction acc as [|[k v] acc IH]; intros K I; simpl in I; [contradiction|].
  inversion K as [|? ? Hk K']; subst. unfold furl in Hk. simpl in Hk. subst k.
  destruct (str_eqb (full_url v) u) eqn:E.
  - apply str_eqb_eq in E. exists [], v, acc. simpl.
    rewrite E, str_eqb_refl. repeat split; auto.
  - assert (In u (map furl acc)) as I'.
    { destruct I as [I|I]; [|assumption]. unfold furl in I. simpl in I.
      apply str_eqb_neq in E. contradiction. }
    destruct (IH K' I') as (a & v' & b & -> & Hv & Na & Hs).
    exists ((JStr (full_url v), v) :: a), v', b. simpl.
    unfold furl at 1. simpl. rewrite E. rewrite Hs. repeat split; auto.
    intros [F|F]; [|contradiction]. unfold furl in F. simpl in F.
    apply str_eqb_neq in E. contradiction.
Qed.

Lemma built_snoc es e acc :
  built (es ++ [e]) acc = kdict_set (JStr (full_url e)) e (built es acc).
Proof. unfold built. now rewrite fold_left_app. Qed.

Lemma built_invariant (es : list json) :
  url_keyed (built es [])
  /\ map furl (built es []) = first_seen (map full_url es)
  /\ Forall (fun kv => last_with_url (snd kv) es) (built es []).
Proof.
  induction es as [|e es (K & U & L)] using rev_ind.
  - repeat split; constructor.
  - rewrite built_snoc, map_app. simpl (map full_url [e]).
    rewrite first_seen_snoc. rewrite <- U.
    destruct (path_in (full_url e) (map furl (built es []))) eqn:P.
    + apply path_in_In in P.
      destruct (kdict_set_old _ _ e K P) as (a & v & b & Eacc & Hv & Na & ->).
      assert (NoDup (map furl (built es []))) as ND
          by (rewrite U; apply first_seen_NoDup).
      rewrite Eacc in *. clear Eacc.
      rewrite map_app in *. simpl in *.
      apply Forall_app in K as [Ka K]. inversion K as [|? ? _ Kb]; subst.
      apply Forall_app in L as [La L]. inversion L as [|? ? _ Lb]; subst.
      apply NoDup_remove_2 in ND.
      assert (furl (JStr (full_url e), e) = furl (JStr (full_url e), v)) as Ef
          by (unfold furl; simpl; congruence).
      repeat split.
      * apply Forall_app. split; [assumption|]. constructor; [reflexivity|assumption].
      * rewrite map_app. simpl. now rewrite Ef.
      * assert (forall l, Forall (fun kv => last_with_url (snd kv) es) l ->
                          ~ In (full_url e) (map furl l) ->
                          Forall (fun kv => last_with_url (snd kv) (es ++ [e])) l) as Keep.
        { intros l Hl Nl. rewrite Forall_forall in *. intros kv Hkv.
          destruct (Hl kv Hkv) as (bf & af & -> & Hn).
          exists bf, (af ++ [e]). split; [now rewrite <- app_assoc|].
          rewrite map_app, in_app_iff. simpl. intros [F|[F|[]]]; [contradiction|].
          apply Nl. rewrite F. apply in_map_iff. now exists kv. }
        apply Forall_app. split; [now apply Keep|].
        constructor.
        -- exists es, []. simpl. split; [reflexivity | tauto].
        -- apply Keep; [assumption|]. intro F. apply ND.
           rewrite in_app_iff. right.
           unfold furl at 1. simpl. rewrite Hv. exact F.
    + apply path_in_not_In in P. rewrite (kdict_set_new _ _ e K P).
      repeat split.
      * apply Forall_app. split; [assumption|]. now repeat constructor.
      * rewrite map_app. reflexivity.
      * apply Forall_app. split.
        -- rewrite Forall_forall in *. intros kv Hkv.
           destruct (L kv Hkv) as (bf & af & -> & Hn).
           exists bf, (af ++ [e]). split; [now rewrite <- app_assoc|].
           rewrite map_app, in_app_iff. simpl. intros [F|[F|[]]]; [contradiction|].
           apply P. rewrite F. apply in_map_iff. now exists kv.
        -- constructor; [|constructor]. exists es, []. simpl.
           split; [reflexivity | tauto].
Qed.

(** C1. For a bundle whose entries each carry a (string) [fullUrl],
    [purge_duplicates] replaces the entry list by one entry per distinct
    URL: the URLs of the new list are the distinct URLs of the old one in
    the order of their first occurrence, and the entry kept for a URL is
    the last entry of the old list with that URL. *)
Theorem purge_duplicates_last_wins_first_position (d : json) (es : list json) :
  getitem d (str "entry") = Ok (JArr es) ->
  (forall e, In e es -> exists u, getitem e (str "fullUrl") = Ok (JStr u)) ->
  exists kept d',
    purge_duplicates d = Ok d'
    /\ setitem d (str "entry") (JArr kept) = Ok d'
    /\ map full_url kept = first_seen (map full_url es)
    /\ NoDup (map full_url kept)
    /\ (forall u, In u (map full_url kept) <-> In u (map full_url es))
    /\ (forall e, In e kept -> last_with_url e es).
Proof.
  intros Hentry Hurl.
  destruct (getitem_Ok _ _ _ Hentry) as (kvs & -> & Hget).
  destruct (built_invariant es) as (K & U & L).
  assert (map full_url (map snd (built es [])) = first_seen (map full_url es)) as U'.
  { rewrite <- U. rewrite map_map. reflexivity. }
  exists (map snd (built es [])), (JObj (dict_set (str "entry") (JArr (map snd (built es []))) kvs)).
  split; [|split; [reflexivity|]].
  - unfold purge_duplicates. rewrite Hentry. simpl.
    rewrite (purge_loop_built es [] Hurl). reflexivity.
  - split; [exact U'|]. split; [rewrite U'; apply first_seen_NoDup|].
    split.
    + intro u. rewrite U'. apply first_seen_In.
    + intros e He. apply in_map_iff in He as (kv & <- & Hkv).
      rewrite Forall_forall in L. now apply L.
Qed.

(** ** Idempotence of the purge *)

Ltac eqb_to_eq :=
  repeat match goal with
         | H : Z.eqb _ _ = true |- _ => apply Z.eqb_eq in H
         | H : str_eqb _ _ = true |- _ => apply str_eqb_eq in H
         | H : Bool.eqb _ _ = true |- _ => apply eqb_prop in H
         | |- Z.eqb _ _ = true => apply Z.eqb_eq
         | |- str_eqb _ _ = true => apply str_eqb_eq
         | |- Bool.eqb _ _ = true => apply eqb_true_iff
         end.

Lemma py_eq_scalar_refl k : scalar k -> py_eq k k = true.
Proof.
  destruct k; unfold scalar; simpl; intro H; try discriminate; eqb_to_eq;
    reflexivity.
Qed.

Lemma py_eq_scalar_sym a b : scalar a -> scalar b -> py_eq a b = true -> py_eq b a = true.
Proof.
  destruct a, b; unfold scalar; simpl; intros Ha Hb H; try discriminate;
    eqb_to_eq; subst; auto.
Qed.

Lemma py_eq_scalar_trans a b c :
  scalar a -> scalar b -> scalar c ->
  py_eq a b = true -> py_eq b c = true -> py_eq a c = true.
Proof.
  destruct a, b, c; unfold scalar; simpl; intros Ha Hb Hc H1 H2;
    try discriminate; eqb_to_eq; subst; auto;
    repeat match goal with b : bool |- _ => destruct b end; auto;
    try discriminate; try lia.
Qed.

Lemma kdict_set_good k e acc :
  scalar k -> getitem e (str "fullUrl") = Ok k ->
  Forall filed acc -> distinct_keys acc ->
  Forall filed (kdict_set k e acc) /\ distinct_keys (kdict_set k e acc)
  /\ (forall k0, Forall (fun kv' => py_eq k0 (fst kv') = false) acc ->
                 py_eq k0 k = false ->
                 Forall (fun kv' => py_eq k0 (fst kv') = false) (kdict_set k e acc)).
Proof.
  intros Sk Hk. assert (own_key e = k) as Ho by (unfold own_key; now rewrite Hk).
  induction acc as [|[k' v'] acc IH]; intros F D; simpl.
  - split; [|split].
    + constructor; [|constructor]. unfold filed. simpl. rewrite Ho.
      repeat split; auto. now apply py_eq_scalar_refl.
    + split; [constructor | exact I].
    + intros k0 _ H. now constructor.
  - apply Forall_cons_iff in F as [Fk F']. destruct D as [D1 D2].
    destruct (py_eq k' k) eqn:E.
    + split; [|split].
      * constructor; [|assumption]. destruct Fk as (S1 & S2 & G & Q).
        unfold filed. simpl in *. rewrite Ho. repeat split; auto.
      * simpl. split; assumption.
      * intros k0 H _. apply Forall_cons_iff in H as [H1 H2]. now constructor.
    + destruct (IH F' D2) as (IF & ID & IK).
      split; [|split].
      * constructor; assumption.
      * simpl. split; [|assumption]. apply IK; assumption.
      * intros k0 H H0. apply Forall_cons_iff in H as [H1 H2]. constructor; auto.
Qed.

Lemma purge_loop_good items : forall acc unique,
  for_each items acc purge_step = Ok unique ->
  Forall filed acc -> distinct_keys acc ->
  Forall filed unique /\ distinct_keys unique.
Proof.
  induction items as [|e items IH]; simpl; intros acc unique H F D.
  - injection H as <-. now split.
  - apply bind_Ok in H as (acc' & Hs & H).
    unfold purge_step in Hs.
    apply bind_Ok in Hs as (k & Hk & Hs).
    apply bind_Ok in Hs as ([] & Hh & Hs). injection Hs as <-.
    destruct (kdict_set_good k e acc Hh Hk F D) as (F' & D' & _).
    exact (IH _ _ H F' D').
Qed.

Lemma kdict_set_fresh k e acc :
  Forall (fun kv' => py_eq (fst kv') k = false) acc ->
  kdict_set k e acc = acc ++ [(k, e)].
Proof.
  induction acc as [|[k' v'] acc IH]; intro H; simpl; [reflexivity|].
  inversion H as [|? ? H1 H2]; subst. simpl in H1. rewrite H1.
  now rewrite IH.
Qed.

Lemma purge_loop_again (s : list (json * json)) : forall p,
  Forall filed (p ++ s) -> distinct_keys (p ++ s) ->
  for_each (map snd s) (refiled p) purge_step = Ok (refiled (p ++ s)).
Proof.
  induction s as [|[k e] s IH]; intros p F D; simpl.
  - now rewrite List.app_nil_r.
  - assert (filed (k, e)) as Fe.
    { rewrite Forall_forall in F. apply F. apply in_app_iff. right. now left. }
    destruct Fe as (S1 & S2 & G & Q). simpl in *.
    unfold purge_step at 1. rewrite G. simpl. rewrite S2. simpl.
    rewrite kdict_set_fresh.
    + specialize (IH (p ++ [(k, e)])).
      rewrite <- app_assoc in IH. simpl in IH.
      unfold refiled in IH at 1. rewrite map_app in IH. simpl in IH.
      apply IH; assumption.
    + unfold refiled. rewrite Forall_map. simpl.
      rewrite Forall_forall. intros [k' v'] Hin. simpl.
      assert (filed (k', v')) as (T1 & T2 & T3 & T4).
      { rewrite Forall_forall in F. apply F. apply in_app_iff. now left. }
      simpl in *.
      assert (py_eq k' k = false) as Hd.
      { clear - Hin D. induction p as [|x p IHp]; [contradiction|].
        simpl in D. destruct D as [D1 D2]. destruct Hin as [->|Hin].
        - rewrite Forall_forall in D1. apply (D1 (k, e)).
          apply in_app_iff. right. now left.
        - now apply IHp. }
      destruct (py_eq (own_key v') (own_key e)) eqn:E; [|reflexivity].
      rewrite <- Hd. symmetry.
      apply py_eq_scalar_trans with (own_key v'); auto.
      apply py_eq_scalar_trans with (own_key e); auto.
      apply py_eq_scalar_sym; auto.
Qed.

(** C2. Purging twice is purging once: when [purge_duplicates] returns,
    a second call leaves the bundle as the first left it - same entries,
    hence the same [fullUrl] values. *)
Theorem purge_duplicates_idempotent (d d' : json) :
  purge_duplicates d = Ok d' -> purge_duplicates d' = Ok d'.
Proof.
  unfold purge_duplicates. intro H.
  apply bind_Ok in H as (entry & He & H).
  apply bind_Ok in H as (items & Hi & H).
  apply bind_Ok in H as (unique & Hu & H).
  destruct (getitem_Ok _ _ _ He) as (kvs & -> & Hg).
  simpl in H. injection H as <-.
  destruct (purge_loop_good items [] unique Hu (Forall_nil _) I) as (F & D).
  simpl. rewrite dict_get_set_same. simpl.
  pose proof (purge_loop_again unique [] F D) as Hagain.
  simpl in Hagain. unfold purge_step in Hagain. rewrite Hagain. simpl.
  assert (map snd (refiled unique) = map snd unique) as ->.
  { unfold refiled. rewrite map_map. reflexivity. }
  now rewrite dict_set_idem.
Qed.

(** * Structural induction on documents *)

Lemma json_induction (P : json -> Prop) :
  P JNull ->
  (forall b, P (JBool b)) ->
  (forall z, P (JInt z)) ->
  (forall s, P (JStr s)) ->
  (forall l, Forall P l -> P (JArr l)) ->
  (forall kvs, Forall (fun kv => P (snd kv)) kvs -> P (JObj kvs)) ->
  forall j, P j.
Proof.
  intros Hn Hb Hz Hs Ha Ho.
  exact (fix F (j : json) : P j :=
           match j with
           | JNull => Hn
           | JBool b => Hb b
           | JInt z => Hz z
           | JStr s => Hs s
           | JArr l =>
               Ha l ((fix G (l : list json) : Forall P l :=
                        match l with
                        | [] => Forall_nil _
                        | x :: r => Forall_cons x (F x) (G r)
                        end) l)
           | JObj kvs =>
               Ho kvs ((fix G (l : list (pystr * json))
                        : Forall (fun kv => P (snd kv)) l :=
                          match l with
                          | [] => Forall_nil _
                          | x :: r => Forall_cons x (F (snd x)) (G r)
                          end) kvs)
           end).
Qed.

(** * Equality of documents *)

Lemma py_eq_obj x y :
  py_eq (JObj x) (JObj y) = Nat.eqb (length x) (length y) && items_in x y.
Proof. reflexivity. Qed.

Lemma items_in_cons k v x y :
  items_in ((k, v) :: x) y =
  match dict_get k y with Some v' => py_eq v v' | None => false end
  && items_in x y.
Proof. reflexivity. Qed.

Lemma items_in_spec x y :
  items_in x y = true <->
  forall k v, In (k, v) x -> exists v', dict_get k y = Some v' /\ py_eq v v' = true.
Proof.
  induction x as [|[k v] x IH].
  - split; [intros _ ? ? [] | reflexivity].
  - rewrite items_in_cons, andb_true_iff, IH. split.
    + intros [H1 H2] k0 v0 [E|I]; [|now apply H2].
      injection E as <- <-. destruct (dict_get k y); [|discriminate]. eauto.
    + intro H. split.
      * destruct (H k v (or_introl eq_refl)) as (v' & -> & E). exact E.
      * intros k0 v0 I. apply H. now right.
Qed.

Lemma keys_unique_NoDup ks : keys_unique ks = true -> NoDup ks.
Proof.
  induction ks as [|k ks IH]; simpl; intro H; constructor;
    apply andb_true_iff in H as [H1 H2].
  - apply negb_true_iff in H1. now apply path_in_not_In in H1.
  - now apply IH.
Qed.

Lemma dict_get_In k v kvs : dict_get k kvs = Some v -> In (k, v) kvs.
Proof.
  induction kvs as [|[k' v'] kvs IH]; simpl; [discriminate|].
  destruct (str_eqb k k') eqn:E.
  - apply str_eqb_eq in E. subst. intro H. injection H as ->. now left.
  - intro H. right. now apply IH.
Qed.

Lemma dict_get_None k kvs : dict_get k kvs = None <-> ~ In k (map fst kvs).
Proof.
  induction kvs as [|[k' v'] kvs IH]; simpl; [tauto|].
  destruct (str_eqb k k') eqn:E.
  - apply str_eqb_eq in E. subst. split; [discriminate | intro H; exfalso; auto].
  - apply str_eqb_neq in E. rewrite IH. intuition congruence.
Qed.

Lemma dict_get_unique k v kvs :
  NoDup (map fst kvs) -> In (k, v) kvs -> dict_get k kvs = Some v.
Proof.
  induction kvs as [|[k' v'] kvs IH]; simpl; intros N I; [contradiction|].
  inversion N as [|? ? N1 N2]; subst.
  destruct I as [E|I].
  - injection E as -> ->. now rewrite str_eqb_refl.
  - destruct (str_eqb k k') eqn:E; [|now apply IH].
    apply str_eqb_eq in E. subst. exfalso. apply N1.
    apply in_map_iff. now exists (k', v).
Qed.

Lemma wf_obj kvs :
  wf (JObj kvs) = true ->
  NoDup (map fst kvs) /\ forall k v, In (k, v) kvs -> wf v = true.
Proof.
  simpl. intro H. apply andb_true_iff in H as [H1 H2]. split.
  - now apply keys_unique_NoDup.
  - intros k v I. rewrite forallb_forall in H2. specialize (H2 _ I).
    simpl in H2. now apply andb_true_iff in H2 as [_ H2].
Qed.

Lemma wf_getitem j k v : wf j = true -> getitem j k = Ok v -> wf v = true.
Proof.
  intros W G. destruct (getitem_Ok _ _ _ G) as (kvs & -> & D).
  apply wf_obj in W as [_ W]. apply (W k). now apply dict_get_In.
Qed.

Lemma py_eq_refl j : wf j = true -> py_eq j j = true.
Proof.
  induction j as [| b | z | s | l IH | kvs IH] using json_induction; intro W.
  - reflexivity.
  - simpl. now destruct b.
  - simpl. apply Z.eqb_refl.
  - simpl. apply str_eqb_refl.
  - simpl in *. induction l as [|x l IHl]; [reflexivity|].
    simpl in W. apply andb_true_iff in W as [W1 W2].
    inversion IH; subst. rewrite H1 by assumption. simpl. now apply IHl.
  - rewrite py_eq_obj, Nat.eqb_refl. simpl.
    apply wf_obj in W as [N W]. apply items_in_spec. intros k v I.
    exists v. split; [now apply dict_get_unique|].
    rewrite Forall_forall in IH. apply (IH (k, v) I). now apply (W k).
Qed.

Lemma py_eq_str_r j s : py_eq j (JStr s) = true -> j = JStr s.
Proof.
  destruct j; simpl; try discriminate. intro H. apply str_eqb_eq in H. now subst.
Qed.

(** Equal dicts have the same keys, with equal values. *)
Lemma py_eq_getitem x y k vy :
  wf x = true -> py_eq x y = true -> getitem y k = Ok vy ->
  exists vx, getitem x k = Ok vx /\ py_eq vx vy = true.
Proof.
  intros W E G. destruct (getitem_Ok _ _ _ G) as (ky & -> & D).
  destruct x as [| | | | |kx]; try discriminate.
  rewrite py_eq_obj in E. apply andb_true_iff in E as [El Ei].
  apply Nat.eqb_eq in El. apply wf_obj in W as [N _].
  rewrite items_in_spec in Ei.
  assert (incl (map fst kx) (map fst ky)) as Inc.
  { intros a Ha. apply in_map_iff in Ha as ([a' v] & <- & Ha). simpl.
    destruct (Ei _ _ Ha) as (v' & Hv & _). apply dict_get_In in Hv.
    apply in_map_iff. now exists (a', v'). }
  assert (incl (map fst ky) (map fst kx)) as Inc'.
  { apply NoDup_length_incl; [assumption | | assumption].
    rewrite !length_map. lia. }
  assert (In k (map fst kx)) as Hk.
  { apply Inc'. apply dict_get_In in D. apply in_map_iff. now exists (k, vy). }
  destruct (dict_get k kx) as [vx|] eqn:Dx.
  - exists vx. simpl. rewrite Dx. split; [reflexivity|].
    apply dict_get_In in Dx. destruct (Ei _ _ Dx) as (v' & Hv & Ev).
    congruence.
  - apply dict_get_None in Dx. contradiction.
Qed.

(** * The provenance stripper *)

Lemma py_eq_provenance x e :
  wf x = true -> py_eq x e = true ->
  is_provenance e = true -> is_provenance x = true.
Proof.
  unfold is_provenance, resource_type. intros W E P.
  destruct (getitem e (str "resource")) as [re| |] eqn:Gr; try discriminate.
  simpl in P.
  destruct (getitem re (str "resourceType")) as [te| |] eqn:Gt; try discriminate.
  apply py_eq_str_r in P. subst te.
  destruct (py_eq_getitem _ _ _ _ W E Gr) as (rx & Grx & Er).
  rewrite Grx. simpl.
  destruct (py_eq_getitem _ _ _ _ (wf_getitem _ _ _ W Grx) Er Gt) as (tx & Gtx & Et).
  rewrite Gtx. exact Et.
Qed.

Lemma strip_step_spec e entry :
  (exists t, resource_type e = Ok t) ->
  strip_step e entry = if is_provenance e then list_remove entry e else Ok entry.
Proof.
  intros [t Ht]. unfold strip_step, is_provenance. unfold resource_type in *.
  destruct (getitem e (str "resource")) as [re| |]; try discriminate. simpl in *.
  rewrite Ht. reflexivity.
Qed.

Lemma remove_first_kept (done todo : list json) (e : json) :
  Forall (fun x => wf x = true) done ->
  Forall (fun x => is_provenance x = false) done ->
  wf e = true -> is_provenance e = true ->
  remove_first e (done ++ e :: todo) = Some (done ++ todo).
Proof.
  intros W K We Pe. induction done as [|x done IH]; simpl.
  - now rewrite py_eq_refl.
  - inversion W; subst. inversion K; subst.
    destruct (py_eq x e) eqn:E.
    + pose proof (py_eq_provenance x e H1 E Pe). congruence.
    + now rewrite IH.
Qed.

Lemma strip_loop (todo : list json) : forall done,
  Forall (fun x => wf x = true) (done ++ todo) ->
  Forall (fun x => is_provenance x = false) done ->
  (forall e, In e todo -> exists t, resource_type e = Ok t) ->
  for_each todo (JArr (done ++ todo)) strip_step
  = Ok (JArr (done ++ filter keep todo)).
Proof.
  induction todo as [|e todo IH]; intros done W K T; simpl; [reflexivity|].
  rewrite strip_step_spec by (apply T; now left).
  assert (wf e = true) as We.
  { rewrite Forall_forall in W. apply W. apply in_app_iff. right. now left. }
  unfold keep at 1. destruct (is_provenance e) eqn:P; simpl.
  - rewrite remove_first_kept; auto.
    + simpl. apply IH; auto.
      * apply Forall_app in W as [W1 W2]. inversion W2; subst.
        apply Forall_app. now split.
      * intros e' He'. apply T. now right.
    + now apply Forall_app in W as [W1 _].
  - specialize (IH (done ++ [e])). rewrite <- !app_assoc in IH. simpl in IH.
    apply IH.
    + assumption.
    + apply Forall_app. split; [assumption | now repeat constructor].
    + intros e' He'. apply T. now right.
Qed.

(** C3. On a bundle whose entries each have [resource.resourceType],
    [remove_provenance] leaves the entry list filtered: the entries whose
    type is ["Provenance"] are dropped, the others stay, in their
    order. *)
Theorem remove_provenance_filters (p : json) (es : list json) :
  wf p = true ->
  getitem p (str "entry") = Ok (JArr es) ->
  (forall e, In e es -> exists t, resource_type e = Ok t) ->
  exists p',
    remove_provenance p = Ok p'
    /\ setitem p (str "entry") (JArr (filter keep es)) = Ok p'
    /\ Forall (fun e => is_provenance e = false) (filter keep es)
    /\ (forall e, In e (filter keep es) <-> In e es /\ is_provenance e = false).
Proof.
  intros W G T.
  destruct (getitem_Ok _ _ _ G) as (kvs & -> & D).
  exists (JObj (dict_set (str "entry") (JArr (filter keep es)) kvs)).
  split; [|split; [reflexivity|split]].
  - unfold remove_provenance. rewrite G. simpl bind.
    pose proof (strip_loop es [] ) as L. simpl in L.
    unfold strip_step in L. rewrite L; [reflexivity | | constructor | assumption].
    pose proof (wf_getitem _ _ _ W G) as We. simpl in We.
    rewrite forallb_forall in We. now apply Forall_forall.
  - apply Forall_forall. intros e He. apply filter_In in He as [_ He].
    unfold keep in He. now apply negb_true_iff in He.
  - intro e. rewrite filter_In. unfold keep. now rewrite negb_true_iff.
Qed.

(** * The regular expression engine *)

Lemma m_star_sound {R} cls (s : pystr) : forall acc (k : pystr -> pystr -> option R) r,
  m_star cls s acc k = Some r ->
  exists a b, s = a ++ b /\ forallb cls a = true /\ k (acc ++ a) b = Some r.
Proof.
  induction s as [|c s IH]; intros acc k r H; simpl in H.
  - exists [], []. repeat split; rewrite ?List.app_nil_r; auto.
  - destruct (cls c) eqn:C.
    + destruct (m_star cls s (acc ++ [c]) k) as [r'|] eqn:M.
      * injection H as <-. destruct (IH _ _ _ M) as (a & b & -> & Fa & Hk).
        exists (c :: a), b. simpl. rewrite C. rewrite <- app_assoc in Hk. auto.
      * exists [], (c :: s). repeat split; rewrite ?List.app_nil_r; auto.
    + exists [], (c :: s). repeat split; rewrite ?List.app_nil_r; auto.
Qed.

Lemma m_star_greedy {R} cls (a : pystr) : forall b acc (k : pystr -> pystr -> option R) r,
  forallb cls a = true -> stops cls b ->
  k (acc ++ a) b = Some r ->
  m_star cls (a ++ b) acc k = Some r.
Proof.
  induction a as [|c a IH]; intros b acc k r Fa Sb Hk; simpl in *.
  - rewrite List.app_nil_r in Hk. destruct b as [|c b]; simpl; [assumption|].
    now rewrite Sb.
  - apply andb_true_iff in Fa as [C Fa]. rewrite C.
    rewrite (IH b (acc ++ [c]) k r); auto. now rewrite <- app_assoc.
Qed.

Lemma m_rep_sound {R} cls (n : nat) : forall s acc (k : pystr -> pystr -> option R) r,
  m_rep n cls s acc k = Some r ->
  exists a b, s = a ++ b /\ length a = n /\ forallb cls a = true
              /\ k (acc ++ a) b = Some r.
Proof.
  induction n as [|n IH]; intros s acc k r H; simpl in H.
  - exists [], s. repeat split; rewrite ?List.app_nil_r; auto.
  - destruct s as [|c s]; [discriminate|].
    destruct (cls c) eqn:C; [|discriminate].
    destruct (IH _ _ _ _ H) as (a & b & -> & L & Fa & Hk).
    exists (c :: a), b. simpl. rewrite C, L. rewrite <- app_assoc in Hk. auto.
Qed.

Lemma m_rep_complete {R} cls (a : pystr) : forall b acc (k : pystr -> pystr -> option R),
  forallb cls a = true ->
  m_rep (length a) cls (a ++ b) acc k = k (acc ++ a) b.
Proof.
  induction a as [|c a IH]; intros b acc k Fa; simpl in *.
  - now rewrite List.app_nil_r.
  - apply andb_true_iff in Fa as [C Fa]. rewrite C.
    rewrite IH by assumption. now rewrite <- app_assoc.
Qed.

Lemma m_lits_sound (l : pystr) : forall rs s acc g m,
  m_atoms (map Lit l ++ rs) s acc g = Some m ->
  exists t, s = l ++ t /\ m_atoms rs t (acc ++ l) g = Some m.
Proof.
  induction l as [|c l IH]; intros rs s acc g m H; simpl in H.
  - exists s. repeat split; rewrite ?List.app_nil_r; auto.
  - destruct s as [|x s]; [discriminate|].
    destruct (x =? c)%N eqn:E; [|discriminate]. apply N.eqb_eq in E. subst x.
    destruct (IH _ _ _ _ _ H) as (t & -> & Hm).
    exists t. rewrite <- app_assoc in Hm. auto.
Qed.

Lemma m_lits_complete (l : pystr) : forall rs t acc g,
  m_atoms (map Lit l ++ rs) (l ++ t) acc g = m_atoms rs t (acc ++ l) g.
Proof.
  induction l as [|c l IH]; intros rs t acc g; simpl.
  - now rewrite List.app_nil_r.
  - rewrite N.eqb_refl, IH. now rewrite <- app_assoc.
Qed.

Lemma m_lit_sound c rs s acc g m :
  m_atoms (Lit c :: rs) s acc g = Some m ->
  exists t, s = c :: t /\ m_atoms rs t (acc ++ [c]) g = Some m.
Proof. apply (m_lits_sound [c]). Qed.

Lemma REFERENCE_REGEX_split :
  REFERENCE_REGEX = map Lit QREF ++ REGEX_TAIL.
Proof. reflexivity. Qed.

(** A match starts with the quoted word. *)
Lemma re_match_QREF s m :
  re_match REFERENCE_REGEX s = Some m ->
  exists tail, s = QREF ++ tail /\ hit tail = Some m.
Proof.
  unfold re_match. rewrite REFERENCE_REGEX_split. intro H.
  apply m_lits_sound in H as (t & -> & H). exists t. split; [reflexivity | exact H].
Qed.

Lemma re_match_hit tail : re_match REFERENCE_REGEX (QREF ++ tail) = hit tail.
Proof.
  unfold re_match. rewrite REFERENCE_REGEX_split. now rewrite m_lits_complete.
Qed.

(** ** Shapes *)

Lemma has_shape_app sh1 : forall sh2 a b,
  has_shape sh1 a = true -> has_shape sh2 b = true ->
  has_shape (sh1 ++ sh2) (a ++ b) = true.
Proof.
  induction sh1 as [|p sh1 IH]; intros sh2 a b H1 H2; destruct a as [|c a];
    simpl in *; try discriminate; [assumption|].
  apply andb_true_iff in H1 as [Hp H1]. rewrite Hp. simpl. now apply IH.
Qed.

Lemma has_shape_app_inv sh1 : forall sh2 s,
  has_shape (sh1 ++ sh2) s = true ->
  exists a b, s = a ++ b /\ has_shape sh1 a = true /\ has_shape sh2 b = true.
Proof.
  induction sh1 as [|p sh1 IH]; intros sh2 s H; simpl in *.
  - exists [], s. auto.
  - destruct s as [|c s]; [discriminate|].
    apply andb_true_iff in H as [Hp H].
    destruct (IH _ _ H) as (a & b & -> & Ha & Hb).
    exists (c :: a), b. simpl. rewrite Hp. auto.
Qed.

Lemma has_shape_repeat p (a : pystr) :
  has_shape (repeat p (length a)) a = forallb p a.
Proof. induction a as [|c a IH]; simpl; [reflexivity | now rewrite IH]. Qed.

Lemma has_shape_repeat_inv p n (a : pystr) :
  has_shape (repeat p n) a = true -> length a = n /\ forallb p a = true.
Proof.
  revert a. induction n as [|n IH]; intros [|c a]; simpl; try discriminate; auto.
  intro H. apply andb_true_iff in H as [Hp H]. destruct (IH _ H) as [L F].
  rewrite Hp, L. auto.
Qed.

Lemma has_shape_one p c : has_shape [p] [c] = p c.
Proof. simpl. now rewrite andb_true_r. Qed.

Lemma span_word_app (w : pystr) : forall r,
  forallb cls_word w = true -> stops cls_word r ->
  span_word (w ++ r) = (w, r).
Proof.
  induction w as [|c w IH]; intros r F S; simpl in *.
  - destruct r as [|c r]; simpl; [reflexivity|]. now rewrite S.
  - apply andb_true_iff in F as [C F]. rewrite C. now rewrite IH.
Qed.

Lemma span_word_spec (s : pystr) : forall w r,
  span_word s = (w, r) ->
  s = w ++ r /\ forallb cls_word w = true /\ stops cls_word r.
Proof.
  induction s as [|c s IH]; intros w r H; simpl in H.
  - injection H as <- <-. simpl. auto.
  - destruct (cls_word c) eqn:C.
    + destruct (span_word s) as [w' r'] eqn:E. injection H as <- <-.
      destruct (IH _ _ eq_refl) as (-> & F & S). simpl. rewrite C. auto.
    + injection H as <- <-. simpl. auto.
Qed.

Lemma rel_ref_intro (w u : pystr) :
  w <> [] -> forallb cls_word w = true -> is_uuid u = true ->
  rel_ref (w ++ 47%N :: u) = Some u.
Proof.
  intros Nw Fw Hu. unfold rel_ref.
  rewrite span_word_app by (auto; reflexivity).
  destruct w; [contradiction|]. now rewrite Hu.
Qed.

Lemma rel_ref_elim (s u : pystr) :
  rel_ref s = Some u ->
  exists w, s = w ++ 47%N :: u /\ w <> [] /\ forallb cls_word w = true
            /\ is_uuid u = true.
Proof.
  unfold rel_ref. destruct (span_word s) as [w r] eqn:E.
  destruct (span_word_spec _ _ _ E) as (-> & F & S).
  destruct w as [|c w]; [discriminate|].
  destruct r as [|x r]; [discriminate|].
  destruct x as [|x]; [discriminate|].
  do 6 (destruct x as [x|x|]; try discriminate).
  destruct (is_uuid r) eqn:U; [|discriminate].
  intro H. injection H as <-. exists (c :: w). repeat split; auto. discriminate.
Qed.

(** ** One atom at a time *)

Lemma m_atoms_star_sound cls rs s acc g m :
  m_atoms (Star cls :: rs) s acc g = Some m ->
  exists a b, s = a ++ b /\ forallb cls a = true
              /\ m_atoms rs b (acc ++ a) g = Some m.
Proof. simpl. intro H. now apply m_star_sound in H. Qed.

Lemma m_atoms_plus_sound cls rs s acc g m :
  m_atoms (Plus cls :: rs) s acc g = Some m ->
  exists a b, s = a ++ b /\ a <> [] /\ forallb cls a = true
              /\ m_atoms rs b (acc ++ a) g = Some m.
Proof.
  simpl. destruct s as [|x s]; [discriminate|].
  destruct (cls x) eqn:C; [|discriminate]. intro H.
  apply m_star_sound in H as (a & b & -> & F & H).
  exists (x :: a), b. simpl. rewrite C. rewrite <- app_assoc in H.
  repeat split; auto. discriminate.
Qed.

Lemma m_atoms_rep_sound n cls rs s acc g m :
  m_atoms (Rep n cls :: rs) s acc g = Some m ->
  exists a b, s = a ++ b /\ has_shape (repeat cls n) a = true
              /\ m_atoms rs b (acc ++ a) g = Some m.
Proof.
  simpl. intro H. apply m_rep_sound in H as (a & b & -> & L & F & H).
  exists a, b. subst n. rewrite has_shape_repeat. auto.
Qed.

Lemma m_atoms_star_greedy cls rs a b acc g m :
  forallb cls a = true -> stops cls b ->
  m_atoms rs b (acc ++ a) g = Some m ->
  m_atoms (Star cls :: rs) (a ++ b) acc g = Some m.
Proof. intros F S H. simpl. now apply m_star_greedy. Qed.

Lemma m_atoms_plus_greedy cls rs a b acc g m :
  a <> [] -> forallb cls a = true -> stops cls b ->
  m_atoms rs b (acc ++ a) g = Some m ->
  m_atoms (Plus cls :: rs) (a ++ b) acc g = Some m.
Proof.
  intros Na F S H. destruct a as [|x a]; [contradiction|]. simpl in *.
  apply andb_true_iff in F as [C F]. rewrite C.
  apply m_star_greedy; auto. now rewrite <- app_assoc.
Qed.

Lemma m_atoms_rep_complete n cls rs a b acc g :
  has_shape (repeat cls n) a = true ->
  m_atoms (Rep n cls :: rs) (a ++ b) acc g = m_atoms rs b (acc ++ a) g.
Proof.
  intro H. apply has_shape_repeat_inv in H as [L F]. subst n. simpl.
  exact (m_rep_complete cls a b acc (fun acc' s' => m_atoms rs s' acc' g) F).
Qed.

Lemma m_atoms_lit c rs t acc g :
  m_atoms (Lit c :: rs) (c :: t) acc g = m_atoms rs t (acc ++ [c]) g.
Proof. simpl. now rewrite N.eqb_refl. Qed.

Lemma skipn_length_app {A} (a b : list A) : skipn (length a) (a ++ b) = b.
Proof. induction a; simpl; auto. Qed.

(** ** The match after ["reference"] *)

Lemma uuid_parts (u : pystr) :
  is_uuid u = true <->
  exists u1 u2 u3 u4 u5,
    u = u1 ++ 45%N :: u2 ++ 45%N :: u3 ++ 45%N :: u4 ++ 45%N :: u5
    /\ has_shape (repeat cls_hex 8) u1 = true
    /\ has_shape (repeat cls_hex 4) u2 = true
    /\ has_shape (repeat cls_hex 4) u3 = true
    /\ has_shape (repeat cls_hex 4) u4 = true
    /\ has_shape (repeat cls_hex 12) u5 = true.
Proof.
  unfold is_uuid, uuid_shape. split.
  - intro H.
    apply has_shape_app_inv in H as (u1 & r1 & -> & H1 & H).
    apply has_shape_app_inv in H as (h1 & r2 & -> & G1 & H).
    apply has_shape_app_inv in H as (u2 & r3 & -> & H2 & H).
    apply has_shape_app_inv in H as (h2 & r4 & -> & G2 & H).
    apply has_shape_app_inv in H as (u3 & r5 & -> & H3 & H).
    apply has_shape_app_inv in H as (h3 & r6 & -> & G3 & H).
    apply has_shape_app_inv in H as (u4 & r7 & -> & H4 & H).
    apply has_shape_app_inv in H as (h4 & u5 & -> & G4 & H5).
    assert (forall h, has_shape [is_hyphen] h = true -> h = [45%N]) as Hy.
    { intros [|c [|c' h]] Hh; simpl in Hh; try discriminate.
      - rewrite andb_true_r in Hh. apply N.eqb_eq in Hh. now subst.
      - now rewrite andb_false_r in Hh. }
    rewrite (Hy _ G1), (Hy _ G2), (Hy _ G3), (Hy _ G4).
    exists u1, u2, u3, u4, u5. repeat split; assumption || reflexivity.
  - intros (u1 & u2 & u3 & u4 & u5 & -> & H1 & H2 & H3 & H4 & H5).
    apply has_shape_app; [assumption|].
    apply (has_shape_app [is_hyphen] _ [45%N]); [reflexivity|].
    apply has_shape_app; [assumption|].
    apply (has_shape_app [is_hyphen] _ [45%N]); [reflexivity|].
    apply has_shape_app; [assumption|].
    apply (has_shape_app [is_hyphen] _ [45%N]); [reflexivity|].
    apply has_shape_app; [assumption|].
    apply (has_shape_app [is_hyphen] _ [45%N]); [reflexivity|].
    assumption.
Qed.

Lemma m_atoms_gopen rs s acc g :
  m_atoms (GOpen :: rs) s acc g
  = m_atoms rs s acc {| g_start := length acc; g_text := [] |}.
Proof. reflexivity. Qed.

Lemma m_atoms_gclose rs s acc g :
  m_atoms (GClose :: rs) s acc g
  = m_atoms rs s acc {| g_start := g_start g; g_text := skipn (g_start g) acc |}.
Proof. reflexivity. Qed.

Lemma m_atoms_nil s acc g :
  m_atoms [] s acc g = Some {| group0 := acc; group1 := g_text g; after := s |}.
Proof. reflexivity. Qed.

Lemma REGEX_VALUE_atoms :
  REGEX_VALUE =
  [GOpen; Plus cls_word; Lit 47; GClose;
   Rep 8 cls_hex; Lit 45; Rep 4 cls_hex; Lit 45; Rep 4 cls_hex; Lit 45;
   Rep 4 cls_hex; Lit 45; Rep 12 cls_hex; Lit 34]%N.
Proof. reflexivity. Qed.

Lemma value_sound s acc g m :
  m_atoms REGEX_VALUE s acc g = Some m ->
  exists w u rest,
    s = w ++ 47%N :: u ++ 34%N :: rest
    /\ w <> [] /\ forallb cls_word w = true /\ is_uuid u = true.
Proof.
  rewrite REGEX_VALUE_atoms, m_atoms_gopen. intro H.
  apply m_atoms_plus_sound in H as (w & t & -> & Nw & Fw & H).
  apply m_lit_sound in H as (t1 & -> & H).
  rewrite m_atoms_gclose in H.
  apply m_atoms_rep_sound in H as (u1 & t2 & -> & H1 & H).
  apply m_lit_sound in H as (t3 & -> & H).
  apply m_atoms_rep_sound in H as (u2 & t4 & -> & H2 & H).
  apply m_lit_sound in H as (t5 & -> & H).
  apply m_atoms_rep_sound in H as (u3 & t6 & -> & H3 & H).
  apply m_lit_sound in H as (t7 & -> & H).
  apply m_atoms_rep_sound in H as (u4 & t8 & -> & H4 & H).
  apply m_lit_sound in H as (t9 & -> & H).
  apply m_atoms_rep_sound in H as (u5 & t10 & -> & H5 & H).
  apply m_lit_sound in H as (rest & -> & _).
  exists w, (u1 ++ 45%N :: u2 ++ 45%N :: u3 ++ 45%N :: u4 ++ 45%N :: u5), rest.
  split; [|split; [assumption|split; [assumption|]]].
  - repeat (rewrite <- app_assoc; cbn [app]). reflexivity.
  - apply uuid_parts. exists u1, u2, u3, u4, u5.
    repeat split; assumption || reflexivity.
Qed.

Lemma value_complete w u rest acc g :
  w <> [] -> forallb cls_word w = true -> is_uuid u = true ->
  m_atoms REGEX_VALUE (w ++ 47%N :: u ++ 34%N :: rest) acc g
  = Some {| group0 := acc ++ w ++ 47%N :: u ++ [34%N];
            group1 := w ++ [47%N];
            after := rest |}.
Proof.
  intros Nw Fw Hu.
  apply uuid_parts in Hu as (u1 & u2 & u3 & u4 & u5 & -> & H1 & H2 & H3 & H4 & H5).
  assert (w ++ 47%N :: (u1 ++ 45%N :: u2 ++ 45%N :: u3 ++ 45%N :: u4 ++ 45%N :: u5)
            ++ 34%N :: rest
          = w ++ 47%N :: u1 ++ 45%N :: u2 ++ 45%N :: u3 ++ 45%N :: u4 ++ 45%N :: u5
              ++ 34%N :: rest) as ->
      by (repeat (rewrite <- app_assoc; cbn [app]); reflexivity).
  rewrite REGEX_VALUE_atoms, m_atoms_gopen.
  apply m_atoms_plus_greedy; [assumption | assumption | reflexivity |].
  rewrite m_atoms_lit, m_atoms_gclose.
  rewrite m_atoms_rep_complete by assumption. rewrite m_atoms_lit.
  rewrite m_atoms_rep_complete by assumption. rewrite m_atoms_lit.
  rewrite m_atoms_rep_complete by assumption. rewrite m_atoms_lit.
  rewrite m_atoms_rep_complete by assumption. rewrite m_atoms_lit.
  rewrite m_atoms_rep_complete by assumption. rewrite m_atoms_lit.
  rewrite m_atoms_nil. cbn [g_text g_start]. f_equal. f_equal.
  - repeat (rewrite <- app_assoc; cbn [app]). reflexivity.
  - rewrite <- app_assoc. apply skipn_length_app.
Qed.

Lemma REGEX_TAIL_atoms :
  REGEX_TAIL =
  Star cls_space :: Lit 58%N :: Star cls_space :: Lit 34%N :: REGEX_VALUE.
Proof. reflexivity. Qed.

Lemma hit_sound tail m :
  hit tail = Some m ->
  exists sp1 sp2 w u rest,
    tail = sp1 ++ 58%N :: sp2 ++ 34%N :: w ++ 47%N :: u ++ 34%N :: rest
    /\ forallb cls_space sp1 = true /\ forallb cls_space sp2 = true
    /\ w <> [] /\ forallb cls_word w = true /\ is_uuid u = true.
Proof.
  unfold hit. rewrite REGEX_TAIL_atoms. intro H.
  apply m_atoms_star_sound in H as (sp1 & t1 & -> & F1 & H).
  apply m_lit_sound in H as (t2 & -> & H).
  apply m_atoms_star_sound in H as (sp2 & t3 & -> & F2 & H).
  apply m_lit_sound in H as (t4 & -> & H).
  apply value_sound in H as (w & u & rest & -> & Nw & Fw & Hu).
  exists sp1, sp2, w, u, rest.
  repeat split; assumption || reflexivity.
Qed.

Lemma hit_complete w u rest :
  w <> [] -> forallb cls_word w = true -> is_uuid u = true ->
  hit (58%N :: 32%N :: 34%N :: w ++ 47%N :: u ++ 34%N :: rest)
  = Some {| group0 := QREF ++ 58%N :: 32%N :: 34%N :: w ++ 47%N :: u ++ [34%N];
            group1 := w ++ [47%N];
            after := rest |}.
Proof.
  intros Nw Fw Hu. unfold hit. rewrite REGEX_TAIL_atoms.
  apply (m_atoms_star_greedy cls_space _ [] _ QREF); [reflexivity | reflexivity|].
  rewrite m_atoms_lit.
  apply (m_atoms_star_greedy cls_space _ [32%N]); [reflexivity | reflexivity|].
  rewrite m_atoms_lit.
  rewrite value_complete by assumption.
  repeat (rewrite <- app_assoc; cbn [app]). reflexivity.
Qed.

(** * Characters *)

Ltac nbool :=
  unfold cls_word, cls_hex, cls_space, is_hyphen, plain, not_quote, not_slash,
    is_ascii, is_digit in *;
  repeat match goal with
         | H : _ && _ = true |- _ => apply andb_true_iff in H as [? ?]
         | H : _ || _ = true |- _ => apply orb_true_iff in H as [?|?]
         | H : negb _ = true |- _ => apply negb_true_iff in H
         | H : (_ <=? _)%N = true |- _ => apply N.leb_le in H
         | H : (_ <? _)%N = true |- _ => apply N.ltb_lt in H
         | H : (_ =? _)%N = true |- _ => apply N.eqb_eq in H
         | H : (_ =? _)%N = false |- _ => apply N.eqb_neq in H
         | H : (_ <=? _)%N = false |- _ => apply N.leb_gt in H
         | H : (_ <? _)%N = false |- _ => apply N.ltb_ge in H
         end;
  repeat match goal with
         | |- _ && _ = true => apply andb_true_iff; split
         | |- negb _ = true => apply negb_true_iff
         | |- (_ <=? _)%N = true => apply N.leb_le
         | |- (_ <? _)%N = true => apply N.ltb_lt
         | |- (_ =? _)%N = true => apply N.eqb_eq
         | |- (_ =? _)%N = false => apply N.eqb_neq
         end;
  try lia.

Lemma word_plain c : cls_word c = true -> plain c = true.
Proof. intro H. nbool. Qed.

Lemma word_not_slash c : cls_word c = true -> not_slash c = true.
Proof. intro H. nbool. Qed.

Lemma hex_plain c : cls_hex c = true -> plain c = true.
Proof. intro H. nbool. Qed.

Lemma hex_not_slash c : cls_hex c = true -> not_slash c = true.
Proof. intro H. nbool. Qed.

Lemma hyphen_plain c : is_hyphen c = true -> plain c = true.
Proof. intro H. nbool. Qed.

Lemma hyphen_not_slash c : is_hyphen c = true -> not_slash c = true.
Proof. intro H. nbool. Qed.

Lemma plain_not_quote c : plain c = true -> not_quote c = true.
Proof. intro H. nbool. Qed.

Lemma forallb_impl {A} (p q : A -> bool) (l : list A) :
  (forall x, p x = true -> q x = true) -> forallb p l = true -> forallb q l = true.
Proof.
  intros I H. rewrite forallb_forall in *. intros x Hx. apply I. now apply H.
Qed.

Lemma has_shape_forallb (q : N -> bool) sh : forall s,
  (forall p, In p sh -> forall c, p c = true -> q c = true) ->
  has_shape sh s = true -> forallb q s = true.
Proof.
  induction sh as [|p sh IH]; intros [|c s] I H; simpl in *; try discriminate;
    [reflexivity|].
  apply andb_true_iff in H as [Hp H]. rewrite (I p (or_introl eq_refl) c Hp).
  simpl. apply IH; [|assumption].
  intros p' Hp' c' Hc'. apply (I p'); [now right | assumption].
Qed.

Lemma uuid_shape_In p : In p uuid_shape -> p = cls_hex \/ p = is_hyphen.
Proof.
  unfold uuid_shape. rewrite !in_app_iff. simpl.
  intros H. repeat match goal with
    | H : _ \/ _ |- _ => destruct H
    | H : In _ (repeat _ _) |- _ => apply repeat_spec in H
    end; auto; contradiction.
Qed.

Lemma uuid_plain u : is_uuid u = true -> forallb plain u = true.
Proof.
  apply has_shape_forallb. intros p Hp c Hc.
  destruct (uuid_shape_In _ Hp); subst; [now apply hex_plain | now apply hyphen_plain].
Qed.

Lemma uuid_not_slash u : is_uuid u = true -> forallb not_slash u = true.
Proof.
  apply has_shape_forallb. intros p Hp c Hc.
  destruct (uuid_shape_In _ Hp); subst;
    [now apply hex_not_slash | now apply hyphen_not_slash].
Qed.

(** * [json.dumps]: the text of a string *)

Lemma hexdigit_range x :
  (48 <= hexdigit (x mod 16) <= 57 \/ 97 <= hexdigit (x mod 16) <= 102)%N.
Proof.
  assert (x mod 16 < 16)%N as H by (apply N.mod_lt; lia).
  revert H. generalize (x mod 16)%N as d. intros d H.
  unfold hexdigit. destruct (d <? 10)%N eqn:E; nbool.
Qed.

Lemma hex4_chars (q : N -> bool) c :
  (forall x, (48 <= x <= 57 \/ 97 <= x <= 102)%N -> q x = true) ->
  forallb q (hex4 c) = true.
Proof.
  intro Hq. unfold hex4. simpl.
  rewrite !Hq; auto using hexdigit_range.
Qed.

Lemma encode_char_plain c : plain c = true -> encode_char c = [c].
Proof.
  intro H. unfold encode_char.
  repeat match goal with
         | |- context [(c =? ?n)%N] =>
             let E := fresh "E" in destruct (c =? n)%N eqn:E; [nbool|]
         end.
  assert ((32 <=? c)%N && (c <=? 126)%N = true) as -> by nbool.
  reflexivity.
Qed.

Lemma encode_body_plain s : forallb plain s = true -> encode_body s = s.
Proof.
  induction s as [|c s IH]; simpl; intro H; [reflexivity|].
  apply andb_true_iff in H as [Hc H]. unfold encode_body in *. simpl.
  rewrite encode_char_plain by assumption. simpl. now rewrite IH.
Qed.

Lemma encode_body_cons c s : encode_body (c :: s) = encode_char c ++ encode_body s.
Proof. reflexivity. Qed.

Lemma encode_body_app a b : encode_body (a ++ b) = encode_body a ++ encode_body b.
Proof. unfold encode_body. apply flat_map_app. Qed.

(** An encoded character starts with a backslash, or is the plain
    character itself; it never starts with a quote. *)
Lemma encode_char_head c :
  (exists r, encode_char c = 92%N :: r)
  \/ (encode_char c = [c] /\ plain c = true).
Proof.
  unfold encode_char.
  repeat match goal with
         | |- context [(c =? ?n)%N] =>
             let E := fresh "E" in destruct (c =? n)%N eqn:E; [left; eauto|]
         end.
  destruct ((32 <=? c)%N && (c <=? 126)%N) eqn:R.
  - right. split; [reflexivity|]. nbool.
  - destruct (c <? 65536)%N; left; cbn [app]; eexists; reflexivity.
Qed.

(** Only the quote is encoded with a quote in it. *)
Lemma encode_char_quote : encode_char 34%N = [92%N; 34%N].
Proof. reflexivity. Qed.

Lemma encode_char_no_quote c :
  c <> 34%N -> forallb not_quote (encode_char c) = true.
Proof.
  intro Hc. unfold encode_char.
  destruct (c =? 34)%N eqn:E0; [nbool|].
  repeat match goal with
         | |- context [(c =? ?n)%N] =>
             let E := fresh "E" in destruct (c =? n)%N eqn:E; [reflexivity|]
         end.
  destruct ((32 <=? c)%N && (c <=? 126)%N) eqn:R.
  - simpl. unfold not_quote. rewrite E0. reflexivity.
  - assert (forall x, forallb not_quote (92%N :: 117%N :: hex4 x) = true) as Hx.
    { intro x. simpl. apply hex4_chars. intros y Hy. nbool. }
    destruct (c <? 65536)%N; [apply Hx|].
    rewrite forallb_app. now rewrite !Hx.
Qed.

Lemma encode_char_ascii c : forallb is_ascii (encode_char c) = true.
Proof.
  unfold encode_char.
  repeat match goal with
         | |- context [(c =? ?n)%N] =>
             let E := fresh "E" in destruct (c =? n)%N eqn:E; [reflexivity|]
         end.
  destruct ((32 <=? c)%N && (c <=? 126)%N) eqn:R.
  - simpl. rewrite andb_true_r. nbool.
  - assert (forall x, forallb is_ascii (92%N :: 117%N :: hex4 x) = true) as Hx.
    { intro x. simpl. apply hex4_chars. intros y Hy. nbool. }
    destruct (c <? 65536)%N; [apply Hx|].
    rewrite forallb_app. now rewrite !Hx.
Qed.

(** A plain prefix of the text of a string, up to a quote, is the whole
    string. *)
Lemma body_prefix_plain (pl : pystr) : forall sv r r',
  forallb plain pl = true ->
  encode_body sv ++ 34%N :: r = pl ++ 34%N :: r' ->
  sv = pl /\ r = r'.
Proof.
  induction pl as [|p pl IH]; intros sv r r' Hp E.
  - destruct sv as [|c sv].
    + simpl in E. injection E as <-. auto.
    + rewrite encode_body_cons in E. simpl in E.
      destruct (encode_char_head c) as [[x Hx]|[Hx _]]; rewrite Hx in E;
        simpl in E; injection E as E1 E2.
      * discriminate.
      * subst c. discriminate.
        all: fail.
  - simpl in Hp. apply andb_true_iff in Hp as [Hp1 Hp].
    destruct sv as [|c sv].
    + simpl in E. injection E as E1 E2. subst p. discriminate.
    + rewrite encode_body_cons in E.
      destruct (encode_char_head c) as [[x Hx]|[Hx Pc]]; rewrite Hx in E;
        simpl in E; injection E as E1 E2.
      * subst p. discriminate.
      * subst p. destruct (IH _ _ _ Hp E2) as [-> ->]. auto.
Qed.

(** * [str.replace] *)

Lemma startswith_app p t : startswith p (p ++ t) = true.
Proof. induction p as [|c p IH]; simpl; [reflexivity|]. now rewrite N.eqb_refl. Qed.

Lemma startswith_inv p : forall s, startswith p s = true -> exists t, s = p ++ t.
Proof.
  induction p as [|c p IH]; intros s H; simpl in *.
  - now exists s.
  - destruct s as [|x s]; [discriminate|].
    apply andb_true_iff in H as [E H]. apply N.eqb_eq in E. subst x.
    destruct (IH _ H) as [t ->]. now exists t.
Qed.

Lemma first_slash (a : pystr) : forall b t t',
  forallb not_slash a = true -> forallb not_slash b = true ->
  a ++ 47%N :: t = b ++ 47%N :: t' -> a = b /\ t = t'.
Proof.
  induction a as [|x a IH]; intros [|y b] t t' Ha Hb E; simpl in *.
  - injection E as <-. auto.
  - injection E as <- _. apply andb_true_iff in Hb as [Hb _]. discriminate.
  - injection E as -> _. apply andb_true_iff in Ha as [Ha _]. discriminate.
  - injection E as <- E. apply andb_true_iff in Ha as [_ Ha].
    apply andb_true_iff in Hb as [_ Hb].
    destruct (IH _ _ _ Ha Hb E) as [-> ->]. auto.
Qed.

Lemma replace_skip old new (a : pystr) : forall s,
  replace_scan old new (length a) (a ++ s) = replace_scan old new 0 s.
Proof. induction a as [|c a IH]; intro s; simpl; [reflexivity | apply IH]. Qed.

Lemma replace_no_slash (w new : pystr) (s : pystr) :
  forallb not_slash s = true ->
  replace_scan (w ++ [47%N]) new 0 s = s.
Proof.
  induction s as [|c s IH]; intro H.
  - simpl. now destruct w.
  - simpl in H. apply andb_true_iff in H as [Hc H].
    assert (startswith (w ++ [47%N]) (c :: s) = false) as Hs.
    { destruct (startswith (w ++ [47%N]) (c :: s)) eqn:E; [|reflexivity].
      apply startswith_inv in E as [t E].
      assert (forallb not_slash (c :: s) = true) as F by (simpl; now rewrite Hc).
      rewrite E, <- app_assoc, forallb_app in F. simpl in F.
      apply andb_true_iff in F as [_ F]. discriminate. }
    cbn [replace_scan]. destruct (w ++ [47%N]) as [|o old'] eqn:Eo.
    + now destruct w.
    + rewrite Hs. now rewrite IH.
Qed.

Lemma replace_first (w new pre tl : pystr) :
  w <> [] -> forallb not_slash w = true -> forallb not_slash pre = true ->
  replace_scan (w ++ [47%N]) new 0 (pre ++ w ++ 47%N :: tl)
  = pre ++ new ++ replace_scan (w ++ [47%N]) new 0 tl.
Proof.
  intros Nw Fw Fp. induction pre as [|c pre IH].
  - destruct w as [|x w]; [contradiction|]. cbn [app replace_scan].
    pose proof (startswith_app (x :: w ++ [47%N]) tl) as S.
    cbn [app] in S. rewrite <- app_assoc in S. cbn [app] in S. rewrite S.
    f_equal. rewrite <- (replace_skip (x :: w ++ [47%N]) new (w ++ [47%N]) tl).
    now rewrite <- app_assoc.
  - simpl in Fp. apply andb_true_iff in Fp as [Hc Fp].
    assert (startswith (w ++ [47%N]) ((c :: pre) ++ w ++ 47%N :: tl) = false) as Hs.
    { destruct (startswith (w ++ [47%N]) ((c :: pre) ++ w ++ 47%N :: tl)) eqn:E;
        [|reflexivity].
      apply startswith_inv in E as [t E]. rewrite <- app_assoc in E.
      cbn [app] in E. rewrite app_comm_cons, app_assoc in E.
      apply first_slash in E as [E _].
      - apply (f_equal (@length N)) in E. rewrite length_app in E. simpl in E. lia.
      - rewrite forallb_app. simpl. now rewrite Hc, Fp, Fw.
      - assumption. }
    cbn [app replace_scan]. cbn [app] in Hs.
    destruct (w ++ [47%N]) as [|o old'] eqn:Eo; [now destruct w|].
    rewrite Hs. now rewrite IH.
Qed.

(** The replacement of a match of a relative reference. *)
Lemma urnreplc_match (w u rest : pystr) :
  w <> [] -> forallb cls_word w = true -> is_uuid u = true ->
  urnreplc {| group0 := QREF ++ 58%N :: 32%N :: 34%N :: w ++ 47%N :: u ++ [34%N];
              group1 := w ++ [47%N];
              after := rest |}
  = QREF ++ 58%N :: 32%N :: 34%N :: URN ++ u ++ [34%N].
Proof.
  intros Nw Fw Hu. unfold urnreplc, py_replace. cbn [group0 group1].
  change (QREF ++ 58%N :: 32%N :: 34%N :: w ++ 47%N :: u ++ [34%N])
    with ((QREF ++ [58; 32; 34]%N) ++ w ++ 47%N :: u ++ [34%N]).
  rewrite replace_first.
  - rewrite replace_no_slash.
    + now rewrite <- !app_assoc.
    + rewrite forallb_app. rewrite uuid_not_slash by assumption. reflexivity.
  - assumption.
  - apply (forallb_impl cls_word); [apply word_not_slash | assumption].
  - reflexivity.
Qed.

(** * The scan of [re.sub] *)

Lemma scan_nil : scan [] = [].
Proof. reflexivity. Qed.

Lemma scan_skip (a : pystr) : forall s,
  sub_scan REFERENCE_REGEX urnreplc (length a) (a ++ s) = scan s.
Proof.
  induction a as [|c a IH]; intro s; [reflexivity|]. simpl length. cbn [app sub_scan].
  apply IH.
Qed.

Lemma scan_miss c s :
  re_match REFERENCE_REGEX (c :: s) = None -> scan (c :: s) = c :: scan s.
Proof. intro H. unfold scan. cbn [sub_scan]. now rewrite H. Qed.

Lemma re_match_quote c s m :
  re_match REFERENCE_REGEX (c :: s) = Some m -> c = 34%N.
Proof.
  intro H. apply re_match_QREF in H as (tail & E & _). now injection E.
Qed.

Lemma scan_not_quote c s : not_quote c = true -> scan (c :: s) = c :: scan s.
Proof.
  intro H. apply scan_miss.
  destruct (re_match REFERENCE_REGEX (c :: s)) eqn:E; [|reflexivity].
  apply re_match_quote in E. subst c. discriminate.
Qed.

Lemma scan_quiet (pre : pystr) : forall t,
  forallb not_quote pre = true -> scan (pre ++ t) = pre ++ scan t.
Proof.
  induction pre as [|c pre IH]; intros t H; [reflexivity|].
  simpl in H. apply andb_true_iff in H as [Hc H].
  cbn [app]. rewrite scan_not_quote by assumption. now rewrite IH.
Qed.

Lemma scan_match s m :
  re_match REFERENCE_REGEX s = Some m ->
  s = group0 m ++ after m -> group0 m <> [] ->
  scan s = urnreplc m ++ scan (after m).
Proof.
  intros H E N. destruct (group0 m) as [|x g] eqn:G; [contradiction|].
  subst s. cbn [app] in *. unfold scan. cbn [sub_scan]. rewrite H, G.
  cbn [length]. f_equal. apply scan_skip.
Qed.

Lemma scan_hit tail m :
  hit tail = Some m ->
  QREF ++ tail = group0 m ++ after m -> group0 m <> [] ->
  scan (QREF ++ tail) = urnreplc m ++ scan (after m).
Proof.
  intros H E N. rewrite <- re_match_hit in H. now apply scan_match.
Qed.

(** ** Quoted strings *)

Lemma match_quoted s tail m :
  re_match REFERENCE_REGEX (34%N :: encode_body s ++ 34%N :: tail) = Some m ->
  s = REF /\ hit tail = Some m.
Proof.
  intro H. apply re_match_QREF in H as (t & E & H).
  change (QREF ++ t) with (34%N :: REF ++ 34%N :: t) in E. injection E as E.
  apply (body_prefix_plain REF s tail t) in E as [-> ->]; [auto | reflexivity].
Qed.

Lemma body_scan_quiet tail (s : pystr) :
  hit tail = None \/ ends_quote_ref s = false ->
  re_match REFERENCE_REGEX (34%N :: tail) = None ->
  scan (encode_body s ++ 34%N :: tail) = encode_body s ++ 34%N :: scan tail.
Proof.
  intros C Hq. induction s as [|c s IH].
  - simpl. now apply scan_miss.
  - rewrite encode_body_cons, <- !app_assoc.
    assert (hit tail = None \/ ends_quote_ref s = false) as C'.
    { destruct C as [C|C]; [now left|]. right. simpl in C.
      now apply orb_false_iff in C as [_ C]. }
    destruct (c =? 34)%N eqn:E.
    + apply N.eqb_eq in E. subst c. rewrite encode_char_quote. cbn [app].
      rewrite scan_not_quote by reflexivity. rewrite scan_miss; [now rewrite (IH C')|].
      destruct (re_match REFERENCE_REGEX (34%N :: encode_body s ++ 34%N :: tail))
               eqn:M; [|reflexivity].
      apply match_quoted in M as [-> M]. destruct C as [C|C]; [congruence|].
      vm_compute in C. discriminate.
    + apply N.eqb_neq in E. rewrite scan_quiet by now apply encode_char_no_quote.
      now rewrite (IH C').
Qed.

Lemma quoted_scan_quiet tail (s : pystr) :
  hit tail = None \/ is_ref_key s = false ->
  re_match REFERENCE_REGEX (34%N :: tail) = None ->
  scan (encode_str s ++ tail) = encode_str s ++ scan tail.
Proof.
  intros C Hq. unfold encode_str. cbn [app]. rewrite <- !app_assoc. cbn [app].
  rewrite scan_miss.
  - rewrite body_scan_quiet; auto.
    destruct C as [C|C]; [now left|]. right. unfold is_ref_key in C.
    now apply orb_false_iff in C as [_ C].
  - destruct (re_match REFERENCE_REGEX (34%N :: encode_body s ++ 34%N :: tail))
             eqn:M; [|reflexivity].
    apply match_quoted in M as [-> M]. destruct C as [C|C]; [congruence|].
    vm_compute in C. discriminate.
Qed.

Lemma body_scan_to_candidate tail (s : pystr) :
  ends_quote_ref s = true ->
  exists s0, s = s0 ++ 34%N :: REF
             /\ scan (encode_body s ++ 34%N :: tail)
                = encode_body s0 ++ 92%N :: scan (QREF ++ tail).
Proof.
  induction s as [|c s IH]; intro H; [discriminate|].
  cbn [ends_quote_ref] in H.
  destruct ((c =? 34)%N && str_eqb s REF) eqn:E.
  - apply andb_true_iff in E as [E1 E2]. apply N.eqb_eq in E1.
    apply str_eqb_eq in E2. subst. exists []. split; [reflexivity|].
    cbn [app encode_body flat_map]. rewrite encode_char_quote.
    change (([92%N; 34%N] ++ flat_map encode_char REF) ++ 34%N :: tail)
      with (92%N :: QREF ++ tail).
    now rewrite scan_not_quote.
  - simpl in H. destruct (IH H) as (s0 & -> & Hs).
    exists (c :: s0). split; [reflexivity|].
    rewrite !encode_body_cons, <- !app_assoc.
    destruct (c =? 34)%N eqn:Ec.
    + apply N.eqb_eq in Ec. subst c. rewrite encode_char_quote. cbn [app].
      rewrite scan_not_quote by reflexivity. rewrite scan_miss; [now rewrite Hs|].
      destruct (re_match REFERENCE_REGEX
                  (34%N :: encode_body (s0 ++ 34%N :: REF) ++ 34%N :: tail))
               eqn:M; [|reflexivity].
      apply match_quoted in M as [M _]. simpl in E.
      apply str_eqb_neq in E. contradiction.
    + apply N.eqb_neq in Ec. rewrite scan_quiet by now apply encode_char_no_quote.
      now rewrite Hs.
Qed.

Lemma quoted_scan_to_candidate tail (k : pystr) :
  is_ref_key k = true ->
  exists pre, encode_str k = pre ++ QREF
              /\ scan (encode_str k ++ tail) = pre ++ scan (QREF ++ tail).
Proof.
  unfold is_ref_key. intro H. destruct (str_eqb k REF) eqn:E.
  - apply str_eqb_eq in E. subst.
    assert (encode_str REF = QREF) as -> by (vm_compute; reflexivity).
    exists []. split; cbn [app]; reflexivity.
  - simpl in H. destruct (body_scan_to_candidate tail k H) as (s0 & -> & Hs).
    exists (34%N :: encode_body s0 ++ [92%N]). split.
    + unfold encode_str. rewrite encode_body_app. cbn [app].
      rewrite <- !app_assoc. reflexivity.
    + unfold encode_str. cbn [app]. rewrite <- !app_assoc. cbn [app].
      rewrite scan_miss; [now rewrite Hs|].
      destruct (re_match REFERENCE_REGEX
                  (34%N :: encode_body (s0 ++ 34%N :: REF) ++ 34%N :: tail))
               eqn:M; [|reflexivity].
      apply match_quoted in M as [M _]. apply str_eqb_neq in E. contradiction.
Qed.

(** * The text of a document *)

Lemma dumps_arr_nil : dumps (JArr []) = [91; 93]%N.
Proof. reflexivity. Qed.

Lemma dumps_arr_cons x l :
  dumps (JArr (x :: l)) = 91%N :: dumps x ++ arr_more l ++ [93%N].
Proof. cbn [dumps]. f_equal. rewrite <- app_assoc. reflexivity. Qed.

Lemma dumps_obj_nil : dumps (JObj []) = [123; 125]%N.
Proof. reflexivity. Qed.

Lemma dumps_obj_cons kv kvs :
  dumps (JObj (kv :: kvs)) = 123%N :: member_text kv ++ obj_more kvs ++ [125%N].
Proof.
  destruct kv as [k v]. cbn [dumps]. unfold member_text. cbn [fst snd].
  f_equal. rewrite <- !app_assoc. do 4 f_equal.
  induction kvs as [|[k' v'] kvs IH]; [reflexivity|].
  unfold obj_more, member_text. cbn [flat_map fst snd].
  rewrite <- !app_assoc. now rewrite IH.
Qed.

Lemma uint_chars_digits u : forallb is_digit (uint_chars u) = true.
Proof. induction u; simpl; auto. Qed.

Lemma to_uint_nonnil n : N.to_uint n <> Decimal.Nil.
Proof.
  rewrite <- (DecimalN.Unsigned.of_to n) at 1.
  rewrite DecimalN.Unsigned.to_of. apply unorm_nonnil.
Qed.

Lemma int_repr_chars (q : N -> bool) z :
  q 45%N = true -> (forall c, is_digit c = true -> q c = true) ->
  forallb q (int_repr z) = true.
Proof.
  intros Hm Hd. unfold int_repr.
  destruct (z <? 0)%Z; simpl; rewrite ?Hm; simpl;
    apply (forallb_impl is_digit); auto using uint_chars_digits.
Qed.

Lemma digit_not_quote c : is_digit c = true -> not_quote c = true.
Proof. intro H. nbool. Qed.

Lemma digit_ascii c : is_digit c = true -> is_ascii c = true.
Proof. intro H. nbool. Qed.

Lemma uint_chars_nonnil u : u <> Decimal.Nil -> uint_chars u <> [].
Proof. destruct u; simpl; congruence. Qed.

Lemma int_repr_nonnil z : int_repr z <> [].
Proof.
  unfold int_repr. destruct (z <? 0)%Z; [discriminate|].
  apply uint_chars_nonnil, to_uint_nonnil.
Qed.

(** The text of a value does not start with a space, and starts with
    a quote only when the value is a string. *)
Lemma dumps_first v :
  exists c r, dumps v = c :: r /\ cls_space c = false
              /\ ((exists s, v = JStr s) \/ c <> 34%N).
Proof.
  destruct v as [|[]|z|s|[|x l]|[|[k v] kvs]];
    try (eexists; eexists; split; [reflexivity | split; [reflexivity|right; discriminate]]).
  - pose proof (int_repr_nonnil z) as Nz.
    assert (forallb (fun c => negb (cls_space c) && not_quote c) (int_repr z) = true) as Q.
    { apply int_repr_chars; [reflexivity|]. intros c Hc.
      rewrite (digit_not_quote c Hc), andb_true_r.
      destruct (cls_space c) eqn:E; [|reflexivity]. nbool. }
    simpl. destruct (int_repr z) as [|c r]; [contradiction|].
    exists c, r. split; [reflexivity|]. simpl in Q.
    apply andb_true_iff in Q as [Q _]. apply andb_true_iff in Q as [Q1 Q2].
    apply negb_true_iff in Q1. split; [assumption|]. right.
    intro E. subst c. discriminate.
  - eexists; eexists; split; [reflexivity | split; [reflexivity|left; eauto]].
Qed.

(** * The substitution on the text of a document *)

Lemma delim_no_candidate rest :
  delim rest -> re_match REFERENCE_REGEX (34%N :: rest) = None.
Proof.
  intro D. destruct (re_match REFERENCE_REGEX (34%N :: rest)) eqn:M; [|reflexivity].
  apply re_match_QREF in M as (t & E & _).
  change (QREF ++ t) with (34%N :: 114%N :: skipn 1 REF ++ 34%N :: t) in E.
  injection E as E. subst rest. simpl in D. destruct D as [D|[D|D]]; discriminate.
Qed.

Lemma delim_no_hit rest : delim rest -> hit rest = None.
Proof.
  intro D. destruct (hit rest) as [m|] eqn:M; [|reflexivity].
  apply hit_sound in M as (sp1 & sp2 & w & u & r' & -> & F1 & _).
  destruct sp1 as [|c sp1]; simpl in D.
  - destruct D as [D|[D|D]]; discriminate.
  - simpl in F1. apply andb_true_iff in F1 as [F1 _].
    destruct D as [D|[D|D]]; subst c; discriminate.
Qed.

Lemma colon_no_candidate t :
  re_match REFERENCE_REGEX (34%N :: 58%N :: t) = None.
Proof.
  destruct (re_match REFERENCE_REGEX (34%N :: 58%N :: t)) eqn:M; [|reflexivity].
  apply re_match_QREF in M as (t' & E & _).
  change (QREF ++ t') with (34%N :: 114%N :: skipn 1 REF ++ 34%N :: t') in E.
  discriminate.
Qed.

(** After [": "], a match needs a string of the shape of a relative
    reference. *)
Lemma hit_member_value c x m :
  cls_space c = false ->
  hit (58%N :: 32%N :: c :: x) = Some m ->
  exists w u r,
    c :: x = 34%N :: w ++ 47%N :: u ++ 34%N :: r
    /\ w <> [] /\ forallb cls_word w = true /\ is_uuid u = true.
Proof.
  intros Hc H.
  apply hit_sound in H as (sp1 & sp2 & w & u & r & E & F1 & F2 & Nw & Fw & Hu).
  destruct sp1 as [|c1 sp1]; cbn [app] in E.
  - injection E as E. destruct sp2 as [|c2 sp2]; cbn [app] in E; [discriminate|].
    injection E as _ E. destruct sp2 as [|c3 sp2]; cbn [app] in E.
    + exists w, u, r. auto.
    + injection E as <- _. simpl in F2. rewrite Hc in F2.
      rewrite andb_false_r in F2. discriminate.
  - injection E as <- _. discriminate.
Qed.

Lemma normalize_member_quiet k v :
  is_ref_key k = false \/ (forall s, v <> JStr s)
  \/ (exists s, v = JStr s /\ rel_ref s = None) ->
  normalize_member k v = v.
Proof.
  intros [H|[H|(s & -> & H)]]; unfold normalize_member.
  - rewrite H. now destruct v.
  - destruct v; try reflexivity. exfalso. now apply (H s).
  - rewrite H. now destruct (is_ref_key k).
Qed.

Lemma normalize_not_str v : (forall s, v <> JStr s) -> forall s, normalize v <> JStr s.
Proof. intros H s. destruct v; simpl; try discriminate. exfalso. now apply (H s0). Qed.

Lemma member_text_app k v rest :
  member_text (k, v) ++ rest = encode_str k ++ 58%N :: 32%N :: dumps v ++ rest.
Proof. unfold member_text. cbn [fst snd]. rewrite <- !app_assoc. reflexivity. Qed.

Lemma scan_member_quiet k v rest :
  (forall rest, delim rest -> scan (dumps v ++ rest) = dumps (normalize v) ++ scan rest) ->
  delim rest ->
  hit (58%N :: 32%N :: dumps v ++ rest) = None \/ is_ref_key k = false ->
  scan (member_text (k, v) ++ rest)
  = member_text (k, normalize v) ++ scan rest.
Proof.
  intros IH D C. rewrite !member_text_app.
  rewrite quoted_scan_quiet; [|assumption|apply colon_no_candidate].
  do 2 rewrite scan_not_quote by reflexivity.
  now rewrite IH.
Qed.

Lemma rel_ref_plain s u :
  rel_ref s = Some u -> forallb plain s = true /\ forallb plain (URN ++ u) = true.
Proof.
  intro H. apply rel_ref_elim in H as (w & -> & Nw & Fw & Hu).
  pose proof (uuid_plain _ Hu) as Pu.
  split.
  - rewrite forallb_app. simpl. rewrite Pu.
    rewrite (forallb_impl cls_word plain w word_plain Fw). reflexivity.
  - rewrite forallb_app. now rewrite Pu.
Qed.

Lemma scan_member_fire k s u rest :
  is_ref_key k = true -> rel_ref s = Some u ->
  scan (member_text (k, JStr s) ++ rest)
  = member_text (k, JStr (URN ++ u)) ++ scan rest.
Proof.
  intros K R. destruct (rel_ref_plain _ _ R) as [Ps Pu].
  apply rel_ref_elim in R as (w & -> & Nw & Fw & Hu).
  rewrite !member_text_app. cbn [dumps]. unfold encode_str at 2 4.
  rewrite !encode_body_plain by assumption.
  set (tail := 58%N :: 32%N :: (34%N :: (w ++ 47%N :: u) ++ [34%N]) ++ rest).
  destruct (quoted_scan_to_candidate tail k K) as (pre & Ek & ->).
  rewrite Ek.
  assert (tail = 58%N :: 32%N :: 34%N :: w ++ 47%N :: u ++ 34%N :: rest) as Et.
  { unfold tail. cbn [app]. now rewrite <- !app_assoc. }
  rewrite Et.
  rewrite (scan_hit _ _ (hit_complete w u rest Nw Fw Hu)).
  - cbn [after]. rewrite urnreplc_match by assumption.
    repeat (rewrite <- app_assoc; cbn [app]). reflexivity.
  - cbn [group0 after]. repeat (rewrite <- app_assoc; cbn [app]). reflexivity.
  - cbn [group0]. discriminate.
Qed.

Lemma scan_member k v rest :
  (forall rest, delim rest -> scan (dumps v ++ rest) = dumps (normalize v) ++ scan rest) ->
  delim rest ->
  scan (member_text (k, v) ++ rest)
  = member_text (normalize_kv (k, v)) ++ scan rest.
Proof.
  intros IH D. unfold normalize_kv. cbn [fst snd].
  destruct (is_ref_key k) eqn:K.
  - destruct (dumps_first v) as (c & r & Ev & Sc & Hc).
    assert (forall m, hit (58%N :: 32%N :: dumps v ++ rest) = Some m ->
                      exists s, v = JStr s /\ rel_ref s <> None) as Hit.
    { intros m Hm. rewrite Ev in Hm. cbn [app] in Hm.
      apply hit_member_value in Hm as (w & u & r' & E & Nw & Fw & Hu);
        [|assumption].
      injection E as -> E.
      destruct Hc as [[s ->]|Hc]; [|congruence].
      exists s. split; [reflexivity|].
      cbn [dumps] in Ev. unfold encode_str in Ev. injection Ev as <-.
      rewrite <- app_assoc in E. cbn [app] in E.
      change (w ++ 47%N :: u ++ 34%N :: r') with (w ++ (47%N :: u) ++ 34%N :: r') in E.
      rewrite app_assoc in E.
      apply body_prefix_plain in E as [-> _].
      - rewrite rel_ref_intro by assumption. discriminate.
      - rewrite forallb_app. simpl.
        rewrite (forallb_impl cls_word plain w word_plain Fw).
        now rewrite (uuid_plain _ Hu). }
    assert ((forall s, v <> JStr s) ->
            scan (member_text (k, v) ++ rest)
            = member_text (k, normalize_member k (normalize v)) ++ scan rest) as NS.
    { intro Hn.
      rewrite normalize_member_quiet by (right; left; now apply normalize_not_str).
      apply scan_member_quiet; auto. left.
      destruct (hit (58%N :: 32%N :: dumps v ++ rest)) eqn:Hm; [|reflexivity].
      destruct (Hit _ eq_refl) as (s & Es & _). exfalso. now apply (Hn s). }
    destruct v as [| | |s| |]; try (apply NS; discriminate).
    cbn [normalize]. destruct (rel_ref s) as [u|] eqn:R.
    + unfold normalize_member. rewrite K, R. now apply scan_member_fire.
    + rewrite normalize_member_quiet by (right; right; eauto).
      apply (scan_member_quiet k (JStr s)); auto. left.
      destruct (hit (58%N :: 32%N :: dumps (JStr s) ++ rest)) eqn:Hm; [|reflexivity].
      destruct (Hit _ eq_refl) as (s' & Es & Hs). injection Es as <-. contradiction.
  - rewrite normalize_member_quiet by now left.
    apply scan_member_quiet; auto.
Qed.

Lemma arr_more_delim l rest : delim (arr_more l ++ 93%N :: rest).
Proof. destruct l; simpl; auto. Qed.

Lemma obj_more_delim kvs rest : delim (obj_more kvs ++ 125%N :: rest).
Proof. destruct kvs; simpl; auto. Qed.

Lemma scan_arr_more l rest :
  Forall (fun v => forall rest, delim rest ->
                     scan (dumps v ++ rest) = dumps (normalize v) ++ scan rest) l ->
  scan (arr_more l ++ 93%N :: rest)
  = arr_more (map normalize l) ++ 93%N :: scan rest.
Proof.
  induction 1 as [|y l Hy Hl IH].
  - simpl. now rewrite scan_not_quote.
  - unfold arr_more. cbn [map flat_map]. fold (arr_more l).
    fold (arr_more (map normalize l)). rewrite <- !app_assoc.
    rewrite (scan_quiet (str ", ")) by reflexivity.
    rewrite Hy by apply arr_more_delim. now rewrite IH.
Qed.

Lemma scan_obj_more kvs rest :
  Forall (fun kv => forall rest, delim rest ->
                      scan (dumps (snd kv) ++ rest)
                      = dumps (normalize (snd kv)) ++ scan rest) kvs ->
  scan (obj_more kvs ++ 125%N :: rest)
  = obj_more (map normalize_kv kvs) ++ 125%N :: scan rest.
Proof.
  induction 1 as [|[k v] kvs Hy Hl IH].
  - simpl. now rewrite scan_not_quote.
  - unfold obj_more. cbn [map flat_map]. fold (obj_more kvs).
    fold (obj_more (map normalize_kv kvs)). rewrite <- !app_assoc.
    rewrite (scan_quiet (str ", ")) by reflexivity.
    rewrite scan_member; [|exact Hy|apply obj_more_delim]. now rewrite IH.
Qed.

Lemma normalize_obj kvs : normalize (JObj kvs) = JObj (map normalize_kv kvs).
Proof. reflexivity. Qed.

(** The substitution on the text of a document gives the text of the
    normalized document. *)
Lemma scan_dumps j : forall rest,
  delim rest -> scan (dumps j ++ rest) = dumps (normalize j) ++ scan rest.
Proof.
  induction j as [| b | z | s | l IH | kvs IH] using json_induction; intros rest D.
  - now rewrite scan_quiet.
  - rewrite scan_quiet; [reflexivity | now destruct b].
  - rewrite scan_quiet; [reflexivity|].
    apply int_repr_chars; [reflexivity | apply digit_not_quote].
  - cbn [dumps normalize]. apply quoted_scan_quiet.
    + left. now apply delim_no_hit.
    + now apply delim_no_candidate.
  - destruct l as [|x l].
    + now rewrite scan_quiet.
    + cbn [normalize map]. rewrite !dumps_arr_cons. cbn [app].
      rewrite scan_not_quote by reflexivity. rewrite <- !app_assoc. cbn [app].
      apply Forall_cons_iff in IH as [Hx Hl].
      rewrite Hx by apply arr_more_delim. now rewrite scan_arr_more.
  - destruct kvs as [|[k v] kvs].
    + now rewrite scan_quiet.
    + rewrite normalize_obj. cbn [map]. rewrite !dumps_obj_cons. cbn [app].
      rewrite scan_not_quote by reflexivity. rewrite <- !app_assoc. cbn [app].
      apply Forall_cons_iff in IH as [Hx Hl].
      rewrite scan_member; [|exact Hx|apply obj_more_delim].
      now rewrite scan_obj_more.
Qed.

Lemma dumps_ascii j : forallb is_ascii (dumps j) = true.
Proof.
  induction j as [| b | z | s | l IH | kvs IH] using json_induction.
  - reflexivity.
  - now destruct b.
  - apply int_repr_chars; [reflexivity | apply digit_ascii].
  - cbn [dumps]. unfold encode_str. cbn [forallb]. rewrite forallb_app.
    cbn [forallb]. rewrite andb_true_r. cbn.
    unfold encode_body. induction s as [|c s IHs]; [reflexivity|].
    cbn [flat_map]. rewrite forallb_app, encode_char_ascii. exact IHs.
  - destruct l as [|x l]; [reflexivity|]. rewrite dumps_arr_cons.
    apply Forall_cons_iff in IH as [Hx Hl].
    cbn [forallb]. rewrite !forallb_app, Hx. cbn. rewrite andb_true_r.
    induction Hl as [|y l Hy Hl IHl]; [reflexivity|].
    unfold arr_more. cbn [flat_map]. rewrite !forallb_app, Hy. exact IHl.
  - destruct kvs as [|[k v] kvs]; [reflexivity|]. rewrite dumps_obj_cons.
    assert (forall k, forallb is_ascii (encode_str k) = true) as Hk.
    { intro k0. unfold encode_str. cbn [forallb]. rewrite forallb_app.
      cbn [forallb]. rewrite andb_true_r. cbn.
      unfold encode_body. induction k0 as [|c s IHs]; [reflexivity|].
      cbn [flat_map]. rewrite forallb_app, encode_char_ascii. exact IHs. }
    apply Forall_cons_iff in IH as [Hx Hl]. cbn [snd] in Hx.
    cbn [forallb]. unfold member_text at 1. cbn [fst snd].
    rewrite !forallb_app, Hk, Hx. cbn. rewrite andb_true_r.
    induction Hl as [|[k' v'] l Hy Hl IHl]; [reflexivity|].
    unfold obj_more, member_text. cbn [flat_map fst snd]. cbn [snd] in Hy.
    rewrite !forallb_app, Hk, Hy. exact IHl.
Qed.

(** The text after [re.sub]. *)
Lemma re_sub_dumps j :
  re_sub REFERENCE_REGEX urnreplc (dumps j) = Ok (dumps (normalize j)).
Proof.
  unfold re_sub. rewrite dumps_ascii. f_equal.
  pose proof (scan_dumps j [] I) as H. rewrite !List.app_nil_r in H. exact H.
Qed.

(** * [json.loads] reads back what [json.dumps] writes *)

(** ** Hexadecimal escapes and surrogate pairs *)

Lemma hexval_hexdigit d : (d < 16)%N -> hexval (hexdigit d) = Some d.
Proof.
  intro H. unfold hexdigit, hexval.
  destruct (d <? 10)%N eqn:E.
  - apply N.ltb_lt in E.
    assert ((48 <=? 48 + d)%N && (48 + d <=? 57)%N = true) as -> by nbool.
    f_equal. lia.
  - apply N.ltb_ge in E.
    assert ((48 <=? 87 + d)%N && (87 + d <=? 57)%N = false) as ->.
    { apply andb_false_iff. right. apply N.leb_gt. lia. }
    assert ((97 <=? 87 + d)%N && (87 + d <=? 102)%N = true) as -> by nbool.
    f_equal. lia.
Qed.

Lemma hex_digits_value (c : N) : (c < 65536)%N ->
  ((((c / 4096 mod 16) * 16 + (c / 256 mod 16)) * 16 + (c / 16 mod 16)) * 16
   + c mod 16 = c)%N.
Proof.
  intro H.
  pose proof (N.div_mod c 16 ltac:(lia)) as E1.
  pose proof (N.div_mod (c / 16) 16 ltac:(lia)) as E2.
  pose proof (N.div_mod (c / 16 / 16) 16 ltac:(lia)) as E3.
  rewrite !N.Div0.div_div in *. change (16 * 16)%N with 256%N in *.
  change (256 * 16)%N with 4096%N in *.
  assert (c / 4096 < 16)%N as B by (apply N.Div0.div_lt_upper_bound; lia).
  rewrite (N.mod_small (c / 4096) 16) by assumption.
  revert E1 E2 E3 B.
  generalize (c / 4096)%N (c / 256)%N (c / 16)%N (c / 256 mod 16)%N
             (c / 16 mod 16)%N (c mod 16)%N.
  intros. lia.
Qed.

Lemma hex4_value_hex4 c : (c < 65536)%N ->
  hex4_value (hexdigit (c / 4096 mod 16)) (hexdigit (c / 256 mod 16))
             (hexdigit (c / 16 mod 16)) (hexdigit (c mod 16)) = Some c.
Proof.
  intro H. unfold hex4_value.
  rewrite !hexval_hexdigit by (apply N.mod_lt; lia).
  f_equal. now apply hex_digits_value.
Qed.

Lemma lor_shifted h k l :
  (l < 2 ^ k)%N -> N.lor (h * 2 ^ k) l = (h * 2 ^ k + l)%N.
Proof.
  intro H.
  assert (N.land (h * 2 ^ k) l = 0%N) as Z.
  { apply N.bits_inj_0. intro i. rewrite N.land_spec.
    destruct (N.lt_ge_cases i k).
    + rewrite N.mul_pow2_bits_low by assumption. reflexivity.
    + destruct (N.eq_dec l 0) as [->|Hy]; [now rewrite N.bits_0, andb_false_r|].
      rewrite (N.bits_above_log2 l i); [apply andb_false_r|].
      apply N.lt_le_trans with k; [|assumption].
      apply N.log2_lt_pow2; [lia|assumption]. }
  rewrite <- N.lxor_lor by assumption. symmetry. now apply N.add_nocarry_lxor.
Qed.

(** The two halves of a code point above the basic plane. *)
Lemma high_half n : (n < 1048576)%N ->
  N.lor 55296 (N.land (N.shiftr n 10) 1023) = (55296 + n / 1024)%N.
Proof.
  intro H. rewrite N.shiftr_div_pow2. change 1023%N with (N.ones 10).
  rewrite N.land_ones. change (2 ^ 10)%N with 1024%N.
  rewrite N.mod_small by (apply N.Div0.div_lt_upper_bound; lia).
  apply (lor_shifted 54 10). change (2 ^ 10)%N with 1024%N.
  apply N.Div0.div_lt_upper_bound. lia.
Qed.

Lemma low_half n : N.lor 56320 (N.land n 1023) = (56320 + n mod 1024)%N.
Proof.
  change 1023%N with (N.ones 10). rewrite N.land_ones.
  apply (lor_shifted 55 10). apply N.mod_lt. discriminate.
Qed.

Lemma join_halves n : (n < 1048576)%N ->
  join_surrogates (55296 + n / 1024) (56320 + n mod 1024) = (65536 + n)%N.
Proof.
  intro H. unfold join_surrogates.
  assert (forall a b, a + b - a = b)%N as Cancel by (intros; lia).
  rewrite !Cancel.
  rewrite N.shiftl_mul_pow2. rewrite lor_shifted by (apply N.mod_lt; discriminate).
  change (2 ^ 10)%N with 1024%N. f_equal.
  pose proof (N.div_mod n 1024 ltac:(discriminate)) as E.
  revert E. generalize (n / 1024)%N (n mod 1024)%N. intros. lia.
Qed.

(** ** The text of a string *)

Lemma encode_char_cases c : (c < 1114112)%N ->
  (exists e, encode_char c = [92%N; e] /\ unescape e = Some c /\ (e =? 117)%N = false)
  \/ (plain c = true /\ encode_char c = [c])
  \/ ((c < 65536)%N /\ encode_char c = 92%N :: 117%N :: hex4 c)
  \/ ((65536 <= c)%N
      /\ encode_char c
         = (92%N :: 117%N :: hex4 (55296 + (c - 65536) / 1024))
             ++ 92%N :: 117%N :: hex4 (56320 + (c - 65536) mod 1024)).
Proof.
  intro V. unfold encode_char.
  repeat match goal with
         | |- context [(c =? ?n)%N] =>
             let E := fresh "E" in
             destruct (c =? n)%N eqn:E;
             [apply N.eqb_eq in E; subst c; left; eexists;
              split; [reflexivity | split; reflexivity] |]
         end.
  destruct ((32 <=? c)%N && (c <=? 126)%N) eqn:R.
  - right. left. split; [nbool | reflexivity].
  - destruct (c <? 65536)%N eqn:L.
    + right. right. left. apply N.ltb_lt in L. auto.
    + right. right. right. apply N.ltb_ge in L. split; [assumption|].
      cbv zeta. rewrite high_half by lia. now rewrite low_half.
Qed.

Lemma scanstring_short e c t :
  unescape e = Some c -> (e =? 117)%N = false ->
  scanstring (92%N :: e :: t) = '(r, rest) <- scanstring t ;; Ok (c :: r, rest).
Proof. intros U E. cbn [scanstring]. simpl N.eqb. cbv iota. rewrite E, U. reflexivity. Qed.

Lemma scanstring_plain c t :
  plain c = true ->
  scanstring (c :: t) = '(r, rest) <- scanstring t ;; Ok (c :: r, rest).
Proof.
  intro P. cbn [scanstring].
  assert ((c =? 34)%N = false) as -> by nbool.
  assert ((c =? 92)%N = false) as -> by nbool.
  assert ((c <=? 31)%N = false) as -> by (apply N.leb_gt; nbool).
  reflexivity.
Qed.

Lemma scanstring_u h1 h2 h3 h4 t u :
  hex4_value h1 h2 h3 h4 = Some u ->
  (is_high_surrogate u = true -> low_escape t = None) ->
  scanstring (92%N :: 117%N :: h1 :: h2 :: h3 :: h4 :: t)
  = '(r, rest) <- scanstring t ;; Ok (u :: r, rest).
Proof.
  intros H L. cbn [scanstring]. simpl N.eqb. cbv iota. rewrite H.
  destruct (is_high_surrogate u); [rewrite L by reflexivity|]; reflexivity.
Qed.

Lemma scanstring_pair h1 h2 h3 h4 l1 l2 l3 l4 t hi lo :
  hex4_value h1 h2 h3 h4 = Some hi -> is_high_surrogate hi = true ->
  hex4_value l1 l2 l3 l4 = Some lo -> is_low_surrogate lo = true ->
  scanstring (92%N :: 117%N :: h1 :: h2 :: h3 :: h4
              :: 92%N :: 117%N :: l1 :: l2 :: l3 :: l4 :: t)
  = '(r, rest) <- scanstring t ;; Ok (join_surrogates hi lo :: r, rest).
Proof.
  intros H Hh L Hl. cbn [scanstring]. simpl N.eqb. cbv iota. rewrite H, Hh.
  unfold low_escape. rewrite L, Hl. reflexivity.
Qed.

Lemma low_escape_u h1 h2 h3 h4 t u :
  hex4_value h1 h2 h3 h4 = Some u ->
  low_escape (92%N :: 117%N :: h1 :: h2 :: h3 :: h4 :: t)
  = if is_low_surrogate u then Some u else None.
Proof. intro H. unfold low_escape. now rewrite H. Qed.

Lemma low_escape_not_backslash c t : c <> 92%N -> low_escape (c :: t) = None.
Proof.
  intro E. unfold low_escape. destruct c as [|p]; [reflexivity|].
  destruct p as [p|p|]; try reflexivity;
  destruct p as [p|p|]; try reflexivity;
  destruct p as [p|p|]; try reflexivity;
  destruct p as [p|p|]; try reflexivity;
  destruct p as [p|p|]; try reflexivity;
  destruct p as [p|p|]; try reflexivity;
  destruct p as [p|p|]; try reflexivity.
  congruence.
Qed.

Lemma low_escape_not_u e t : e <> 117%N -> low_escape (92%N :: e :: t) = None.
Proof.
  intro E. unfold low_escape. destruct e as [|p]; [reflexivity|].
  destruct p as [p|p|]; try reflexivity;
  destruct p as [p|p|]; try reflexivity;
  destruct p as [p|p|]; try reflexivity;
  destruct p as [p|p|]; try reflexivity;
  destruct p as [p|p|]; try reflexivity;
  destruct p as [p|p|]; try reflexivity;
  destruct p as [p|p|]; try reflexivity.
  congruence.
Qed.

Lemma low_escape_char c t lo : (c < 1114112)%N ->
  low_escape (encode_char c ++ t) = Some lo ->
  c = lo /\ is_low_surrogate lo = true.
Proof.
  intros V H.
  destruct (encode_char_cases c V) as [(e & X & U & E)|[(P & X)|[(L & X)|(L & X)]]];
    rewrite X in H; clear X.
  - cbn [app] in H. rewrite low_escape_not_u in H; [discriminate|].
    now apply N.eqb_neq.
  - cbn [app] in H. rewrite low_escape_not_backslash in H; [discriminate|].
    intro E. subst c. discriminate.
  - unfold hex4 in H. cbn [app] in H.
    rewrite (low_escape_u _ _ _ _ _ c (hex4_value_hex4 c L)) in H.
    destruct (is_low_surrogate c) eqn:S; [|discriminate].
    injection H as <-. auto.
  - unfold hex4 in H. cbn [app] in H.
    erewrite low_escape_u in H; [|apply hex4_value_hex4].
    + match type of H with
      | (if is_low_surrogate ?x then _ else _) = _ =>
          assert (is_low_surrogate x = false) as S
      end.
      { assert ((c - 65536) / 1024 < 1024)%N
          by (apply N.Div0.div_lt_upper_bound; lia).
        unfold is_low_surrogate. apply andb_false_iff. left.
        apply N.leb_gt. lia. }
      rewrite S in H. discriminate.
    + assert ((c - 65536) / 1024 < 1024)%N
        by (apply N.Div0.div_lt_upper_bound; lia). lia.
Qed.

Lemma valid_str_cons c s :
  valid_str (c :: s) = true ->
  (c < 1114112)%N
  /\ (is_high_surrogate c = true ->
      match s with c' :: _ => is_low_surrogate c' = false | [] => True end)
  /\ valid_str s = true.
Proof.
  cbn [valid_str]. intro H. apply andb_true_iff in H as [H V].
  apply andb_true_iff in H as [L H]. apply N.ltb_lt in L.
  apply negb_true_iff in H. repeat split; auto.
  intro Hh. rewrite Hh in H. simpl in H. destruct s; auto.
Qed.

Lemma valid_str_bound s c : valid_str s = true -> In c s -> (c < 1114112)%N.
Proof.
  induction s as [|x s IH]; intros V I; [contradiction|].
  destruct I as [E|I].
  - subst. now apply valid_str_cons in V.
  - apply IH; [|assumption]. now apply valid_str_cons in V.
Qed.

Lemma scanstring_body s rest :
  valid_str s = true -> scanstring (encode_body s ++ 34%N :: rest) = Ok (s, rest).
Proof.
  induction s as [|c s IH]; intro V; [reflexivity|].
  apply valid_str_cons in V as (L & S & V). specialize (IH V).
  rewrite encode_body_cons, <- app_assoc.
  destruct (encode_char_cases c L) as [(e & X & U & E)|[(P & X)|[(B & X)|(B & X)]]];
    rewrite X; clear X.
  - cbn [app]. rewrite (scanstring_short e c) by assumption. now rewrite IH.
  - cbn [app]. rewrite scanstring_plain by assumption. now rewrite IH.
  - unfold hex4. cbn [app].
    rewrite (scanstring_u _ _ _ _ _ c (hex4_value_hex4 c B)); [now rewrite IH|].
    intro Hh. specialize (S Hh).
    destruct (low_escape (encode_body s ++ 34%N :: rest)) as [lo|] eqn:Lo;
      [|reflexivity].
    destruct s as [|c' s].
    + cbn [encode_body flat_map app] in Lo.
      rewrite low_escape_not_backslash in Lo; discriminate.
    + rewrite encode_body_cons, <- app_assoc in Lo.
      apply low_escape_char in Lo as [-> Lo]; [congruence|].
      now apply valid_str_cons in V.
  - remember (c - 65536)%N as n eqn:En.
    assert (n < 1048576)%N as Hn by lia.
    assert (n / 1024 < 1024)%N as Hq by (apply N.Div0.div_lt_upper_bound; lia).
    assert (n mod 1024 < 1024)%N as Hr by (apply N.mod_lt; discriminate).
    unfold hex4. cbn [app].
    rewrite (scanstring_pair _ _ _ _ _ _ _ _ _
               (55296 + n / 1024) (56320 + n mod 1024)).
    + rewrite IH. cbn [bind]. rewrite join_halves by assumption.
      replace (65536 + n)%N with c by lia. reflexivity.
    + apply hex4_value_hex4. revert Hq. generalize (n / 1024)%N. intros. lia.
    + unfold is_high_surrogate. revert Hq. generalize (n / 1024)%N. intros.
      apply andb_true_iff. split; apply N.leb_le; lia.
    + apply hex4_value_hex4.
      revert Hr. generalize (n mod 1024)%N. intros. lia.
    + unfold is_low_surrogate. revert Hr. generalize (n mod 1024)%N. intros.
      apply andb_true_iff. split; apply N.leb_le; lia.
Qed.

(** ** The text of an integer *)

Lemma uint_of_chars_chars u : uint_of_chars (uint_chars u) = u.
Proof. induction u; simpl; congruence. Qed.

Lemma span_digits_app (ds rest : pystr) :
  forallb is_digit ds = true -> stops is_digit rest ->
  span_digits (ds ++ rest) = (ds, rest).
Proof.
  intros F S. induction ds as [|c ds IH]; cbn [app span_digits forallb] in *.
  - destruct rest as [|c rest]; [reflexivity|]. unfold stops in S.
    cbn [span_digits]. now rewrite S.
  - apply andb_true_iff in F as [C F]. rewrite C. now rewrite IH.
Qed.

Lemma uint_chars_head u :
  u <> Decimal.Nil ->
  exists c r, uint_chars u = c :: r /\ In c digit_chars.
Proof.
  intro H. destruct u; [contradiction| | | | | | | | | |];
    eexists; eexists; (split; [reflexivity|]); simpl; tauto.
Qed.

Lemma to_uint_zero_or_nonzero n :
  N.to_uint n = Decimal.D0 Decimal.Nil
  \/ (exists c r, uint_chars (N.to_uint n) = c :: r
                  /\ In c digit_chars /\ c <> 48%N).
Proof.
  assert (Decimal.unorm (N.to_uint n) = N.to_uint n) as U.
  { rewrite <- (DecimalN.Unsigned.of_to n) at 2.
    now rewrite DecimalN.Unsigned.to_of. }
  pose proof (to_uint_nonnil n) as Nn.
  destruct (N.to_uint n) as [|u|u|u|u|u|u|u|u|u|u]; [contradiction| | | | | | | | | |];
    try (right; eexists; eexists;
         (split; [reflexivity|]); split; [simpl; tauto | discriminate]).
  left. unfold Decimal.unorm in U. cbn [Decimal.nzhead] in U.
  destruct (Decimal.nzhead u) eqn:Z; try (injection U as <-; reflexivity);
    exfalso; pose proof (nb_digits_nzhead u) as B; rewrite Z, U in B;
    simpl in B; lia.
Qed.

Lemma stops_delim rest : delim rest -> stops is_digit rest.
Proof.
  destruct rest as [|c rest]; simpl; [trivial|].
  intros [-> | [-> | ->]]; reflexivity.
Qed.

Lemma float_tail_delim rest : delim rest -> float_tail rest = false.
Proof.
  destruct rest as [|c rest]; simpl; [trivial|].
  intros [-> | [-> | ->]]; reflexivity.
Qed.

Lemma int_part_digits n rest :
  delim rest ->
  int_part (uint_chars (N.to_uint n) ++ rest)
  = Some (uint_chars (N.to_uint n), rest).
Proof.
  intro D. destruct (to_uint_zero_or_nonzero n) as [E|(c & r & E & I & Nz)].
  - rewrite E. reflexivity.
  - pose proof (uint_chars_digits (N.to_uint n)) as F. rewrite E in *.
    cbn [app forallb] in *. apply andb_true_iff in F as [Fc F].
    unfold int_part. apply N.eqb_neq in Nz. rewrite Nz, Fc.
    rewrite span_digits_app; auto using stops_delim.
Qed.

Lemma digits_value_chars n : digits_value (uint_chars (N.to_uint n)) = n.
Proof.
  unfold digits_value. rewrite uint_of_chars_chars.
  apply DecimalN.Unsigned.of_to.
Qed.

Lemma scan_number_unsigned s :
  (exists c r, s = c :: r /\ In c digit_chars) ->
  scan_number s
  = match int_part s with
    | None => Raise JSONDecodeError
    | Some (ds, rest) =>
        if float_tail rest then Unmodelled
        else Ok (JInt (Z.of_N (digits_value ds)), rest)
    end.
Proof.
  intros (c & r & -> & I). simpl in I.
  repeat (destruct I as [<-|I]; [reflexivity|]). contradiction.
Qed.

Lemma scan_number_nat n rest :
  delim rest ->
  scan_number (uint_chars (N.to_uint n) ++ rest) = Ok (JInt (Z.of_N n), rest).
Proof.
  intro D. rewrite scan_number_unsigned.
  - rewrite int_part_digits by assumption.
    rewrite float_tail_delim by assumption. now rewrite digits_value_chars.
  - destruct (uint_chars_head _ (to_uint_nonnil n)) as (c & r & E & I).
    exists c, (r ++ rest). rewrite E. auto.
Qed.

Lemma scan_number_int z rest :
  delim rest -> scan_number (int_repr z ++ rest) = Ok (JInt z, rest).
Proof.
  intro D. unfold int_repr. destruct (z <? 0)%Z eqn:S.
  - apply Z.ltb_lt in S. unfold scan_number. cbn [app].
    rewrite int_part_digits by assumption.
    rewrite float_tail_delim by assumption. rewrite digits_value_chars.
    rewrite Z2N.id by lia. now rewrite Z.opp_involutive.
  - apply Z.ltb_ge in S. rewrite scan_number_nat by assumption.
    now rewrite Z2N.id by lia.
Qed.

Lemma parse_value_int fuel z rest :
  parse_value (S fuel) (int_repr z ++ rest) = scan_number (int_repr z ++ rest).
Proof.
  unfold int_repr. destruct (z <? 0)%Z.
  - destruct (uint_chars_head _ (to_uint_nonnil (Z.to_N (- z)))) as (c & r & E & I).
    rewrite E. simpl in I.
    repeat (destruct I as [<-|I]; [reflexivity|]). contradiction.
  - destruct (uint_chars_head _ (to_uint_nonnil (Z.to_N z))) as (c & r & E & I).
    rewrite E. simpl in I.
    repeat (destruct I as [<-|I]; [reflexivity|]). contradiction.
Qed.

(** ** The text of a document *)

Lemma dumps_start v : exists c r, dumps v = c :: r /\ In c value_starts.
Proof.
  destruct v as [|[]|z|s|[|x l]|[|[k v] kvs]];
    try (eexists; eexists; split; [reflexivity | simpl; tauto]).
  cbn [dumps]. unfold int_repr. destruct (z <? 0)%Z.
  - eexists; eexists; split; [reflexivity | simpl; tauto].
  - destruct (uint_chars_head _ (to_uint_nonnil (Z.to_N z))) as (c & r & E & I).
    exists c, r. split; [assumption|]. simpl in *. tauto.
Qed.

Ltac each_start I :=
  simpl in I; repeat (destruct I as [<-|I]; [reflexivity|]); contradiction.

Lemma skip_ws_start c t : In c value_starts -> skip_ws (c :: t) = c :: t.
Proof. intro I. each_start I. Qed.

Lemma skip_ws_space_start c t : In c value_starts -> skip_ws (32%N :: c :: t) = c :: t.
Proof. intro I. each_start I. Qed.

Lemma skip_ws_dumps v rest : skip_ws (dumps v ++ rest) = dumps v ++ rest.
Proof.
  destruct (dumps_start v) as (c & r & -> & I). now apply skip_ws_start.
Qed.

Lemma skip_ws_space_dumps v rest :
  skip_ws (32%N :: dumps v ++ rest) = dumps v ++ rest.
Proof.
  destruct (dumps_start v) as (c & r & -> & I). now apply skip_ws_space_start.
Qed.

Lemma parse_value_arr f c t :
  In c value_starts ->
  parse_value (S f) (91%N :: c :: t)
  = '(l, r) <- parse_elems (parse_value f) f (c :: t) [] ;; Ok (JArr l, r).
Proof. intro I. each_start I. Qed.

Lemma parse_value_arr_dumps f x t :
  parse_value (S f) (91%N :: dumps x ++ t)
  = '(l, r) <- parse_elems (parse_value f) f (dumps x ++ t) [] ;; Ok (JArr l, r).
Proof.
  destruct (dumps_start x) as (c & r & -> & I). cbn [app].
  now apply parse_value_arr.
Qed.

Lemma parse_value_obj f t :
  parse_value (S f) (123%N :: 34%N :: t)
  = '(kvs, r) <- parse_members (parse_value f) f (34%N :: t) [] ;; Ok (JObj kvs, r).
Proof. reflexivity. Qed.

Lemma parse_elems_ok f rest (l : list json) : forall x acc n,
  Forall (reads_back f) (x :: l) ->
  length l < n ->
  parse_elems (parse_value f) n (dumps x ++ arr_more l ++ 93%N :: rest) acc
  = Ok (acc ++ x :: l, rest).
Proof.
  induction l as [|y l IH]; intros x acc n F Hn;
    (destruct n as [|n]; [lia|]);
    apply Forall_cons_iff in F as [Hx F]; cbn [parse_elems].
  - cbn [arr_more flat_map app]. rewrite Hx by (simpl; auto). reflexivity.
  - rewrite Hx by apply arr_more_delim.
    unfold arr_more. cbn [flat_map]. fold (arr_more l).
    rewrite <- !app_assoc. cbn [bind]. 
    change (str ", " ++ dumps y ++ arr_more l ++ 93%N :: rest)
      with (44%N :: 32%N :: dumps y ++ arr_more l ++ 93%N :: rest).
    cbn [skip_ws is_ws N.eqb Pos.eqb orb].
    rewrite ?skip_ws_space_dumps, ?skip_ws_dumps.
    rewrite IH; [|assumption|simpl in Hn; lia].
    now rewrite <- app_assoc.
Qed.

Lemma dict_set_fresh k v acc :
  ~ In k (map fst acc) -> dict_set k v acc = acc ++ [(k, v)].
Proof.
  induction acc as [|[k' v'] acc IH]; intro H; simpl; [reflexivity|].
  simpl in H. assert (str_eqb k k' = false) as ->.
  { apply str_eqb_neq. intro E. apply H. now left. }
  rewrite IH; [reflexivity|]. intro I. apply H. now right.
Qed.

Lemma dict_build_unique kvs : forall acc,
  NoDup (map fst (acc ++ kvs)) -> fold_left dict_add kvs acc = acc ++ kvs.
Proof.
  induction kvs as [|[k v] kvs IH]; intros acc N; simpl.
  - now rewrite List.app_nil_r.
  - unfold dict_add at 2. cbn [fst snd].
    rewrite dict_set_fresh.
    + rewrite IH; [now rewrite <- app_assoc|]. now rewrite <- app_assoc.
    + rewrite map_app in N. simpl in N. apply NoDup_remove_2 in N.
      intro I. apply N. apply in_app_iff. now left.
Qed.

Lemma parse_members_step pv n k v R acc :
  valid_str k = true ->
  pv (dumps v ++ R) = Ok (v, R) ->
  parse_members pv (S n) (member_text (k, v) ++ R) acc
  = match skip_ws R with
    | 125%N :: s5 => Ok (dict_set k v acc, s5)
    | 44%N :: s5 => parse_members pv n (skip_ws s5) (dict_set k v acc)
    | _ => Raise JSONDecodeError
    end.
Proof.
  intros V H. rewrite member_text_app. unfold encode_str. cbn [app].
  rewrite <- app_assoc. cbn [app parse_members].
  rewrite scanstring_body by assumption. cbn [bind].
  cbn [skip_ws is_ws N.eqb Pos.eqb orb].
  rewrite ?skip_ws_space_dumps, ?skip_ws_dumps. rewrite H. reflexivity.
Qed.

Lemma parse_members_ok f rest (kvs : list (pystr * json)) : forall kv acc n,
  Forall (fun kv => valid_str (fst kv) = true /\ reads_back f (snd kv)) (kv :: kvs) ->
  length kvs < n ->
  parse_members (parse_value f) n
                (member_text kv ++ obj_more kvs ++ 125%N :: rest) acc
  = Ok (fold_left dict_add (kv :: kvs) acc, rest).
Proof.
  induction kvs as [|kv' kvs IH]; intros [k v] acc n F Hn;
    (destruct n as [|n]; [lia|]);
    apply Forall_cons_iff in F as [[Vk Hv] F]; cbn [fst snd] in *.
  - rewrite parse_members_step; [reflexivity | assumption |].
    apply Hv. simpl. auto.
  - rewrite parse_members_step; [| assumption | apply Hv; apply obj_more_delim].
    unfold obj_more. cbn [flat_map]. fold (obj_more kvs).
    rewrite <- !app_assoc.
    change (str ", " ++ member_text kv' ++ obj_more kvs ++ 125%N :: rest)
      with (44%N :: 32%N :: member_text kv' ++ obj_more kvs ++ 125%N :: rest).
    cbn [skip_ws is_ws N.eqb Pos.eqb orb].
    assert (skip_ws (member_text kv' ++ obj_more kvs ++ 125%N :: rest)
            = member_text kv' ++ obj_more kvs ++ 125%N :: rest) as ->
        by (destruct kv'; reflexivity).
    rewrite IH; [reflexivity | assumption | simpl in Hn; lia].
Qed.

(** ** Sizes *)

Lemma size_pos j : 1 <= size j.
Proof. destruct j; simpl; lia. Qed.

Lemma sizes_In l y : In y l -> size y <= sizes l.
Proof.
  induction l as [|x l IH]; intro H; [contradiction|].
  destruct H as [->|H]; unfold sizes in *; cbn [fold_right];
    [lia | specialize (IH H); lia].
Qed.

Lemma sizes_length l : length l <= sizes l.
Proof.
  induction l as [|x l IH]; unfold sizes in *; cbn [fold_right length]; [lia|].
  pose proof (size_pos x). lia.
Qed.

Lemma sizes_kv_In kvs kv : In kv kvs -> size (snd kv) <= sizes_kv kvs.
Proof.
  induction kvs as [|x l IH]; intro H; [contradiction|].
  destruct H as [->|H]; unfold sizes_kv in *; cbn [fold_right];
    [lia | specialize (IH H); lia].
Qed.

Lemma sizes_kv_length kvs : length kvs <= sizes_kv kvs.
Proof.
  induction kvs as [|x l IH]; unfold sizes_kv in *; cbn [fold_right length]; [lia|].
  pose proof (size_pos (snd x)). lia.
Qed.

Lemma size_arr l : size (JArr l) = S (sizes l).
Proof. reflexivity. Qed.

Lemma size_obj kvs : size (JObj kvs) = S (sizes_kv kvs).
Proof. reflexivity. Qed.

Lemma size_le_length j : size j <= length (dumps j).
Proof.
  induction j as [| b | z | s | l IH | kvs IH] using json_induction;
    try (destruct (dumps_start (JInt z)) as (c & r & -> & _); simpl; lia);
    try (simpl; lia).
  - destruct b; simpl; lia.
  - destruct l as [|x l]; [simpl; lia|].
    rewrite size_arr, dumps_arr_cons. cbn [length sizes fold_right].
    rewrite !length_app. apply Forall_cons_iff in IH as [Hx Hl].
    assert (sizes l <= length (arr_more l)) as B.
    { clear Hx. induction Hl as [|y l Hy Hl IHl]; [simpl; lia|].
      unfold arr_more. cbn [flat_map sizes fold_right].
      rewrite !length_app. fold (arr_more l). fold (sizes l). lia. }
    fold (sizes l). simpl. lia.
  - destruct kvs as [|[k v] kvs]; [simpl; lia|].
    rewrite size_obj, dumps_obj_cons. cbn [length sizes_kv fold_right].
    unfold member_text at 1. cbn [fst snd].
    rewrite !length_app. apply Forall_cons_iff in IH as [Hx Hl]. cbn [snd] in Hx.
    assert (sizes_kv kvs <= length (obj_more kvs)) as B.
    { clear Hx. induction Hl as [|y l Hy Hl IHl]; [simpl; lia|].
      unfold obj_more. cbn [flat_map sizes_kv fold_right].
      rewrite !length_app. fold (obj_more l). fold (sizes_kv l).
      unfold member_text. rewrite !length_app. lia. }
    fold (sizes_kv kvs). simpl. lia.
Qed.

(** ** The round trip *)

Lemma wf_arr l : wf (JArr l) = true -> Forall (fun x => wf x = true) l.
Proof. simpl. intro H. apply Forall_forall. now apply forallb_forall. Qed.

Lemma wf_obj_all kvs :
  wf (JObj kvs) = true ->
  NoDup (map fst kvs)
  /\ Forall (fun kv => valid_str (fst kv) = true /\ wf (snd kv) = true) kvs.
Proof.
  simpl. intro H. apply andb_true_iff in H as [H1 H2]. split.
  - now apply keys_unique_NoDup.
  - apply Forall_forall. intros kv I. rewrite forallb_forall in H2.
    specialize (H2 _ I). now apply andb_true_iff in H2.
Qed.

Lemma parse_dumps j : forall fuel,
  wf j = true -> size j < fuel -> reads_back fuel j.
Proof.
  induction j as [| b | z | s | l IH | kvs IH] using json_induction;
    intros fuel W S rest D; (destruct fuel as [|f]; [lia|]).
  - reflexivity.
  - destruct b; reflexivity.
  - cbn [dumps]. rewrite parse_value_int. now apply scan_number_int.
  - cbn [dumps]. unfold encode_str. cbn [app parse_value N.eqb Pos.eqb].
    rewrite <- app_assoc. cbn [app].
    rewrite scanstring_body by exact W. reflexivity.
  - destruct l as [|x l]; [reflexivity|].
    rewrite dumps_arr_cons. rewrite size_arr in S.
    cbn [app]. rewrite <- !app_assoc. cbn [app].
    rewrite parse_value_arr_dumps.
    rewrite parse_elems_ok; [reflexivity | | ].
    + apply wf_arr in W. rewrite Forall_forall in *. intros y Hy.
      apply IH; [assumption | now apply W |].
      pose proof (sizes_In _ _ Hy). lia.
    + pose proof (sizes_length (x :: l)). simpl in *. lia.
  - destruct kvs as [|[k v] kvs]; [reflexivity|].
    rewrite dumps_obj_cons. rewrite size_obj in S.
    apply wf_obj_all in W as [N W].
    cbn [app]. rewrite <- !app_assoc.
    assert (exists t, member_text (k, v) ++ obj_more kvs ++ [125%N] ++ rest
                      = 34%N :: t) as [t Et] by (eexists; reflexivity).
    rewrite Et, parse_value_obj, <- Et. cbn [app].
    rewrite parse_members_ok.
    + cbn [bind]. rewrite (dict_build_unique ((k, v) :: kvs) []); [reflexivity|].
      exact N.
    + rewrite Forall_forall in *. intros kv Hkv.
      destruct (W kv Hkv) as [Vk Wv]. split; [assumption|].
      apply IH; [assumption | assumption |].
      pose proof (sizes_kv_In _ _ Hkv). lia.
    + pose proof (sizes_kv_length ((k, v) :: kvs)). simpl in *. lia.
Qed.

(** [json.loads(json.dumps(j)) == j], and with the same types. *)
Lemma loads_dumps j : wf j = true -> loads (dumps j) = Ok j.
Proof.
  intro W. unfold loads.
  pose proof (skip_ws_dumps j []) as Sk. rewrite List.app_nil_r in Sk. rewrite Sk.
  pose proof (parse_dumps j (S (length (dumps j))) W) as P.
  unfold reads_back in P. specialize (P ltac:(pose proof (size_le_length j); lia) [] I).
  rewrite List.app_nil_r in P. rewrite P. reflexivity.
Qed.

(** ** The normalized document *)

Lemma plain_valid s : forallb plain s = true -> valid_str s = true.
Proof.
  induction s as [|c s IH]; intro H; [reflexivity|].
  cbn [forallb] in H. apply andb_true_iff in H as [P H].
  cbn [valid_str]. rewrite IH by assumption.
  assert ((c <? 1114112)%N = true) as -> by nbool.
  assert (is_high_surrogate c = false) as ->.
  { unfold is_high_surrogate. apply andb_false_iff. left. apply N.leb_gt. nbool. }
  reflexivity.
Qed.

Lemma wf_normalize_member k v : wf v = true -> wf (normalize_member k v) = true.
Proof.
  intro W. unfold normalize_member. destruct v; try assumption.
  destruct (is_ref_key k); [|assumption].
  destruct (rel_ref s) as [u|] eqn:R; [|assumption].
  cbn [wf]. apply plain_valid. now apply rel_ref_plain in R.
Qed.

Lemma wf_normalize j : wf j = true -> wf (normalize j) = true.
Proof.
  induction j as [| b | z | s | l IH | kvs IH] using json_induction; intro W;
    try assumption.
  - cbn [normalize wf]. apply wf_arr in W. rewrite forallb_forall.
    intros y Hy. apply in_map_iff in Hy as (x & <- & Hx).
    rewrite Forall_forall in *. auto.
  - apply wf_obj_all in W as [N W]. rewrite normalize_obj. cbn [wf].
    apply andb_true_iff. split.
    + rewrite map_map. cbn [normalize_kv fst].
      clear - N. induction kvs as [|[k v] kvs IHk]; [reflexivity|].
      cbn [map fst keys_unique] in *. inversion N as [|? ? N1 N2]; subst.
      rewrite IHk by assumption. rewrite andb_true_r. apply negb_true_iff.
      now apply path_in_not_In.
    + rewrite forallb_forall. intros kv Hkv.
      apply in_map_iff in Hkv as ([k v] & <- & Hkv).
      rewrite Forall_forall in *. destruct (W _ Hkv) as [Vk Wv].
      cbn [normalize_kv fst snd] in *. rewrite Vk. cbn [andb].
      apply wf_normalize_member. now apply (IH (k, v)).
Qed.

(** The reference normalizer returns the normalized document. *)
Lemma standardize_references_normalize p :
  wf p = true -> standardize_references p = Ok (normalize p).
Proof.
  intro W. unfold standardize_references. rewrite re_sub_dumps. cbn [bind].
  apply loads_dumps. now apply wf_normalize.
Qed.

(** * The reference normalizer, place by place *)

Lemma dict_get_normalize k kvs :
  dict_get k (map normalize_kv kvs)
  = option_map (fun v => normalize_member k (normalize v)) (dict_get k kvs).
Proof.
  induction kvs as [|[k' v'] kvs IH]; [reflexivity|].
  cbn [map normalize_kv fst snd dict_get].
  destruct (str_eqb k k') eqn:E; [|exact IH].
  apply str_eqb_eq in E. now subst.
Qed.

Lemma get_path_container v st path w :
  get_path v (st :: path) = Some w -> forall s, v <> JStr s.
Proof. intros H s ->. destruct st; discriminate. Qed.

Lemma get_path_normalize (path : list step) : forall p k v,
  get_path p (path ++ [Key k]) = Some v ->
  get_path (normalize p) (path ++ [Key k])
  = Some (normalize_member k (normalize v)).
Proof.
  induction path as [|st path IH]; intros p k v H.
  - cbn [app get_path] in *. destruct p as [| | | | |kvs]; try discriminate.
    rewrite normalize_obj, dict_get_normalize.
    destruct (dict_get k kvs) as [x|]; [|discriminate].
    injection H as ->. reflexivity.
  - cbn [app] in *. destruct st as [k0|i]; cbn [get_path] in *.
    + destruct p as [| | | | |kvs]; try discriminate.
      rewrite normalize_obj, dict_get_normalize.
      destruct (dict_get k0 kvs) as [x|]; [|discriminate]. cbn [option_map].
      assert (forall s, x <> JStr s) as Nx.
      { destruct path; eapply get_path_container; exact H. }
      rewrite normalize_member_quiet
        by (right; left; now apply normalize_not_str).
      now apply IH.
    + destruct p as [| | | |l|]; try discriminate. cbn [normalize].
      rewrite nth_error_map.
      destruct (nth_error l i) as [x|]; [|discriminate]. cbn [option_map].
      now apply IH.
Qed.

(** C4. On every bundle, [standardize_references] returns a document in
    which each string ["<Type>/<uuid>"] that is the value of a key
    [reference], at any depth, has become ["urn:uuid:<uuid>"] - [<Type>]
    a non-empty word of ASCII letters, digits and underscores, [<uuid>]
    in the canonical 8-4-4-4-12 lowercase form - and in which a string
    under a key [reference] that has not this shape is unchanged. *)
Theorem standardize_references_rewrites_relative_references (p : json) :
  wf p = true ->
  exists p',
    standardize_references p = Ok p'
    /\ (forall path w u,
          w <> [] -> forallb cls_word w = true -> is_uuid u = true ->
          get_path p (path ++ [Key (str "reference")])
          = Some (JStr (w ++ str "/" ++ u)) ->
          get_path p' (path ++ [Key (str "reference")])
          = Some (JStr (str "urn:uuid:" ++ u)))
    /\ (forall path s,
          get_path p (path ++ [Key (str "reference")]) = Some (JStr s) ->
          (forall w u, w <> [] -> forallb cls_word w = true ->
                       is_uuid u = true -> s <> w ++ str "/" ++ u) ->
          get_path p' (path ++ [Key (str "reference")]) = Some (JStr s)).
Proof.
  intro W. exists (normalize p).
  split; [now apply standardize_references_normalize|].
  split.
  - intros path w u Nw Fw Hu H.
    rewrite (get_path_normalize _ _ _ _ H). cbn [normalize].
    unfold normalize_member.
    change (is_ref_key (str "reference")) with true. cbv iota.
    change (w ++ str "/" ++ u) with (w ++ 47%N :: u).
    now rewrite rel_ref_intro.
  - intros path s H Ns.
    rewrite (get_path_normalize _ _ _ _ H). cbn [normalize].
    rewrite normalize_member_quiet; [reflexivity|].
    right. right. exists s. split; [reflexivity|].
    destruct (rel_ref s) as [u|] eqn:R; [|reflexivity].
    apply rel_ref_elim in R as (w & E & Nw & Fw & Hu).
    exfalso. now apply (Ns w u).
Qed.

(** * The idempotency-key injector *)

Ltac peel H :=
  repeat match type of H with
         | bind ?m _ = Ok _ =>
             let x := fresh "x" in
             let E := fresh "E" in
             destruct m as [x| |] eqn:E; cbn [bind] in H; try discriminate H
         end.

Lemma list_update_nth {A} (l : list A) i x y :
  nth_error l i = Some y -> nth_error (list_update l i x) i = Some x.
Proof.
  revert i. induction l as [|a l IH]; intros [|i] H; simpl in *; try discriminate;
    auto.
Qed.

Lemma list_update_twice {A} (l : list A) i x y :
  list_update (list_update l i x) i y = list_update l i y.
Proof.
  revert i. induction l as [|a l IH]; intros [|i]; simpl; auto. now rewrite IH.
Qed.

Lemma list_update_app {A} (done todo : list A) e x :
  list_update (done ++ e :: todo) (length done) x = done ++ x :: todo.
Proof. induction done as [|a done IH]; simpl; [reflexivity | now rewrite IH]. Qed.

Lemma nth_error_middle {A} (done todo : list A) e :
  nth_error (done ++ e :: todo) (length done) = Some e.
Proof. induction done as [|a done IH]; simpl; auto. Qed.

(** The loop body, on the entry it visits. *)
Lemma add_clause_step_entry l i e :
  nth_error l i = Some e ->
  add_clause_step (i, e) (JArr l)
  = (e' <- entry_step e ;; Ok (JArr (list_update l i e'))).
Proof.
  intro Hn. unfold add_clause_step, entry_step, key_of.
  destruct (getitem e (str "resource")) as [resource| |]; cbn [bind]; try reflexivity.
  destruct (getitem e (str "request")) as [request| |]; cbn [bind]; try reflexivity.
  destruct (getitem resource (str "resourceType")) as [rt| |]; cbn [bind];
    try reflexivity.
  destruct (in_keys (str "identifier") resource) as [has| |]; cbn [bind];
    try reflexivity.
  match goal with
  | |- bind ?m _ = _ =>
      destruct m as [nonempty| |]; cbn [bind]; try reflexivity
  end.
  match goal with
  | |- bind ?m _ = _ =>
      destruct m as [[identifier resource']| |]; cbn [bind]; try reflexivity
  end.
  destruct (getitem identifier (str "system")) as [system| |]; cbn [bind];
    try reflexivity.
  destruct (getitem identifier (str "value")) as [value| |]; cbn [bind];
    try reflexivity.
  destruct (query_term_of rt system value) as [q| |]; cbn [bind]; try reflexivity.
  destruct (setitem request (str "ifNoneExist") (JStr q)) as [request'| |];
    cbn [bind]; try reflexivity.
  unfold setitem_at. cbn [getidx]. rewrite Hn. cbn [bind].
  destruct (setitem e (str "request") request') as [e1| |]; cbn [bind];
    try reflexivity.
  unfold setitem_at. cbn [getidx].
  rewrite (list_update_nth l i e1 e Hn). cbn [bind].
  destruct (setitem e1 (str "resource") resource') as [e2| |]; cbn [bind];
    try reflexivity.
  now rewrite list_update_twice.
Qed.

Lemma add_clause_loop (todo : list json) : forall done,
  for_each (combine (seq (length done) (length todo)) todo)
           (JArr (done ++ todo)) add_clause_step
  = (todo' <- map_result entry_step todo ;; Ok (JArr (done ++ todo'))).
Proof.
  induction todo as [|e todo IH]; intro done.
  - reflexivity.
  - cbn [length seq combine for_each map_result].
    rewrite add_clause_step_entry by apply nth_error_middle.
    destruct (entry_step e) as [e'| |]; cbn [bind]; try reflexivity.
    rewrite list_update_app.
    specialize (IH (done ++ [e'])). rewrite length_app in IH. simpl length in IH.
    rewrite Nat.add_1_r in IH. rewrite <- app_assoc in IH. cbn [app] in IH.
    rewrite IH.
    destruct (map_result entry_step todo) as [todo'| |]; cbn [bind];
      try reflexivity.
    now rewrite <- app_assoc.
Qed.

(** On a list of entries, the injector is [entry_step] entry by entry. *)
Lemma add_if_none_exist_clause_entries p es :
  getitem p (str "entry") = Ok (JArr es) ->
  add_if_none_exist_clause p
  = (es' <- map_result entry_step es ;; setitem p (str "entry") (JArr es')).
Proof.
  intro H. unfold add_if_none_exist_clause. rewrite H. cbn [bind py_list].
  unfold enumerate. pose proof (add_clause_loop es []) as L.
  cbn [app length] in L. rewrite L.
  destruct (map_result entry_step es); reflexivity.
Qed.

Lemma key_of_existing rk rt ids n :
  dict_get (str "resourceType") rk = Some rt ->
  dict_get (str "identifier") rk = Some ids ->
  py_len ids = Ok (S n) ->
  key_of (JObj rk)
  = (identifier <- getidx ids 0 ;;
     system <- getitem identifier (str "system") ;;
     value <- getitem identifier (str "value") ;;
     query_term <- query_term_of rt system value ;;
     Ok (JObj rk, query_term)).
Proof.
  intros Hrt Hid Hn. unfold key_of. cbn [getitem in_keys].
  rewrite Hrt, Hid. cbn [bind]. rewrite Hn. cbn [bind Nat.ltb Nat.leb].
  destruct (getidx ids 0); reflexivity.
Qed.

Lemma key_of_synthesized rk rt :
  dict_get (str "resourceType") rk = Some rt ->
  lacks_identifier (JObj rk) ->
  key_of (JObj rk)
  = (rid <- getitem (JObj rk) (str "id") ;;
     query_term <- query_term_of rt (JStr synthea_system) rid ;;
     Ok (JObj (dict_set (str "identifier") (synthesized rid) rk), query_term)).
Proof.
  intros Hrt L. unfold key_of. cbn [getitem in_keys].
  rewrite Hrt. cbn [bind].
  destruct L as [L|(ids & G & Len)]; cbn [in_keys getitem] in *.
  - destruct (dict_get (str "identifier") rk); [discriminate|]. cbn [bind].
    destruct (dict_get (str "id") rk); reflexivity.
  - destruct (dict_get (str "identifier") rk) as [ids'|]; [|discriminate].
    injection G as ->. cbn [bind]. rewrite Len. cbn [bind Nat.ltb Nat.leb].
    destruct (dict_get (str "id") rk); reflexivity.
Qed.

(** The two ways of a resource through the test of the loop body. *)
Lemma identifier_cases rk :
  lacks_identifier (JObj rk)
  \/ (exists ids n, dict_get (str "identifier") rk = Some ids
                    /\ py_len ids = Ok (S n))
  \/ (exists ids, dict_get (str "identifier") rk = Some ids
                  /\ forall n, py_len ids <> Ok n).
Proof.
  destruct (dict_get (str "identifier") rk) as [ids|] eqn:Hid.
  - destruct (py_len ids) as [[|n]| |] eqn:Hlen.
    + left. right. exists ids. cbn [getitem]. now rewrite Hid.
    + right. left. now exists ids, n.
    + right. right. exists ids. split; [reflexivity|]. congruence.
    + right. right. exists ids. split; [reflexivity|]. congruence.
  - left. left. cbn [in_keys]. now rewrite Hid.
Qed.

(** What [key_of] returns, read backwards. *)
Lemma key_of_inv r r' q :
  key_of r = Ok (r', q) ->
  exists rk rt,
    r = JObj rk /\ dict_get (str "resourceType") rk = Some rt
    /\ ((r' = r
         /\ exists first more system value,
              dict_get (str "identifier") rk = Some (JArr (first :: more))
              /\ getitem first (str "system") = Ok system
              /\ getitem first (str "value") = Ok value
              /\ query_term_of rt system value = Ok q)
        \/ (exists rid,
              lacks_identifier r /\ dict_get (str "id") rk = Some rid
              /\ r' = JObj (dict_set (str "identifier") (synthesized rid) rk)
              /\ query_term_of rt (JStr synthea_system) rid = Ok q)).
Proof.
  intro H. destruct r as [| | | | |rk]; try discriminate.
  destruct (dict_get (str "resourceType") rk) as [rt|] eqn:Hrt;
    [|unfold key_of in H; cbn [getitem] in H; rewrite Hrt in H; discriminate].
  exists rk, rt. split; [reflexivity|]. split; [exact Hrt|].
  destruct (identifier_cases rk) as [L|[(ids & n & Hid & Hlen)|(ids & Hid & Hlen)]].
  - right. rewrite (key_of_synthesized rk rt Hrt L) in H. cbn [getitem] in H.
    destruct (dict_get (str "id") rk) as [rid|] eqn:Hrid; [|discriminate].
    cbn [bind] in H.
    destruct (query_term_of rt (JStr synthea_system) rid) as [q'| |] eqn:Hq;
      try discriminate.
    cbn [bind] in H. injection H as <- <-. exists rid. auto.
  - left. rewrite (key_of_existing rk rt ids n Hrt Hid Hlen) in H.
    destruct (getidx ids 0) as [first| |] eqn:Hf; try discriminate.
    cbn [bind] in H.
    destruct (getitem first (str "system")) as [system| |] eqn:Hs; try discriminate.
    cbn [bind] in H.
    destruct (getitem first (str "value")) as [value| |] eqn:Hv; try discriminate.
    cbn [bind] in H.
    destruct (query_term_of rt system value) as [q'| |] eqn:Hq; try discriminate.
    cbn [bind] in H. injection H as <- <-. split; [reflexivity|].
    destruct ids as [| | |s|l|kvs]; try discriminate.
    + cbn [getidx] in Hf. destruct (nth_error s 0); [|discriminate].
      injection Hf as <-. discriminate.
    + destruct l as [|x more]; [discriminate|]. cbn [getidx nth_error] in Hf.
      injection Hf as ->. exists first, more, system, value. auto.
  - exfalso. unfold key_of in H. cbn [getitem in_keys] in H.
    rewrite Hrt, Hid in H. cbn [bind] in H.
    destruct (py_len ids) as [n| |] eqn:E; try discriminate.
    now apply (Hlen n).
Qed.

Lemma key_of_idempotent r r' q : key_of r = Ok (r', q) -> key_of r' = Ok (r', q).
Proof.
  intro H. destruct (key_of_inv r r' q H) as (rk & rt & -> & Hrt & [[-> _]|C]).
  - exact H.
  - destruct C as (rid & _ & Hid & -> & Hq).
    rewrite (key_of_existing _ rt (synthesized rid) 0).
    + cbn [synthesized getidx nth_error bind].
      change (getitem (JObj [(str "system", JStr synthea_system); (str "value", rid)])
                      (str "system")) with (Ok (JStr synthea_system)).
      change (getitem (JObj [(str "system", JStr synthea_system); (str "value", rid)])
                      (str "value")) with (Ok rid).
      cbn [bind]. rewrite Hq. reflexivity.
    + rewrite dict_get_set_other; [exact Hrt | discriminate].
    + apply dict_get_set_same.
    + reflexivity.
Qed.

Lemma entry_step_inv e e' :
  entry_step e = Ok e' ->
  exists ek resource qk r' q,
    e = JObj ek
    /\ dict_get (str "resource") ek = Some resource
    /\ dict_get (str "request") ek = Some (JObj qk)
    /\ key_of resource = Ok (r', q)
    /\ e' = JObj (dict_set (str "resource") r'
                    (dict_set (str "request")
                       (JObj (dict_set (str "ifNoneExist") (JStr q) qk)) ek)).
Proof.
  unfold entry_step. intro H.
  destruct (getitem e (str "resource")) as [resource| |] eqn:Hr; try discriminate.
  cbn [bind] in H.
  destruct (getitem e (str "request")) as [request| |] eqn:Hq; try discriminate.
  cbn [bind] in H.
  destruct (key_of resource) as [[r' q]| |] eqn:Hk; try discriminate.
  cbn [bind] in H.
  destruct request as [| | | | |qk]; try discriminate.
  apply getitem_Ok in Hr as (ek & -> & Hr).
  cbn [getitem] in Hq. destruct (dict_get (str "request") ek) eqn:Hq'; [|discriminate].
  injection Hq as ->.
  cbn [setitem bind] in H. injection H as <-.
  exists ek, resource, qk, r', q. auto.
Qed.

Lemma entry_step_idempotent e e' : entry_step e = Ok e' -> entry_step e' = Ok e'.
Proof.
  intro H. destruct (entry_step_inv e e' H) as (ek & resource & qk & r' & q & -> & Hr & Hq & Hk & ->).
  unfold entry_step. cbn [getitem]. rewrite dict_get_set_same. cbn [bind].
  rewrite dict_get_set_other by discriminate. rewrite dict_get_set_same.
  cbn [bind]. rewrite (key_of_idempotent _ _ _ Hk). cbn [bind setitem].
  rewrite dict_set_idem.
  rewrite (dict_set_same (str "request")).
  - now rewrite dict_set_idem.
  - rewrite dict_get_set_other by discriminate. apply dict_get_set_same.
Qed.

Lemma map_result_idempotent {A} (f : A -> result A) :
  (forall x y, f x = Ok y -> f y = Ok y) ->
  forall l l', map_result f l = Ok l' -> map_result f l' = Ok l'.
Proof.
  intro Hf. induction l as [|x l IH]; intros l' H; cbn [map_result] in H.
  - now injection H as <-.
  - destruct (f x) as [y| |] eqn:Hx; try discriminate. cbn [bind] in H.
    destruct (map_result f l) as [ys| |] eqn:Hl; try discriminate.
    cbn [bind] in H. injection H as <-. cbn [map_result].
    rewrite (Hf _ _ Hx). cbn [bind]. rewrite (IH _ eq_refl). reflexivity.
Qed.

(** C10. The injector is idempotent: on every bundle on which it
    succeeds, a second application succeeds too and leaves the bundle as
    the first left it. *)
Theorem add_if_none_exist_clause_idempotent (p p' : json) :
  add_if_none_exist_clause p = Ok p' ->
  add_if_none_exist_clause p' = Ok p'.
Proof.
  intro H.
  destruct (getitem p (str "entry")) as [entry| |] eqn:He;
    try (unfold add_if_none_exist_clause in H; rewrite He in H; discriminate).
  destruct (getitem_Ok _ _ _ He) as (pk & -> & Hpk).
  destruct entry as [| | |s|es|kvs];
    try (unfold add_if_none_exist_clause in H; rewrite He in H; discriminate).
  - (* a string: only the empty one gets through the loop *)
    unfold add_if_none_exist_clause in H. rewrite He in H.
    cbn [bind py_list] in H. destruct s as [|c s].
    + cbn [map enumerate length seq combine for_each bind setitem] in H.
      rewrite (dict_set_same _ _ _ Hpk) in H. injection H as <-.
      unfold add_if_none_exist_clause. rewrite He.
      cbn [py_list map enumerate length seq combine for_each bind setitem].
      now rewrite (dict_set_same _ _ _ Hpk).
    + discriminate.
  - rewrite (add_if_none_exist_clause_entries _ _ He) in H.
    destruct (map_result entry_step es) as [es'| |] eqn:Hes; try discriminate.
    cbn [bind setitem] in H. injection H as <-.
    rewrite (add_if_none_exist_clause_entries _ es').
    + rewrite (map_result_idempotent _ entry_step_idempotent _ _ Hes).
      cbn [bind setitem]. now rewrite dict_set_idem.
    + cbn [getitem]. now rewrite dict_get_set_same.
  - (* a dict: only the empty one gets through the loop *)
    unfold add_if_none_exist_clause in H. rewrite He in H.
    cbn [bind py_list] in H. destruct kvs as [|kv kvs].
    + cbn [map enumerate length seq combine for_each bind setitem] in H.
      rewrite (dict_set_same _ _ _ Hpk) in H. injection H as <-.
      unfold add_if_none_exist_clause. rewrite He.
      cbn [py_list map enumerate length seq combine for_each bind setitem].
      now rewrite (dict_set_same _ _ _ Hpk).
    + discriminate.
Qed.

Lemma query_term_of_strings rt sys val :
  query_term_of (JStr rt) (JStr sys) (JStr val) = Ok (query_text rt sys val).
Proof. reflexivity. Qed.

Lemma entry_step_injected e e' : injected e e' -> entry_step e = Ok e'.
Proof.
  intros [resource request rt xyz Hr Hq Hrt L Hid ->
         |resource request rt first more sys val Hr Hq Hrt Hids Hs Hv ->].
  - destruct (getitem_Ok _ _ _ Hr) as (ek & -> & Hr').
    destruct (getitem_Ok _ _ _ Hrt) as (rk & -> & Hrt').
    unfold entry_step. rewrite Hr, Hq. cbn [bind].
    rewrite (key_of_synthesized rk (JStr rt) Hrt' L). rewrite Hid. cbn [bind].
    rewrite query_term_of_strings. reflexivity.
  - destruct (getitem_Ok _ _ _ Hr) as (ek & -> & Hr').
    destruct (getitem_Ok _ _ _ Hrt) as (rk & -> & Hrt').
    destruct (getitem_Ok _ _ _ Hids) as (rk' & E & Hids'). injection E as <-.
    unfold entry_step. rewrite Hr, Hq. cbn [bind].
    rewrite (key_of_existing rk (JStr rt) (JArr (first :: more)) (length more)
               Hrt' Hids' eq_refl).
    cbn [getidx nth_error bind]. rewrite Hs, Hv. cbn [bind].
    rewrite query_term_of_strings. cbn [bind setitem with_item].
    rewrite (dict_set_same (str "resource")); [reflexivity|].
    rewrite dict_get_set_other by discriminate. exact Hr'.
Qed.

Lemma entry_step_leaves e e' :
  entry_step e = Ok e' -> has_identifier e' /\ has_query e'.
Proof.
  intro H.
  destruct (entry_step_inv e e' H) as (ek & resource & qk & r' & q & -> & Hr & Hq & Hk & ->).
  split.
  - destruct (key_of_inv _ _ _ Hk) as (rk & rt & -> & Hrt & [[-> C]|C]).
    + destruct C as (first & more & system & value & Hids & _).
      exists (JObj rk), first, more. cbn [getitem].
      rewrite dict_get_set_same, Hids. auto.
    + destruct C as (rid & _ & _ & -> & _).
      exists (JObj (dict_set (str "identifier") (synthesized rid) rk)),
        (JObj [(str "system", JStr synthea_system); (str "value", rid)]), [].
      cbn [getitem]. rewrite !dict_get_set_same. auto.
  - exists (JObj (dict_set (str "ifNoneExist") (JStr q) qk)), q. cbn [getitem].
    rewrite dict_get_set_other by discriminate. rewrite !dict_get_set_same. auto.
Qed.

Lemma map_result_injected es :
  Forall injectable es ->
  exists es', map_result entry_step es = Ok es' /\ Forall2 injected es es'.
Proof.
  induction 1 as [|e es [e' He] _ (es' & IH & F)].
  - exists []. split; [reflexivity | constructor].
  - exists (e' :: es'). cbn [map_result]. rewrite (entry_step_injected _ _ He).
    cbn [bind]. rewrite IH. split; [reflexivity | now constructor].
Qed.

Lemma map_result_leaves {A B} (f : A -> result B) (P : B -> Prop) :
  (forall x y, f x = Ok y -> P y) ->
  forall l l', map_result f l = Ok l' -> length l' = length l /\ Forall P l'.
Proof.
  intro Hf. induction l as [|x l IH]; intros l' H; cbn [map_result] in H.
  - injection H as <-. split; [reflexivity | constructor].
  - destruct (f x) as [y| |] eqn:Hx; try discriminate. cbn [bind] in H.
    destruct (map_result f l) as [ys| |] eqn:Hl; try discriminate.
    cbn [bind] in H. injection H as <-. destruct (IH _ eq_refl) as [L F].
    split; [simpl; now rewrite L | constructor; eauto].
Qed.

(** C5. On a bundle with a list of entries: when every entry has a dict
    request and a resource that either lacks an identifier (or has an
    empty one) and has a string id, or has a list of identifiers whose
    first has string system and value, the injector succeeds and handles
    each entry as [injected] says: it synthesizes the identifier
    [[{system: synthea, value: id}]] and the query
    [<resourceType>?identifier=<synthea>|<id>] in the first case, and in
    the second leaves the resource as it is and builds the query from
    the first identifier.  Whenever the injector succeeds, every entry
    is left with a non-empty identifier list and a string
    [request.ifNoneExist]. *)
Theorem add_if_none_exist_clause_injects (p : json) (es : list json) :
  getitem p (str "entry") = Ok (JArr es) ->
  (Forall injectable es ->
   exists es' p',
     add_if_none_exist_clause p = Ok p'
     /\ setitem p (str "entry") (JArr es') = Ok p'
     /\ Forall2 injected es es')
  /\ (forall p',
        add_if_none_exist_clause p = Ok p' ->
        exists es',
          getitem p' (str "entry") = Ok (JArr es')
          /\ length es' = length es
          /\ Forall has_identifier es' /\ Forall has_query es').
Proof.
  intro He. rewrite (add_if_none_exist_clause_entries _ _ He).
  destruct (getitem_Ok _ _ _ He) as (pk & -> & Hpk). split.
  - intro F. destruct (map_result_injected es F) as (es' & -> & F2).
    exists es', (JObj (dict_set (str "entry") (JArr es') pk)). auto.
  - intros p' H.
    destruct (map_result entry_step es) as [es'| |] eqn:Hes; try discriminate.
    cbn [bind setitem] in H. injection H as <-. exists es'.
    split; [cbn [getitem]; now rewrite dict_get_set_same|].
    destruct (map_result_leaves entry_step has_identifier
                (fun x y H => proj1 (entry_step_leaves x y H)) _ _ Hes) as [L F1].
    destruct (map_result_leaves entry_step has_query
                (fun x y H => proj2 (entry_step_leaves x y H)) _ _ Hes) as [_ F2].
    auto.
Qed.

(** * The pipeline *)

Lemma deref_update {A} (h : list A) r (v v' : A) :
  nth_error h r = Some v -> nth_error (list_update h r v') r = Some v'.
Proof. apply list_update_nth. Qed.

Lemma deref_snoc {A} (h : list A) (v : A) : nth_error (h ++ [v]) (length h) = Some v.
Proof. induction h; simpl; auto. Qed.

Lemma deref_old {A} (h : list A) (v : A) r :
  r < length h -> nth_error (h ++ [v]) r = nth_error h r.
Proof. intro L. now apply nth_error_app1. Qed.

Lemma list_update_length {A} (h : list A) r (v : A) :
  length (list_update h r v) = length h.
Proof. revert r. induction h; intros [|r]; simpl; auto. Qed.

Lemma list_update_other {A} (h : list A) r x (v : A) :
  x <> r -> nth_error (list_update h r v) x = nth_error h x.
Proof.
  revert r x. induction h as [|a h IH]; intros [|r] [|x] N; simpl; auto.
  congruence.
Qed.

Lemma nth_error_length {A} (h : list A) r (v : A) :
  nth_error h r = Some v -> r < length h.
Proof. intro H. apply nth_error_Some. congruence. Qed.

(** The run of [preprocess_payload] on a store, from the runs of the
    transforms on the values. *)
Lemma preprocess_payload_run (h : Obj.store) (r : Obj.ref) (v : json) :
  Obj.deref h r = Some v ->
  Obj.preprocess_payload r h
  = (p1 <- purge_duplicates v ;;
     p2 <- remove_provenance p1 ;;
     p3 <- standardize_references p2 ;;
     p4 <- add_if_none_exist_clause p3 ;;
     Ok (length h, list_update h r p2 ++ [p4])).
Proof.
  intro D. unfold Obj.preprocess_payload.
  unfold Obj.purge_duplicates, Obj.in_place at 1. rewrite D.
  destruct (purge_duplicates v) as [p1| |]; cbn [bind]; try reflexivity.
  unfold Obj.remove_provenance, Obj.in_place at 1. unfold Obj.deref in *.
  rewrite (deref_update _ _ _ _ D).
  destruct (remove_provenance p1) as [p2| |]; cbn [bind]; try reflexivity.
  rewrite list_update_twice.
  unfold Obj.standardize_references, Obj.new_object, Obj.deref.
  rewrite (deref_update _ _ _ _ D).
  destruct (standardize_references p2) as [p3| |]; cbn [bind]; try reflexivity.
  unfold Obj.add_if_none_exist_clause, Obj.in_place, Obj.deref.
  rewrite deref_snoc.
  destruct (add_if_none_exist_clause p3) as [p4| |]; cbn [bind]; try reflexivity.
  rewrite (list_update_app (list_update h r p2) [] p3 p4).
  now rewrite list_update_length.
Qed.

Lemma preprocess_loaded_pipeline payload : preprocess_loaded payload = pipeline payload.
Proof.
  unfold preprocess_loaded, pipeline.
  rewrite (preprocess_payload_run [payload] 0 payload eq_refl).
  destruct (purge_duplicates payload) as [p1| |]; cbn [bind]; try reflexivity.
  destruct (remove_provenance p1) as [p2| |]; cbn [bind]; try reflexivity.
  destruct (standardize_references p2) as [p3| |]; cbn [bind]; try reflexivity.
  destruct (add_if_none_exist_clause p3) as [p4| |]; reflexivity.
Qed.

(** ** Well-formedness along the pipeline *)

Lemma wf_dict_set k v old kvs :
  wf (JObj kvs) = true -> dict_get k kvs = Some old -> wf v = true ->
  wf (JObj (dict_set k v kvs)) = true.
Proof.
  intros W G Wv. cbn [wf] in *. apply andb_true_iff in W as [W1 W2].
  rewrite dict_set_keys by congruence. rewrite W1. cbn [andb].
  clear W1. induction kvs as [|[k' v'] kvs IH]; [discriminate|].
  cbn [dict_get dict_set forallb fst snd] in *.
  apply andb_true_iff in W2 as [Wk W2].
  destruct (str_eqb k k'); [apply andb_true_iff in Wk as [Wk _]|].
  - cbn [forallb fst snd].
    apply andb_true_iff; split; [apply andb_true_iff; split|]; assumption.
  - cbn [forallb fst snd].
    apply andb_true_iff; split; [assumption | now apply IH].
Qed.

Lemma last_with_url_In e es : last_with_url e es -> In e es.
Proof. intros (b & a & -> & _). apply in_app_iff. right. now left. Qed.

Lemma purge_duplicates_built kvs es :
  dict_get (str "entry") kvs = Some (JArr es) ->
  (forall e, In e es -> exists u, getitem e (str "fullUrl") = Ok (JStr u)) ->
  purge_duplicates (JObj kvs)
  = Ok (JObj (dict_set (str "entry") (JArr (map snd (built es []))) kvs)).
Proof.
  intros G U. unfold purge_duplicates. cbn [getitem]. rewrite G.
  cbn [bind py_list]. rewrite (purge_loop_built es [] U). reflexivity.
Qed.

Lemma built_In es e : In e (map snd (built es [])) -> last_with_url e es.
Proof.
  intro H. destruct (built_invariant es) as (_ & _ & L).
  apply in_map_iff in H as (kv & <- & Hkv). rewrite Forall_forall in L. auto.
Qed.

Lemma built_urls es : map full_url (map snd (built es [])) = first_seen (map full_url es).
Proof.
  destruct (built_invariant es) as (_ & U & _). rewrite <- U, map_map. reflexivity.
Qed.

Lemma remove_provenance_kept kvs es :
  wf (JObj kvs) = true ->
  dict_get (str "entry") kvs = Some (JArr es) ->
  (forall e, In e es -> exists t, resource_type e = Ok t) ->
  remove_provenance (JObj kvs)
  = Ok (JObj (dict_set (str "entry") (JArr (filter keep es)) kvs)).
Proof.
  intros W G T. unfold remove_provenance. cbn [getitem]. rewrite G.
  cbn [bind py_list].
  pose proof (strip_loop es []) as L. cbn [app] in L.
  unfold strip_step in L. rewrite L; [reflexivity | | constructor | assumption].
  apply wf_arr. apply (wf_getitem (JObj kvs) (str "entry")); [assumption|].
  cbn [getitem]. now rewrite G.
Qed.

(** ** The normalizer on the fields the other transforms read *)

Lemma getitem_normalize j k v :
  getitem j k = Ok v ->
  getitem (normalize j) k = Ok (normalize_member k (normalize v)).
Proof.
  intro H. apply getitem_Ok in H as (kvs & -> & G).
  rewrite normalize_obj. cbn [getitem]. rewrite dict_get_normalize, G.
  reflexivity.
Qed.

Lemma getitem_normalize_plain j k v :
  is_ref_key k = false -> getitem j k = Ok v ->
  getitem (normalize j) k = Ok (normalize v).
Proof.
  intros K H. rewrite (getitem_normalize _ _ _ H).
  now rewrite normalize_member_quiet by (now left).
Qed.

Lemma getitem_normalize_obj j k kvs :
  getitem j k = Ok (JObj kvs) ->
  getitem (normalize j) k = Ok (JObj (map normalize_kv kvs)).
Proof.
  intro H. rewrite (getitem_normalize _ _ _ H). reflexivity.
Qed.

Lemma in_keys_normalize k j b : in_keys k j = Ok b -> in_keys k (normalize j) = Ok b.
Proof.
  destruct j as [| | | | |kvs]; try discriminate. rewrite normalize_obj.
  cbn [in_keys]. rewrite dict_get_normalize.
  now destruct (dict_get k kvs).
Qed.

Lemma py_len_normalize v n : py_len v = Ok n -> py_len (normalize v) = Ok n.
Proof.
  destruct v as [| | | |l|kvs]; try discriminate; cbn [normalize py_len];
    rewrite ?length_map; auto.
Qed.

Lemma lacks_identifier_normalize r : lacks_identifier r -> lacks_identifier (normalize r).
Proof.
  intros [H|(ids & G & L)].
  - left. now apply in_keys_normalize.
  - right. exists (normalize ids). split.
    + now apply getitem_normalize_plain.
    + now apply py_len_normalize.
Qed.

Lemma injectable_normalize e : injectable e -> injectable (normalize e).
Proof.
  intros [e' [resource request rt xyz Hr Hq Hrt L Hid _
             |resource request rt first more sys val Hr Hq Hrt Hids Hs Hv _]].
  - eexists. eapply injected_synthesized.
    + apply getitem_normalize_plain; [reflexivity | exact Hr].
    + apply getitem_normalize_obj. exact Hq.
    + apply (getitem_normalize_plain _ (str "resourceType") _ eq_refl Hrt).
    + now apply lacks_identifier_normalize.
    + apply (getitem_normalize_plain _ (str "id") _ eq_refl Hid).
    + reflexivity.
  - eexists. eapply injected_existing.
    + apply getitem_normalize_plain; [reflexivity | exact Hr].
    + apply getitem_normalize_obj. exact Hq.
    + apply (getitem_normalize_plain _ (str "resourceType") _ eq_refl Hrt).
    + apply (getitem_normalize_plain _ (str "identifier") _ eq_refl Hids).
    + apply (getitem_normalize_plain _ (str "system") _ eq_refl Hs).
    + apply (getitem_normalize_plain _ (str "value") _ eq_refl Hv).
    + reflexivity.
Qed.

(** ** What the injector leaves alone *)

Lemma get_path_empty v rest : py_len v = Ok 0 -> rest <> [] -> get_path v rest = None.
Proof.
  intros L N. destruct rest as [|st rest]; [congruence|].
  destruct v as [| | |s|l|kvs]; try discriminate; destruct st; try reflexivity.
  - destruct l; [|discriminate]. cbn [get_path]. now destruct i.
  - destruct kvs; [|discriminate]. reflexivity.
Qed.

Lemma entry_step_frame e e' :
  entry_step e = Ok e' ->
  getitem e' (str "fullUrl") = getitem e (str "fullUrl")
  /\ resource_type e' = resource_type e
  /\ (forall path k v,
        k <> str "identifier" \/ path <> [] ->
        get_path e (Key (str "resource") :: path ++ [Key k]) = Some v ->
        get_path e' (Key (str "resource") :: path ++ [Key k]) = Some v).
Proof.
  intro H.
  destruct (entry_step_inv e e' H) as (ek & resource & qk & r' & q & -> & Hr & Hq & Hk & ->).
  split; [|split].
  - cbn [getitem]. now rewrite !dict_get_set_other by discriminate.
  - unfold resource_type. cbn [getitem]. rewrite dict_get_set_same, Hr. cbn [bind].
    destruct (key_of_inv _ _ _ Hk) as (rk & rt & -> & Hrt & [[-> _]|C]);
      [reflexivity|].
    destruct C as (rid & _ & _ & -> & _). cbn [getitem].
    now rewrite dict_get_set_other by discriminate.
  - intros path k v N. cbn [get_path]. rewrite dict_get_set_same, Hr.
    destruct (key_of_inv _ _ _ Hk) as (rk & rt & -> & Hrt & [[-> _]|C]); [auto|].
    destruct C as (rid & L & _ & -> & _).
    destruct path as [|[k0|i] path]; cbn [app get_path]; [| |discriminate].
    + destruct N as [N|N]; [|congruence].
      rewrite dict_get_set_other by congruence. auto.
    + destruct (str_eqb k0 (str "identifier")) eqn:E.
      * apply str_eqb_eq in E as ->. intro G. exfalso.
        destruct (dict_get (str "identifier") rk) as [ids|] eqn:Hids;
          [|discriminate].
        destruct L as [L|(ids' & G' & Len)]; cbn [in_keys getitem] in *.
        -- rewrite Hids in L. discriminate.
        -- rewrite Hids in G'. injection G' as <-.
           rewrite (get_path_empty ids (path ++ [Key k]) Len) in G;
             [discriminate|].
           now destruct path.
      * apply str_eqb_neq in E.
        rewrite dict_get_set_other by congruence. auto.
Qed.

Lemma injectable_resource_type e :
  injectable e -> exists rt, resource_type e = Ok (JStr rt).
Proof.
  intros [e' [resource request rt xyz Hr Hq Hrt L Hid _
             |resource request rt first more sys val Hr Hq Hrt Hids Hs Hv _]];
    exists rt; unfold resource_type; now rewrite Hr.
Qed.

(** One entry through the normalizer and the injector. *)
Lemma entry_processed e u :
  getitem e (str "fullUrl") = Ok (JStr u) -> injectable e ->
  exists e',
    entry_step (normalize e) = Ok e'
    /\ processed e e' /\ is_provenance e' = is_provenance e.
Proof.
  intros Hu Inj.
  destruct (injectable_normalize _ Inj) as [e' He'].
  pose proof (entry_step_injected _ _ He') as Hs.
  destruct (entry_step_frame _ _ Hs) as (Fu & Ft & Fp).
  exists e'. split; [exact Hs|]. split; [split|].
  - unfold full_url. rewrite Fu, Hu.
    now rewrite (getitem_normalize_plain _ (str "fullUrl") _ eq_refl Hu).
  - intros path w x Nw Fw Hx G. apply Fp; [left; discriminate|].
    pose proof (get_path_normalize (Key (str "resource") :: path) _ _ _ G) as GN.
    cbn [app] in GN. rewrite GN.
    cbn [normalize]. unfold normalize_member.
    change (is_ref_key (str "reference")) with true. cbv iota.
    change (w ++ str "/" ++ x) with (w ++ 47%N :: x).
    now rewrite rel_ref_intro.
  - destruct (injectable_resource_type _ Inj) as [rt Hrt].
    unfold is_provenance. rewrite Ft, Hrt.
    unfold resource_type in *.
    destruct (getitem e (str "resource")) as [r| |] eqn:Hr; try discriminate.
    cbn [bind] in Hrt.
    rewrite (getitem_normalize_plain _ (str "resource") _ eq_refl Hr). cbn [bind].
    now rewrite (getitem_normalize_plain _ (str "resourceType") _ eq_refl Hrt).
Qed.

Lemma entries_processed (es : list json) :
  (forall e, In e es -> exists u, getitem e (str "fullUrl") = Ok (JStr u)) ->
  Forall injectable es ->
  exists es',
    map_result entry_step (map normalize es) = Ok es'
    /\ Forall2 processed es es'
    /\ Forall2 (fun e e' => is_provenance e' = is_provenance e) es es'.
Proof.
  induction es as [|e es IH]; intros U F.
  - exists []. repeat split; constructor.
  - apply Forall_cons_iff in F as [Fe F].
    destruct (U e (or_introl eq_refl)) as [u Hu].
    destruct (entry_processed e u Hu Fe) as (e' & Hs & P & Q).
    destruct (IH (fun x Hx => U x (or_intror Hx)) F) as (es' & Hes & Ps & Qs).
    exists (e' :: es'). cbn [map map_result]. rewrite Hs. cbn [bind].
    rewrite Hes. repeat split; now constructor.
Qed.

(** Dropping entries keeps the URLs distinct. *)
Lemma distinct_urls_filter (p : json -> bool) (es : list json) :
  NoDup (map full_url es) -> NoDup (map full_url (filter p es)).
Proof.
  induction es as [|e es IH]; intro N; [constructor|].
  cbn [map filter] in *. apply NoDup_cons_iff in N as [Ne N].
  destruct (p e); [|auto]. cbn [map]. constructor; [|auto].
  intro H. apply Ne. apply in_map_iff in H as (x & E & Hx).
  apply filter_In in Hx as [Hx _]. apply in_map_iff. now exists x.
Qed.

Lemma Forall2_map_eq {A B C} (f : A -> C) (g : B -> C) (l : list A) (l' : list B) :
  Forall2 (fun x y => g y = f x) l l' -> map g l' = map f l.
Proof. induction 1; simpl; congruence. Qed.

Lemma Forall2_Forall_r {A B} (R : A -> B -> Prop) (P : B -> Prop) l l' :
  Forall2 R l l' -> (forall x y, In x l -> R x y -> P y) -> Forall P l'.
Proof.
  induction 1 as [|x y l l' Hxy F IH]; intro H; constructor.
  - apply (H x); [now left | assumption].
  - apply IH. intros a b Ha. apply H. now right.
Qed.

Lemma Forall2_weaken {A B} (R S : A -> B -> Prop) l l' :
  (forall x y, R x y -> S x y) -> Forall2 R l l' -> Forall2 S l l'.
Proof. intros H F. induction F; constructor; auto. Qed.

(** C6. The pipeline is the four transforms in the order purge,
    strip, normalize, inject.  On a well-formed bundle whose entries
    carry a string [fullUrl] and a resource type, and are as the
    injector expects them unless they are Provenance entries, it
    succeeds, and its result has: one entry for each URL of the input
    whose last entry is not a Provenance, in the order of the first
    occurrences; no Provenance entry; each relative reference below a
    resource rewritten to its URN; and in every entry a non-empty
    identifier list and a string [request.ifNoneExist]. *)
Theorem preprocess_payload_pipeline (payload : json) (es : list json) :
  wf payload = true ->
  getitem payload (str "entry") = Ok (JArr es) ->
  (forall e, In e es -> exists u, getitem e (str "fullUrl") = Ok (JStr u)) ->
  (forall e, In e es -> exists t, resource_type e = Ok t) ->
  (forall e, In e es -> is_provenance e = false -> injectable e) ->
  exists p1 p2 p3 p' kept es',
    purge_duplicates payload = Ok p1
    /\ remove_provenance p1 = Ok p2
    /\ standardize_references p2 = Ok p3
    /\ add_if_none_exist_clause p3 = Ok p'
    /\ preprocess_loaded payload = Ok p'
    /\ getitem p' (str "entry") = Ok (JArr es')
    /\ map full_url kept = first_seen (map full_url es)
    /\ (forall e, In e kept -> last_with_url e es)
    /\ Forall2 processed (filter keep kept) es'
    /\ NoDup (map full_url es')
    /\ Forall (fun e => is_provenance e = false) es'
    /\ Forall has_identifier es'
    /\ Forall has_query es'.
Proof.
  intros W G U T F.
  destruct (getitem_Ok _ _ _ G) as (kvs & -> & Gk).
  set (kept := map snd (built es [])).
  assert (forall e, In e kept -> In e es) as Sub
      by (intros e He; apply last_with_url_In; now apply built_In).
  assert (Forall (fun x => wf x = true) es) as Wes
      by (apply wf_arr; exact (wf_getitem _ _ _ W G)).
  (* purge *)
  pose proof (purge_duplicates_built kvs es Gk U) as H1. fold kept in H1.
  set (k1 := dict_set (str "entry") (JArr kept) kvs) in *.
  assert (wf (JObj k1) = true) as W1.
  { apply (wf_dict_set _ _ (JArr es)); auto. cbn [wf].
    apply forallb_forall. intros e He. rewrite Forall_forall in Wes. auto. }
  assert (dict_get (str "entry") k1 = Some (JArr kept)) as G1
      by apply dict_get_set_same.
  (* strip *)
  assert (forall e, In e kept -> exists t, resource_type e = Ok t) as T1
      by (intros e He; auto).
  pose proof (remove_provenance_kept k1 kept W1 G1 T1) as H2.
  set (k2 := dict_set (str "entry") (JArr (filter keep kept)) k1) in *.
  assert (wf (JObj k2) = true) as W2.
  { apply (wf_dict_set _ _ (JArr kept)); auto. cbn [wf].
    apply forallb_forall. intros e He. apply filter_In in He as [He _].
    rewrite Forall_forall in Wes. auto. }
  (* normalize *)
  pose proof (standardize_references_normalize _ W2) as H3.
  assert (getitem (normalize (JObj k2)) (str "entry")
          = Ok (JArr (map normalize (filter keep kept)))) as G3.
  { apply (getitem_normalize_plain (JObj k2) (str "entry")
             (JArr (filter keep kept)) eq_refl).
    cbn [getitem]. unfold k2. now rewrite dict_get_set_same. }
  (* inject *)
  destruct (entries_processed (filter keep kept)) as (es' & Hes & Ps & Qs).
  { intros e He. apply filter_In in He as [He _]. auto. }
  { apply Forall_forall. intros e He. apply filter_In in He as [He K].
    apply F; [auto|]. unfold keep in K. now apply negb_true_iff in K. }
  pose proof (add_if_none_exist_clause_entries _ _ G3) as H4. rewrite Hes in H4.
  destruct (getitem_Ok _ _ _ G3) as (k3 & E3 & Gk3). rewrite E3 in H4.
  cbn [bind setitem] in H4.
  exists (JObj k1), (JObj k2), (normalize (JObj k2)),
    (JObj (dict_set (str "entry") (JArr es') k3)), kept, es'.
  split; [exact H1|]. split; [exact H2|]. split; [exact H3|].
  split; [rewrite E3; exact H4|].
  split.
  { rewrite preprocess_loaded_pipeline. unfold pipeline.
    rewrite H1. cbn [bind]. rewrite H2. cbn [bind]. rewrite H3. cbn [bind].
    rewrite E3. exact H4. }
  split; [cbn [getitem]; now rewrite dict_get_set_same|].
  split; [apply built_urls|].
  split; [intros e He; now apply built_In|].
  split; [exact Ps|].
  split.
  { rewrite (Forall2_map_eq full_url full_url (filter keep kept) es').
    - apply distinct_urls_filter. unfold kept. rewrite built_urls.
      apply first_seen_NoDup.
    - apply (Forall2_weaken processed); [|exact Ps]. now intros x y [E _]. }
  split.
  { apply (Forall2_Forall_r _ _ _ _ Qs). intros x y Hx E. rewrite E.
    apply filter_In in Hx as [_ Hx]. unfold keep in Hx.
    now apply negb_true_iff in Hx. }
  destruct (map_result_leaves entry_step has_identifier
              (fun x y H => proj1 (entry_step_leaves x y H)) _ _ Hes) as [_ F1].
  destruct (map_result_leaves entry_step has_query
              (fun x y H => proj2 (entry_step_leaves x y H)) _ _ Hes) as [_ F2].
  auto.
Qed.

(** ** Which object each transform works on *)

Lemma preprocess_payload_no_rebind_run (h : Obj.store) (r : Obj.ref) (v : json) :
  Obj.deref h r = Some v ->
  Obj.preprocess_payload_no_rebind r h
  = (p1 <- purge_duplicates v ;;
     p2 <- remove_provenance p1 ;;
     p3 <- standardize_references p2 ;;
     p4 <- add_if_none_exist_clause p2 ;;
     Ok (r, list_update h r p4 ++ [p3])).
Proof.
  intro D. unfold Obj.preprocess_payload_no_rebind.
  unfold Obj.purge_duplicates, Obj.in_place at 1. rewrite D.
  destruct (purge_duplicates v) as [p1| |]; cbn [bind]; try reflexivity.
  unfold Obj.remove_provenance, Obj.in_place at 1. unfold Obj.deref in *.
  rewrite (deref_update _ _ _ _ D).
  destruct (remove_provenance p1) as [p2| |]; cbn [bind]; try reflexivity.
  rewrite list_update_twice.
  unfold Obj.standardize_references, Obj.new_object, Obj.deref.
  rewrite (deref_update _ _ _ _ D).
  destruct (standardize_references p2) as [p3| |]; cbn [bind]; try reflexivity.
  unfold Obj.add_if_none_exist_clause, Obj.in_place, Obj.deref.
  assert (r < length (list_update h r p2)) as Lr
      by (rewrite list_update_length; now apply nth_error_length in D).
  rewrite deref_old by exact Lr. rewrite (deref_update _ _ _ _ D).
  destruct (add_if_none_exist_clause p2) as [p4| |]; cbn [bind]; try reflexivity.
  f_equal. f_equal.
  clear - Lr. rewrite list_update_length in Lr. revert r Lr.
  induction h as [|a h IH]; intros [|r] L; simpl in *; try lia; [reflexivity|].
  f_equal. apply IH. lia.
Qed.

(** C9. The normalizer does not touch the object it is given: it adds a
    new object to the store, with the rewritten document, and returns
    the reference to it; every object that was there, the argument
    among them, is as before.  Each of the other three transforms
    changes the object it is given, and nothing else.  So the pipeline
    returns the new object: the one it was called with holds the
    document as the first two transforms left it, and without the
    rebinding the normalized document would be dropped. *)
Theorem standardize_references_returns_new_object
        (h : Obj.store) (r : Obj.ref) (v : json) :
  Obj.deref h r = Some v ->
  (forall v',
      standardize_references v = Ok v' ->
      Obj.standardize_references r h = Ok (length h, h ++ [v'])
      /\ Obj.deref h (length h) = None
      /\ (forall x, x < length h -> Obj.deref (h ++ [v']) x = Obj.deref h x)
      /\ Obj.deref (h ++ [v']) r = Some v
      /\ Obj.deref (h ++ [v']) (length h) = Some v')
  /\ (forall v',
        (purge_duplicates v = Ok v' ->
         Obj.purge_duplicates r h = Ok (tt, list_update h r v'))
        /\ (remove_provenance v = Ok v' ->
            Obj.remove_provenance r h = Ok (tt, list_update h r v'))
        /\ (add_if_none_exist_clause v = Ok v' ->
            Obj.add_if_none_exist_clause r h = Ok (tt, list_update h r v'))
        /\ Obj.deref (list_update h r v') r = Some v'
        /\ length (list_update h r v') = length h
        /\ (forall x, x <> r ->
                      Obj.deref (list_update h r v') x = Obj.deref h x))
  /\ (forall p1 p2 p3 p4,
        purge_duplicates v = Ok p1 -> remove_provenance p1 = Ok p2 ->
        standardize_references p2 = Ok p3 ->
        add_if_none_exist_clause p3 = Ok p4 ->
        Obj.preprocess_payload r h = Ok (length h, list_update h r p2 ++ [p4])
        /\ length h <> r
        /\ Obj.deref (list_update h r p2 ++ [p4]) r = Some p2
        /\ Obj.deref (list_update h r p2 ++ [p4]) (length h) = Some p4
        /\ (forall p4',
              add_if_none_exist_clause p2 = Ok p4' ->
              Obj.preprocess_payload_no_rebind r h
              = Ok (r, list_update h r p4' ++ [p3]))).
Proof.
  intro D. pose proof (nth_error_length _ _ _ D) as Lr. unfold Obj.deref in *.
  split; [|split].
  - intros v' H. split; [|split; [|split; [|split]]].
    + unfold Obj.standardize_references, Obj.new_object, Obj.deref.
      rewrite D, H. reflexivity.
    + apply nth_error_None. lia.
    + intros x Lx. now apply deref_old.
    + rewrite deref_old by exact Lr. exact D.
    + apply deref_snoc.
  - intro v'. repeat split.
    + intro H. unfold Obj.purge_duplicates, Obj.in_place, Obj.deref.
      rewrite D, H. reflexivity.
    + intro H. unfold Obj.remove_provenance, Obj.in_place, Obj.deref.
      rewrite D, H. reflexivity.
    + intro H. unfold Obj.add_if_none_exist_clause, Obj.in_place, Obj.deref.
      rewrite D, H. reflexivity.
    + exact (deref_update _ _ _ _ D).
    + apply list_update_length.
    + intros x N. now apply list_update_other.
  - intros p1 p2 p3 p4 H1 H2 H3 H4. split; [|split; [|split; [|split]]].
    + rewrite (preprocess_payload_run h r v D), H1. cbn [bind].
      rewrite H2. cbn [bind]. rewrite H3. cbn [bind]. rewrite H4. reflexivity.
    + lia.
    + rewrite deref_old by (now rewrite list_update_length).
      exact (deref_update _ _ _ _ D).
    + rewrite <- (list_update_length h r p2). apply deref_snoc.
    + intros p4' H4'.
      rewrite (preprocess_payload_no_rebind_run h r v D), H1. cbn [bind].
      rewrite H2. cbn [bind]. rewrite H3. cbn [bind]. rewrite H4'. reflexivity.
Qed.

(** * The batch uploader *)

Section UploaderFacts.

Variable server : Type.
Variable http_post :
  server -> pystr -> json -> list (pystr * pystr) -> bool * server.
Variable urljoin : pystr -> pystr -> pystr.
Variable read_text : pystr -> result pystr.
Variable glob : pystr -> pystr -> list pystr.
Variable iterdir : pystr -> list pystr.

Ltac run_world := cbn [emit srv trace].
Ltac run_world_everywhere := cbn [emit srv trace] in *.
Ltac run_try := cbn [upload_each_try failed_posts].
Ltac run_try_nil := cbn [upload_each_try map failed_posts].
Ltac run_try_app := cbn [app upload_each_try].
Ltac run_each := cbn [upload_each].
Ltac run_each_app := cbn [app upload_each].
Ltac open_main := unfold main.
Ltac open_main_in H := unfold main in H.
Ltac run_each_in H := cbn [upload_each] in H.
Ltac run_try_in H := cbn [upload_each_try] in H.

Abbreviation world := (world server).
Abbreviation emit := (emit server).
Abbreviation upload_payload := (upload_payload server http_post urljoin read_text).
Abbreviation upload_each := (upload_each server http_post urljoin read_text).
Abbreviation upload_each_try := (upload_each_try server http_post urljoin read_text).
Abbreviation main := (main server http_post urljoin read_text glob iterdir).
Abbreviation hospitals := (hospital_information_payloads glob).
Abbreviation practitioners := (practitioner_information_payloads glob).
Abbreviation patients := (patient_payloads glob iterdir).
Abbreviation prepare := (prepare read_text).

Lemma upload_payload_prepare f fhir (w : world) :
  upload_payload f fhir w
  = match prepare f with
    | Ok payload =>
        let endpoint := urljoin fhir (str "fhir/") in
        let w1 := emit (EvPost endpoint payload) (emit (EvOpen f) w) in
        let '(ok, s) := http_post (srv server w1) endpoint payload HEADERS in
        let w2 := {| srv := s; trace := trace server w1 |} in
        if ok then (Ok tt, w2) else (Raise RequestException, w2)
    | Raise e => (Raise e, emit (EvOpen f) w)
    | Unmodelled => (Unmodelled, emit (EvOpen f) w)
    end.
Proof. reflexivity. Qed.

(** A file that cannot be prepared: nothing is posted. *)
Lemma upload_payload_raises f fhir (w : world) e :
  prepare f = Raise e ->
  upload_payload f fhir w = (Raise e, emit (EvOpen f) w).
Proof. intro H. rewrite upload_payload_prepare, H. reflexivity. Qed.

Lemma upload_payload_posts f fhir (w : world) payload :
  prepare f = Ok payload ->
  exists ok s,
    http_post (srv server w) (urljoin fhir (str "fhir/")) payload HEADERS = (ok, s)
    /\ upload_payload f fhir w
       = (if ok then Ok tt else Raise RequestException,
          {| srv := s;
             trace := trace server w
                      ++ [EvOpen f; EvPost (urljoin fhir (str "fhir/")) payload] |}).
Proof.
  intro H. rewrite upload_payload_prepare, H. run_world.
  destruct (http_post _ _ _ _) as [ok s]. exists ok, s. split; [reflexivity|].
  rewrite <- app_assoc. cbn [app]. now destruct ok.
Qed.

Lemma opened_app t t' : opened (t ++ t') = opened t ++ opened t'.
Proof. apply flat_map_app. Qed.

Lemma printed_app t t' : printed (t ++ t') = printed t ++ printed t'.
Proof. apply flat_map_app. Qed.

Lemma posted_app t t' : posted (t ++ t') = posted t ++ posted t'.
Proof. apply flat_map_app. Qed.

(** The loop of the patient phase on files that can all be prepared:
    it comes to its end whatever the server answers. *)
Lemma upload_each_try_runs (payload_of : pystr -> json) fhir (files : list pystr) :
  forall w : world,
    (forall f, In f files -> prepare f = Ok (payload_of f)) ->
    exists w',
      upload_each_try files fhir w = (Ok tt, w')
      /\ opened (trace server w') = opened (trace server w) ++ files
      /\ posted (trace server w')
         = posted (trace server w)
           ++ map (fun f => (urljoin fhir (str "fhir/"), payload_of f)) files
      /\ printed (trace server w')
         = printed (trace server w)
           ++ map (fun f => str "Failed: " ++ f)
                (failed_posts server http_post (urljoin fhir (str "fhir/"))
                   payload_of files (srv server w)).
Proof.
  induction files as [|f files IH]; intros w P.
  - exists w. run_try_nil.
    now rewrite ?List.app_nil_r.
  - destruct (upload_payload_posts f fhir w _ (P f (or_introl eq_refl)))
      as (ok & s & Hp & Hu).
    run_try. rewrite Hu, Hp.
    destruct ok.
    + destruct (IH {| srv := s;
                      trace := trace server w
                               ++ [EvOpen f;
                                   EvPost (urljoin fhir (str "fhir/")) (payload_of f)] |}
                   (fun g Hg => P g (or_intror Hg)))
        as (w' & Hr & Ho & Hq & Hf).
      exists w'. split; [exact Hr|]. cbn [srv trace] in *.
      rewrite Ho, Hq, Hf, opened_app, posted_app, printed_app.
      cbn [opened posted printed flat_map app map].
      rewrite <- !app_assoc. cbn [app]. now rewrite ?List.app_nil_r.
    + destruct (IH (emit (EvPrint (str "Failed: " ++ f))
                         {| srv := s;
                            trace := trace server w
                                     ++ [EvOpen f;
                                         EvPost (urljoin fhir (str "fhir/"))
                                                (payload_of f)] |})
                   (fun g Hg => P g (or_intror Hg)))
        as (w' & Hr & Ho & Hq & Hf).
      exists w'. split; [exact Hr|]. run_world_everywhere.
      rewrite Ho, Hq, Hf, !opened_app, !posted_app, !printed_app.
      cbn [opened posted printed flat_map app map].
      rewrite <- !app_assoc. cbn [app]. now rewrite ?List.app_nil_r.
Qed.

Lemma upload_each_app (a b : list pystr) fhir : forall w : world,
  upload_each (a ++ b) fhir w
  = match upload_each a fhir w with
    | (Ok _, w1) => upload_each b fhir w1
    | (r, w1) => (r, w1)
    end.
Proof.
  induction a as [|f a IH]; intro w; run_each_app.
  - reflexivity.
  - destruct (upload_payload f fhir w) as [[[]| |] w1]; auto.
Qed.

Lemma upload_each_try_app (a b : list pystr) fhir : forall w : world,
  upload_each_try (a ++ b) fhir w
  = match upload_each_try a fhir w with
    | (Ok _, w1) => upload_each_try b fhir w1
    | (r, w1) => (r, w1)
    end.
Proof.
  induction a as [|f a IH]; intro w; run_try_app.
  - reflexivity.
  - destruct (upload_payload f fhir w) as [[[]|e|] w1]; auto.
    destruct e; auto.
Qed.

(** A file that cannot be prepared stops either loop, unless what it
    raises is a [RequestException]. *)
Lemma upload_each_stops f rest fhir (w : world) e :
  prepare f = Raise e ->
  upload_each (f :: rest) fhir w = (Raise e, emit (EvOpen f) w).
Proof.
  intro H. run_each. now rewrite (upload_payload_raises f fhir w e H).
Qed.

Lemma upload_each_try_stops f rest fhir (w : world) e :
  e <> RequestException -> prepare f = Raise e ->
  upload_each_try (f :: rest) fhir w = (Raise e, emit (EvOpen f) w).
Proof.
  intros N H. run_try.
  rewrite (upload_payload_raises f fhir w e H). destruct e; congruence.
Qed.

(** C7. In the patient phase a failed request is caught file by file:
    the loop prints [Failed: <file>] and goes on with the next file.
    So when the first two phases have gone through and every patient
    file can be read and preprocessed, the run ends normally whatever
    the server answers: every patient file is opened and posted, in
    order, and the lines printed are the [Failed:] lines of the files
    whose request failed. *)
Theorem patient_phase_continues_after_failed_upload
        (payload_of : pystr -> json) folder fhir (w w0 w1 : world) :
  upload_each (hospitals folder) fhir w = (Ok tt, w0) ->
  upload_each (practitioners folder) fhir w0 = (Ok tt, w1) ->
  (forall f, In f (patients folder) -> prepare f = Ok (payload_of f)) ->
  (forall f rest (v v' : world),
      upload_payload f fhir v = (Raise RequestException, v') ->
      upload_each_try (f :: rest) fhir v
      = upload_each_try rest fhir (emit (EvPrint (str "Failed: " ++ f)) v'))
  /\ exists w',
      main folder fhir w = (Ok tt, w')
      /\ opened (trace server w') = opened (trace server w1) ++ patients folder
      /\ posted (trace server w')
         = posted (trace server w1)
           ++ map (fun f => (urljoin fhir (str "fhir/"), payload_of f))
                (patients folder)
      /\ printed (trace server w')
         = printed (trace server w1)
           ++ map (fun f => str "Failed: " ++ f)
                (failed_posts server http_post (urljoin fhir (str "fhir/"))
                   payload_of (patients folder) (srv server w1)).
Proof.
  intros H0 H1 P. split.
  - intros f rest v v' H. run_try. now rewrite H.
  - destruct (upload_each_try_runs payload_of fhir (patients folder) w1 P)
      as (w' & Hr & Ho & Hq & Hf).
    exists w'. split; [|auto].
    open_main. now rewrite H0, H1.
Qed.

(** C8. What the preparation of a file raises, other than a
    [RequestException], ends the run in whichever phase the file
    comes: the file is opened, nothing is posted for it, no later file
    is opened.  A document without [entry], or with an entry without
    [resource], [request] or [resourceType], makes the injector raise
    the [KeyError] of that field. *)
Theorem malformed_input_aborts_every_phase folder fhir f e :
  e <> RequestException ->
  prepare f = Raise e ->
  (forall before after (w w1 : world),
      hospitals folder = before ++ f :: after ->
      upload_each before fhir w = (Ok tt, w1) ->
      main folder fhir w = (Raise e, emit (EvOpen f) w1))
  /\ (forall before after (w w0 w1 : world),
        upload_each (hospitals folder) fhir w = (Ok tt, w0) ->
        practitioners folder = before ++ f :: after ->
        upload_each before fhir w0 = (Ok tt, w1) ->
        main folder fhir w = (Raise e, emit (EvOpen f) w1))
  /\ (forall before after (w w0 w1 w2 : world),
        upload_each (hospitals folder) fhir w = (Ok tt, w0) ->
        upload_each (practitioners folder) fhir w0 = (Ok tt, w1) ->
        patients folder = before ++ f :: after ->
        upload_each_try before fhir w1 = (Ok tt, w2) ->
        main folder fhir w = (Raise e, emit (EvOpen f) w2))
  /\ (forall p,
        getitem p (str "entry") = Raise (KeyError (str "entry")) ->
        add_if_none_exist_clause p = Raise (KeyError (str "entry"))
        /\ preprocess_loaded p = Raise (KeyError (str "entry")))
  /\ (forall p before x after,
        getitem p (str "entry") = Ok (JArr (before ++ x :: after)) ->
        Forall injectable before ->
        (getitem x (str "resource") = Raise (KeyError (str "resource")) ->
         add_if_none_exist_clause p = Raise (KeyError (str "resource")))
        /\ (forall resource,
              getitem x (str "resource") = Ok resource ->
              getitem x (str "request") = Raise (KeyError (str "request")) ->
              add_if_none_exist_clause p = Raise (KeyError (str "request")))
        /\ (forall resource request,
              getitem x (str "resource") = Ok resource ->
              getitem x (str "request") = Ok request ->
              getitem resource (str "resourceType")
              = Raise (KeyError (str "resourceType")) ->
              add_if_none_exist_clause p
              = Raise (KeyError (str "resourceType")))).
Proof.
  intros N H. split; [|split; [|split; [|split]]].
  - intros before after w w1 E H1. open_main.
    rewrite E, upload_each_app, H1, (upload_each_stops f after fhir w1 e H).
    destruct e; reflexivity.
  - intros before after w w0 w1 H0 E H1. open_main.
    rewrite H0, E, upload_each_app, H1, (upload_each_stops f after fhir w1 e H).
    destruct e; reflexivity.
  - intros before after w w0 w1 w2 H0 H1 E H2. open_main.
    rewrite H0, H1, E, upload_each_try_app, H2.
    now apply upload_each_try_stops.
  - intros p Hp. split.
    + unfold add_if_none_exist_clause. now rewrite Hp.
    + rewrite preprocess_loaded_pipeline. unfold pipeline, purge_duplicates.
      now rewrite Hp.
  - intros p before x after Hp F.
    rewrite (add_if_none_exist_clause_entries _ _ Hp).
    assert (forall k, entry_step x = Raise (KeyError k) ->
                      (es' <- map_result entry_step (before ++ x :: after) ;;
                       setitem p (str "entry") (JArr es')) = Raise (KeyError k))
      as Stop.
    { intros k Hx.
      assert (map_result entry_step (before ++ x :: after) = Raise (KeyError k))
        as ->; [|reflexivity].
      clear Hp. induction F as [|b before [b' Hb] _ IH]; cbn [app map_result].
      - now rewrite Hx.
      - rewrite (entry_step_injected _ _ Hb). cbn [bind]. now rewrite IH. }
    split; [|split].
    + intro Hr. apply Stop. unfold entry_step. now rewrite Hr.
    + intros resource Hr Hq. apply Stop. unfold entry_step.
      rewrite Hr. cbn [bind]. now rewrite Hq.
    + intros resource request Hr Hq Ht. apply Stop. unfold entry_step, key_of.
      rewrite Hr. cbn [bind]. rewrite Hq. cbn [bind]. now rewrite Ht.
Qed.

(** ** What the loops open, and what the patient loop never raises *)

Lemma upload_payload_opens f fhir (w : world) :
  opened (trace server (snd (upload_payload f fhir w)))
  = opened (trace server w) ++ [f].
Proof.
  destruct (prepare f) as [payload|e|] eqn:P.
  - destruct (upload_payload_posts f fhir w payload P) as (ok & s & Hp & Hu).
    rewrite Hu. cbn [snd trace]. rewrite opened_app. reflexivity.
  - rewrite (upload_payload_raises f fhir w e P). cbn [snd]. run_world.
    rewrite opened_app. reflexivity.
  - rewrite upload_payload_prepare, P. cbn [snd]. run_world.
    rewrite opened_app. reflexivity.
Qed.

Lemma upload_each_opens (files : list pystr) fhir : forall (w w' : world) r,
  upload_each files fhir w = (r, w') ->
  exists done rest,
    files = done ++ rest
    /\ opened (trace server w') = opened (trace server w) ++ done
    /\ (r = Ok tt -> rest = []).
Proof.
  induction files as [|f files IH]; intros w w' r H; run_each_in H.
  - injection H as <- <-. exists [], [].
    repeat split; rewrite ?List.app_nil_r; auto.
  - pose proof (upload_payload_opens f fhir w) as O.
    destruct (upload_payload f fhir w) as [[[]|e|] w1] eqn:U; cbn [snd] in O.
    + destruct (IH _ _ _ H) as (done & rest & -> & Ho & Hr).
      exists (f :: done), rest. rewrite Ho, O, <- app_assoc. auto.
    + injection H as <- <-. exists [f], files. rewrite O. repeat split.
      discriminate.
    + injection H as <- <-. exists [f], files. rewrite O. repeat split.
      discriminate.
Qed.

Lemma upload_each_try_opens (files : list pystr) fhir : forall (w w' : world) r,
  upload_each_try files fhir w = (r, w') ->
  exists done rest,
    files = done ++ rest
    /\ opened (trace server w') = opened (trace server w) ++ done
    /\ (r = Ok tt -> rest = [])
    /\ r <> Raise RequestException.
Proof.
  induction files as [|f files IH]; intros w w' r H; run_try_in H.
  - injection H as <- <-. exists [], [].
    repeat split; rewrite ?List.app_nil_r; auto. discriminate.
  - pose proof (upload_payload_opens f fhir w) as O.
    destruct (upload_payload f fhir w) as [[[]|e|] w1] eqn:U; cbn [snd] in O.
    + destruct (IH _ _ _ H) as (done & rest & -> & Ho & Hr).
      exists (f :: done), rest. rewrite Ho, O, <- app_assoc. auto.
    + assert (e = RequestException
              /\ upload_each_try files fhir
                   (emit (EvPrint (str "Failed: " ++ f)) w1) = (r, w')
              \/ e <> RequestException /\ (Raise e, w1) = (r, w')) as [[-> H']|[N H']]
          by (destruct e; auto; right; split; auto; discriminate).
      * destruct (IH _ _ _ H') as (done & rest & -> & Ho & Hr).
        exists (f :: done), rest. rewrite Ho. run_world. rewrite opened_app, O.
        cbn [opened flat_map app]. rewrite List.app_nil_r, <- app_assoc. auto.
      * injection H' as <- <-. exists [f], files. rewrite O.
        repeat split; [discriminate | congruence].
    + injection H as <- <-. exists [f], files. rewrite O.
      repeat split; discriminate.
Qed.

(** X12. Whatever the outcome of the run, the files are opened in the fixed
    order hospitals, practitioners, patients, each once, up to the file
    the run ends at; a run that ends normally has opened them all. *)
Theorem main_opens_files_in_phase_order folder fhir (w w' : world) r :
  main folder fhir w = (r, w') ->
  exists done rest,
    hospitals folder ++ practitioners folder ++ patients folder = done ++ rest
    /\ opened (trace server w') = opened (trace server w) ++ done
    /\ (r = Ok tt -> rest = []).
Proof.
  intro H. open_main_in H.
  destruct (upload_each (hospitals folder) fhir w) as [r0 w0] eqn:H0.
  destruct (upload_each_opens _ _ _ _ _ H0) as (d0 & t0 & E0 & O0 & R0).
  assert (r0 = Ok tt \/ r0 <> Ok tt /\ (r, w') = (r0, w0)) as [->|[N0 E]].
  { destruct r0 as [[]| |]; auto; right; split; try discriminate; now symmetry. }
  - rewrite (R0 eq_refl), List.app_nil_r in E0.
    destruct (upload_each (practitioners folder) fhir w0) as [r1 w1] eqn:H1.
    destruct (upload_each_opens _ _ _ _ _ H1) as (d1 & t1 & E1 & O1 & R1).
    assert (r1 = Ok tt \/ r1 <> Ok tt /\ (r, w') = (r1, w1)) as [->|[N1 E]].
    { destruct r1 as [[]| |]; auto; right; split; try discriminate; now symmetry. }
    + rewrite (R1 eq_refl), List.app_nil_r in E1.
      destruct (upload_each_try_opens _ _ _ _ _ H) as (d2 & t2 & E2 & O2 & R2 & _).
      exists (d0 ++ d1 ++ d2), t2. rewrite E0, E1, E2, O2, O1, O0.
      rewrite <- !app_assoc. auto.
    + injection E as -> ->.
      exists (d0 ++ d1), (t1 ++ patients folder). rewrite E0, E1, O1, O0.
      rewrite <- !app_assoc. repeat split. intro; contradiction.
  - injection E as -> ->.
    exists d0, (t0 ++ practitioners folder ++ patients folder).
    rewrite E0, O0, <- !app_assoc. repeat split. intro; contradiction.
Qed.

(** X13. A failed request is fatal in the first two phases: the run ends at
    that file with the [RequestException], and no patient file is
    opened.  Once the two phases are through, the run cannot end with a
    [RequestException] any more. *)
Theorem request_failure_aborts_hospital_and_practitioner_phases
        folder fhir f payload :
  prepare f = Ok payload ->
  (forall before after (w w1 : world),
      hospitals folder = before ++ f :: after ->
      upload_each before fhir w = (Ok tt, w1) ->
      fst (http_post (srv server w1) (urljoin fhir (str "fhir/")) payload HEADERS)
      = false ->
      exists w',
        main folder fhir w = (Raise RequestException, w')
        /\ opened (trace server w') = opened (trace server w1) ++ [f])
  /\ (forall before after (w w0 w1 : world),
        upload_each (hospitals folder) fhir w = (Ok tt, w0) ->
        practitioners folder = before ++ f :: after ->
        upload_each before fhir w0 = (Ok tt, w1) ->
        fst (http_post (srv server w1) (urljoin fhir (str "fhir/")) payload HEADERS)
        = false ->
        exists w',
          main folder fhir w = (Raise RequestException, w')
          /\ opened (trace server w') = opened (trace server w1) ++ [f])
  /\ (forall (w w0 w1 : world),
        upload_each (hospitals folder) fhir w = (Ok tt, w0) ->
        upload_each (practitioners folder) fhir w0 = (Ok tt, w1) ->
        fst (main folder fhir w) <> Raise RequestException).
Proof.
  intro P.
  assert (forall after (w1 : world),
             fst (http_post (srv server w1) (urljoin fhir (str "fhir/")) payload HEADERS)
             = false ->
             exists w',
               upload_each (f :: after) fhir w1 = (Raise RequestException, w')
               /\ opened (trace server w') = opened (trace server w1) ++ [f]) as Fail.
  { intros after w1 Hp. run_each.
    pose proof (upload_payload_opens f fhir w1) as O.
    destruct (upload_payload_posts f fhir w1 payload P) as (ok & s & Hq & Hu).
    rewrite Hq in Hp. cbn [fst] in Hp. subst ok. rewrite Hu in *.
    eexists. split; [reflexivity | exact O]. }
  split; [|split].
  - intros before after w w1 E H1 Hp.
    destruct (Fail after w1 Hp) as (w' & Hf & Ho). exists w'. split; [|exact Ho].
    open_main. now rewrite E, upload_each_app, H1, Hf.
  - intros before after w w0 w1 H0 E H1 Hp.
    destruct (Fail after w1 Hp) as (w' & Hf & Ho). exists w'. split; [|exact Ho].
    open_main. now rewrite H0, E, upload_each_app, H1, Hf.
  - intros w w0 w1 H0 H1. open_main. rewrite H0, H1.
    destruct (upload_each_try (patients folder) fhir w1) as [r w'] eqn:H.
    now destruct (upload_each_try_opens _ _ _ _ _ H) as (_ & _ & _ & _ & _ & N).
Qed.

End UploaderFacts.

(** * A bundle and a folder to run the statements on *)

(** * The statements on the bundle and on the folder *)

Lemma scenario_urls e :
  In e scenario_entries -> exists u, getitem e (str "fullUrl") = Ok (JStr u).
Proof. intros [<-|[<-|[<-|[<-|[]]]]]; eexists; reflexivity. Qed.

Lemma scenario_types e :
  In e scenario_entries -> exists t, resource_type e = Ok t.
Proof. intros [<-|[<-|[<-|[<-|[]]]]]; eexists; reflexivity. Qed.

Lemma patient_injectable g : injectable (patient_entry g).
Proof.
  eexists. eapply injected_synthesized; try reflexivity. left. reflexivity.
Qed.

Lemma provenance_injectable : injectable provenance_entry.
Proof.
  eexists. eapply injected_synthesized; try reflexivity. left. reflexivity.
Qed.

Lemma observation_injectable : injectable observation_entry.
Proof. eexists. eapply injected_existing; reflexivity. Qed.

Lemma scenario_injectable : Forall injectable scenario_entries.
Proof.
  repeat constructor;
    auto using patient_injectable, provenance_injectable, observation_injectable.
Qed.

Lemma purge_duplicates_last_wins_first_position_witness :
  getitem scenario_bundle (str "entry") = Ok (JArr scenario_entries)
  /\ exists kept d',
      purge_duplicates scenario_bundle = Ok d'
      /\ setitem scenario_bundle (str "entry") (JArr kept) = Ok d'
      /\ map full_url kept = first_seen (map full_url scenario_entries)
      /\ NoDup (map full_url kept)
      /\ (forall u, In u (map full_url kept)
                    <-> In u (map full_url scenario_entries))
      /\ (forall e, In e kept -> last_with_url e scenario_entries).
Proof.
  split; [reflexivity|].
  apply (purge_duplicates_last_wins_first_position
           scenario_bundle scenario_entries eq_refl scenario_urls).
Defined.

Lemma purge_duplicates_idempotent_witness :
  purge_duplicates scenario_bundle
  = Ok (bundle_of [patient_entry (str "female"); provenance_entry;
                   observation_entry])
  /\ purge_duplicates (bundle_of [patient_entry (str "female"); provenance_entry;
                                  observation_entry])
     = Ok (bundle_of [patient_entry (str "female"); provenance_entry;
                      observation_entry]).
Proof.
  split; [vm_compute; reflexivity|].
  apply (purge_duplicates_idempotent scenario_bundle). vm_compute. reflexivity.
Defined.

Lemma remove_provenance_filters_witness :
  wf scenario_bundle = true
  /\ getitem scenario_bundle (str "entry") = Ok (JArr scenario_entries)
  /\ exists p',
      remove_provenance scenario_bundle = Ok p'
      /\ setitem scenario_bundle (str "entry")
           (JArr (filter keep scenario_entries)) = Ok p'
      /\ Forall (fun e => is_provenance e = false) (filter keep scenario_entries)
      /\ (forall e, In e (filter keep scenario_entries)
                    <-> In e scenario_entries /\ is_provenance e = false).
Proof.
  split; [vm_compute; reflexivity|]. split; [reflexivity|].
  apply (remove_provenance_filters scenario_bundle scenario_entries);
    [vm_compute; reflexivity | reflexivity | exact scenario_types].
Defined.

Lemma standardize_references_rewrites_relative_references_witness :
  wf scenario_bundle = true
  /\ exists p',
      standardize_references scenario_bundle = Ok p'
      /\ (forall path w u,
            w <> [] -> forallb cls_word w = true -> is_uuid u = true ->
            get_path scenario_bundle (path ++ [Key (str "reference")])
            = Some (JStr (w ++ str "/" ++ u)) ->
            get_path p' (path ++ [Key (str "reference")])
            = Some (JStr (str "urn:uuid:" ++ u)))
      /\ (forall path s,
            get_path scenario_bundle (path ++ [Key (str "reference")])
            = Some (JStr s) ->
            (forall w u, w <> [] -> forallb cls_word w = true ->
                         is_uuid u = true -> s <> w ++ str "/" ++ u) ->
            get_path p' (path ++ [Key (str "reference")]) = Some (JStr s)).
Proof.
  split; [vm_compute; reflexivity|].
  apply (standardize_references_rewrites_relative_references scenario_bundle).
  vm_compute. reflexivity.
Defined.

Lemma add_if_none_exist_clause_injects_witness :
  getitem scenario_bundle (str "entry") = Ok (JArr scenario_entries)
  /\ Forall injectable scenario_entries
  /\ exists es' p',
      add_if_none_exist_clause scenario_bundle = Ok p'
      /\ setitem scenario_bundle (str "entry") (JArr es') = Ok p'
      /\ Forall2 injected scenario_entries es'.
Proof.
  split; [reflexivity|]. split; [exact scenario_injectable|].
  exact (proj1 (add_if_none_exist_clause_injects
                  scenario_bundle scenario_entries eq_refl)
               scenario_injectable).
Defined.

Lemma preprocess_payload_pipeline_witness :
  wf scenario_bundle = true
  /\ getitem scenario_bundle (str "entry") = Ok (JArr scenario_entries)
  /\ exists p1 p2 p3 p' kept es',
      purge_duplicates scenario_bundle = Ok p1
      /\ remove_provenance p1 = Ok p2
      /\ standardize_references p2 = Ok p3
      /\ add_if_none_exist_clause p3 = Ok p'
      /\ preprocess_loaded scenario_bundle = Ok p'
      /\ getitem p' (str "entry") = Ok (JArr es')
      /\ map full_url kept = first_seen (map full_url scenario_entries)
      /\ (forall e, In e kept -> last_with_url e scenario_entries)
      /\ Forall2 processed (filter keep kept) es'
      /\ NoDup (map full_url es')
      /\ Forall (fun e => is_provenance e = false) es'
      /\ Forall has_identifier es'
      /\ Forall has_query es'.
Proof.
  split; [vm_compute; reflexivity|]. split; [reflexivity|].
  apply (preprocess_payload_pipeline scenario_bundle scenario_entries).
  - vm_compute. reflexivity.
  - reflexivity.
  - exact scenario_urls.
  - exact scenario_types.
  - intros e He _. pose proof scenario_injectable as F.
    rewrite Forall_forall in F. now apply F.
Defined.

Lemma folder_prepared f :
  In f (patient_payloads no_glob folder_list (str "mcode")) ->
  prepare folder_text f = Ok loaded_payload.
Proof.
  intro Hf. vm_compute in Hf.
  destruct Hf as [<-|[<-|[<-|[]]]]; vm_compute; reflexivity.
Qed.

Lemma patient_phase_continues_after_failed_upload_witness :
  patient_payloads no_glob folder_list (str "mcode") = [file_a; file_b; file_c]
  /\ exists w',
      main nat refuse_second join_text folder_text no_glob folder_list
           (str "mcode") fhir_url fresh_world = (Ok tt, w')
      /\ opened (trace nat w') = [file_a; file_b; file_c]
      /\ printed (trace nat w') = [str "Failed: " ++ file_b].
Proof.
  split; [vm_compute; reflexivity|].
  destruct (patient_phase_continues_after_failed_upload
              nat refuse_second join_text folder_text no_glob folder_list
              (fun _ => loaded_payload) (str "mcode") fhir_url
              fresh_world fresh_world fresh_world eq_refl eq_refl folder_prepared)
    as [_ (w' & Hm & Ho & _ & Hp)].
  exists w'. split; [exact Hm|]. split; [exact Ho | exact Hp].
Defined.

Lemma malformed_input_aborts_every_phase_witness :
  prepare broken_text file_b = Raise (KeyError (str "request"))
  /\ upload_each_try nat refuse_second join_text broken_text
       [file_a] fhir_url fresh_world = (Ok tt, after_first_file)
  /\ main nat refuse_second join_text broken_text no_glob folder_list
          (str "mcode") fhir_url fresh_world
     = (Raise (KeyError (str "request")), emit nat (EvOpen file_b) after_first_file).
Proof.
  assert (prepare broken_text file_b = Raise (KeyError (str "request"))) as H
      by (vm_compute; reflexivity).
  assert (upload_each_try nat refuse_second join_text broken_text
            [file_a] fhir_url fresh_world = (Ok tt, after_first_file)) as H2
      by (vm_compute; reflexivity).
  split; [exact H|]. split; [exact H2|].
  assert (KeyError (str "request") <> RequestException) as N by discriminate.
  destruct (malformed_input_aborts_every_phase
              nat refuse_second join_text broken_text no_glob folder_list
              (str "mcode") fhir_url file_b (KeyError (str "request")) N H)
    as (_ & _ & P & _).
  apply (P [file_a] [file_c] fresh_world fresh_world fresh_world after_first_file);
    [reflexivity | reflexivity | vm_compute; reflexivity | exact H2].
Defined.

Lemma standardize_references_returns_new_object_witness :
  Obj.deref [scenario_bundle] 0 = Some scenario_bundle
  /\ standardize_references scenario_bundle = Ok (normalize scenario_bundle)
  /\ Obj.standardize_references 0 [scenario_bundle]
     = Ok (1, [scenario_bundle; normalize scenario_bundle])
  /\ Obj.deref [scenario_bundle; normalize scenario_bundle] 0
     = Some scenario_bundle.
Proof.
  assert (standardize_references scenario_bundle = Ok (normalize scenario_bundle))
    as H by (vm_compute; reflexivity).
  split; [reflexivity|]. split; [exact H|].
  destruct (standardize_references_returns_new_object
              [scenario_bundle] 0 scenario_bundle eq_refl) as [S _].
  destruct (S (normalize scenario_bundle) H) as (S1 & _ & _ & S4 & _).
  split; [exact S1 | exact S4].
Defined.

Lemma add_if_none_exist_clause_idempotent_witness :
  add_if_none_exist_clause scenario_bundle = Ok keyed_bundle
  /\ add_if_none_exist_clause keyed_bundle = Ok keyed_bundle.
Proof.
  split; [vm_compute; reflexivity|].
  apply (add_if_none_exist_clause_idempotent scenario_bundle).
  vm_compute. reflexivity.
Defined.

(** * Further properties of the transforms *)

(** ** The duplicate purger *)

Lemma built_distinct (es : list json) :
  NoDup (map full_url es) -> map snd (built es []) = es.
Proof.
  induction es as [|e es IH] using rev_ind; intro N; [reflexivity|].
  rewrite map_app in N. cbn [map] in N.
  pose proof (NoDup_remove_2 _ _ _ N) as Ne. rewrite List.app_nil_r in Ne.
  pose proof (NoDup_remove_1 _ _ _ N) as N'. rewrite List.app_nil_r in N'.
  destruct (built_invariant es) as (K & U & _).
  rewrite built_snoc, kdict_set_new; auto.
  - rewrite map_app, IH by assumption. reflexivity.
  - rewrite U. now rewrite first_seen_In.
Qed.

(** X1. Entries whose URLs are distinct already: the purger changes
    nothing. *)
Theorem purge_duplicates_keeps_distinct_entries (d : json) (es : list json) :
  getitem d (str "entry") = Ok (JArr es) ->
  (forall e, In e es -> exists u, getitem e (str "fullUrl") = Ok (JStr u)) ->
  NoDup (map full_url es) ->
  purge_duplicates d = Ok d.
Proof.
  intros G U N. destruct (getitem_Ok _ _ _ G) as (kvs & -> & Gk).
  rewrite (purge_duplicates_built kvs es Gk U), (built_distinct es N).
  now rewrite (dict_set_same _ _ _ Gk).
Qed.

Lemma purge_loop_stops (before : list json) e after err : forall acc,
  (forall x, In x before ->
             exists k, getitem x (str "fullUrl") = Ok k /\ hashable k = Ok tt) ->
  purge_step e (fold_left (fun acc x => kdict_set (own_key x) x acc) before acc)
  = Raise err ->
  for_each (before ++ e :: after) acc purge_step = Raise err.
Proof.
  induction before as [|x before IH]; intros acc H He; cbn [app for_each].
  - cbn [fold_left] in He. now rewrite He.
  - destruct (H x (or_introl eq_refl)) as (k & Hk & Hh).
    unfold purge_step at 1. rewrite Hk. cbn [bind]. rewrite Hh. cbn [bind].
    apply IH; [intros y Hy; apply H; now right|].
    cbn [fold_left] in He. unfold own_key in He at 2. now rewrite Hk in He.
Qed.

(** X2. The first entry without [fullUrl], or with a list or a dict as
    [fullUrl], makes the purger raise: [KeyError] in the first case,
    [TypeError] (unhashable) in the second, whatever the entries after
    it are. *)
Theorem purge_duplicates_raises_on_first_bad_entry
        (d : json) (before : list json) (e : json) (after : list json) :
  getitem d (str "entry") = Ok (JArr (before ++ e :: after)) ->
  (forall x, In x before ->
             exists k, getitem x (str "fullUrl") = Ok k /\ hashable k = Ok tt) ->
  (getitem e (str "fullUrl") = Raise (KeyError (str "fullUrl")) ->
   purge_duplicates d = Raise (KeyError (str "fullUrl")))
  /\ (forall k, getitem e (str "fullUrl") = Ok k -> hashable k = Raise TypeError ->
                purge_duplicates d = Raise TypeError).
Proof.
  intros G H. split.
  - intro He. unfold purge_duplicates. rewrite G. cbn [bind py_list].
    change (fun each acc => k <- getitem each (str "fullUrl") ;;
                            _ <- hashable k ;; Ok (kdict_set k each acc))
      with purge_step.
    rewrite (purge_loop_stops before e after (KeyError (str "fullUrl")));
      [reflexivity | exact H |].
    unfold purge_step. now rewrite He.
  - intros k He Hk. unfold purge_duplicates. rewrite G. cbn [bind py_list].
    change (fun each acc => k <- getitem each (str "fullUrl") ;;
                            _ <- hashable k ;; Ok (kdict_set k each acc))
      with purge_step.
    rewrite (purge_loop_stops before e after TypeError);
      [reflexivity | exact H |].
    unfold purge_step. rewrite He. cbn [bind]. now rewrite Hk.
Qed.

(** ** The provenance stripper *)

Lemma filter_keep_twice (es : list json) : filter keep (filter keep es) = filter keep es.
Proof.
  induction es as [|e es IH]; [reflexivity|]. cbn [filter].
  destruct (keep e) eqn:K; [|exact IH]. cbn [filter]. now rewrite K, IH.
Qed.

Lemma filter_keep_all (es : list json) :
  Forall (fun e => is_provenance e = false) es -> filter keep es = es.
Proof.
  induction 1 as [|e es He _ IH]; [reflexivity|]. cbn [filter].
  unfold keep at 1. rewrite He. cbn [negb]. now rewrite IH.
Qed.

(** X3. Stripping twice is stripping once, and a bundle without Provenance
    entries is left as it is. *)
Theorem remove_provenance_idempotent (p : json) (es : list json) :
  wf p = true ->
  getitem p (str "entry") = Ok (JArr es) ->
  (forall e, In e es -> exists t, resource_type e = Ok t) ->
  exists p',
    remove_provenance p = Ok p'
    /\ remove_provenance p' = Ok p'
    /\ (Forall (fun e => is_provenance e = false) es -> p' = p).
Proof.
  intros W G T. destruct (getitem_Ok _ _ _ G) as (kvs & -> & Gk).
  exists (JObj (dict_set (str "entry") (JArr (filter keep es)) kvs)).
  assert (wf (JArr (filter keep es)) = true) as Wf.
  { cbn [wf]. apply forallb_forall. intros e He. apply filter_In in He as [He _].
    pose proof (wf_arr _ (wf_getitem _ _ _ W G)) as Wes.
    rewrite Forall_forall in Wes. auto. }
  split; [|split].
  - now apply remove_provenance_kept.
  - rewrite (remove_provenance_kept _ (filter keep es)).
    + now rewrite filter_keep_twice, dict_set_idem.
    + now apply (wf_dict_set _ _ (JArr es)).
    + apply dict_get_set_same.
    + intros e He. apply filter_In in He as [He _]. auto.
  - intro F. rewrite (filter_keep_all es F). now rewrite (dict_set_same _ _ _ Gk).
Qed.

Lemma strip_loop_prefix (todo rest : list json) : forall done,
  Forall (fun x => wf x = true) (done ++ todo) ->
  Forall (fun x => is_provenance x = false) done ->
  (forall e, In e todo -> exists t, resource_type e = Ok t) ->
  for_each (todo ++ rest) (JArr (done ++ todo ++ rest)) strip_step
  = for_each rest (JArr (done ++ filter keep todo ++ rest)) strip_step.
Proof.
  induction todo as [|e todo IH]; intros done W K T; cbn [app for_each filter];
    [reflexivity|].
  rewrite strip_step_spec by (apply T; now left).
  assert (wf e = true) as We.
  { rewrite Forall_forall in W. apply W. apply in_app_iff. right. now left. }
  unfold keep at 1. destruct (is_provenance e) eqn:P; cbn [negb].
  - unfold list_remove.
    rewrite (remove_first_kept done (todo ++ rest) e); auto.
    + cbn [bind]. apply IH; auto.
      * apply Forall_app in W as [W1 W2]. apply Forall_cons_iff in W2 as [_ W2].
        apply Forall_app. now split.
      * intros e' He'. apply T. now right.
    + now apply Forall_app in W as [W1 _].
  - cbn [bind]. specialize (IH (done ++ [e])).
    rewrite <- !app_assoc in IH. cbn [app] in IH. apply IH.
    + assumption.
    + apply Forall_app. split; [assumption | now repeat constructor].
    + intros e' He'. apply T. now right.
Qed.

(** X4. The first entry without [resource], or whose resource has no
    [resourceType], makes the stripper raise the [KeyError] of that
    field, whatever the entries after it are. *)
Theorem remove_provenance_raises_on_first_bad_entry
        (p : json) (before : list json) (e : json) (after : list json) :
  wf p = true ->
  getitem p (str "entry") = Ok (JArr (before ++ e :: after)) ->
  (forall x, In x before -> exists t, resource_type x = Ok t) ->
  (getitem e (str "resource") = Raise (KeyError (str "resource")) ->
   remove_provenance p = Raise (KeyError (str "resource")))
  /\ (forall resource,
        getitem e (str "resource") = Ok resource ->
        getitem resource (str "resourceType")
        = Raise (KeyError (str "resourceType")) ->
        remove_provenance p = Raise (KeyError (str "resourceType"))).
Proof.
  intros W G T.
  assert (forall err, strip_step e (JArr (filter keep before ++ e :: after)) = Raise err ->
                      remove_provenance p = Raise err) as Stop.
  { intros err He. unfold remove_provenance. rewrite G. cbn [bind py_list].
    change (fun e entry =>
              resource <- getitem e (str "resource") ;;
              resource_type <- getitem resource (str "resourceType") ;;
              if py_eq resource_type (JStr (str "Provenance"))
              then list_remove entry e else Ok entry) with strip_step.
    pose proof (strip_loop_prefix before (e :: after) []) as L.
    cbn [app] in L. rewrite L; [|  | constructor | exact T].
    - cbn [for_each]. now rewrite He.
    - pose proof (wf_arr _ (wf_getitem _ _ _ W G)) as Wes.
      now apply Forall_app in Wes as [Wes _]. }
  split.
  - intro He. apply Stop. unfold strip_step. now rewrite He.
  - intros resource Hr Ht. apply Stop. unfold strip_step. rewrite Hr. cbn [bind].
    now rewrite Ht.
Qed.

(** ** The reference normalizer *)

Lemma ends_quote_ref_spec k :
  ends_quote_ref k = true <-> exists prefix, k = prefix ++ 34%N :: REF.
Proof.
  induction k as [|c k IH]; cbn [ends_quote_ref].
  - split; [discriminate|]. intros [[|x prefix] E]; discriminate.
  - rewrite orb_true_iff, andb_true_iff, IH, N.eqb_eq, str_eqb_eq. split.
    + intros [[-> ->]|[prefix ->]]; [now exists [] | now exists (c :: prefix)].
    + intros [[|x prefix] E]; cbn [app] in E; injection E as -> ->.
      * now left.
      * right. now exists prefix.
Qed.

Lemma is_ref_key_spec k :
  is_ref_key k = true
  <-> k = str "reference" \/ exists prefix, k = prefix ++ 34%N :: str "reference".
Proof.
  unfold is_ref_key. rewrite orb_true_iff, str_eqb_eq, ends_quote_ref_spec.
  reflexivity.
Qed.

Lemma get_path_normalize_idx (path : list step) : forall p i v,
  get_path p (path ++ [Idx i]) = Some v ->
  get_path (normalize p) (path ++ [Idx i]) = Some (normalize v).
Proof.
  induction path as [|st path IH]; intros p i v H.
  - cbn [app get_path] in *. destruct p as [| | | |l|]; try discriminate.
    cbn [normalize]. rewrite nth_error_map.
    destruct (nth_error l i) as [x|]; [|discriminate].
    injection H as ->. reflexivity.
  - cbn [app] in *. destruct st as [k0|i0]; cbn [get_path] in *.
    + destruct p as [| | | | |kvs]; try discriminate.
      rewrite normalize_obj, dict_get_normalize.
      destruct (dict_get k0 kvs) as [x|]; [|discriminate]. cbn [option_map].
      assert (forall s, x <> JStr s) as Nx.
      { destruct path; eapply get_path_container; exact H. }
      rewrite normalize_member_quiet
        by (right; left; now apply normalize_not_str).
      now apply IH.
    + destruct p as [| | | |l|]; try discriminate. cbn [normalize].
      rewrite nth_error_map.
      destruct (nth_error l i0) as [x|]; [|discriminate]. cbn [option_map].
      now apply IH.
Qed.

(** X5. Which strings the normalizer rewrites.  The pattern is not anchored
    at the start of the key: the keys it fires on are [reference] and
    every key that ends in a double quote followed by [reference].  A
    string under such a key is rewritten when it is a relative
    reference, a string under any other key is left alone, and so is a
    string that is an element of a list. *)
Theorem standardize_references_fires_on_keys_ending_in_reference (p : json) :
  wf p = true ->
  exists p',
    standardize_references p = Ok p'
    /\ (forall path prefix w u,
          w <> [] -> forallb cls_word w = true -> is_uuid u = true ->
          get_path p (path ++ [Key (prefix ++ 34%N :: str "reference")])
          = Some (JStr (w ++ str "/" ++ u)) ->
          get_path p' (path ++ [Key (prefix ++ 34%N :: str "reference")])
          = Some (JStr (str "urn:uuid:" ++ u)))
    /\ (forall path k s,
          k <> str "reference" ->
          (forall prefix, k <> prefix ++ 34%N :: str "reference") ->
          get_path p (path ++ [Key k]) = Some (JStr s) ->
          get_path p' (path ++ [Key k]) = Some (JStr s))
    /\ (forall path i s,
          get_path p (path ++ [Idx i]) = Some (JStr s) ->
          get_path p' (path ++ [Idx i]) = Some (JStr s)).
Proof.
  intro W. exists (normalize p).
  split; [now apply standardize_references_normalize|]. split; [|split].
  - intros path prefix w u Nw Fw Hu H.
    rewrite (get_path_normalize _ _ _ _ H). cbn [normalize].
    unfold normalize_member.
    assert (is_ref_key (prefix ++ 34%N :: str "reference") = true) as ->
        by (apply is_ref_key_spec; right; now exists prefix).
    change (w ++ str "/" ++ u) with (w ++ 47%N :: u).
    now rewrite rel_ref_intro.
  - intros path k s N1 N2 H.
    rewrite (get_path_normalize _ _ _ _ H). cbn [normalize].
    rewrite normalize_member_quiet; [reflexivity|]. left.
    destruct (is_ref_key k) eqn:E; [|reflexivity].
    apply is_ref_key_spec in E as [E|[prefix E]]; [contradiction|].
    exfalso. now apply (N2 prefix).
  - intros path i s H. now rewrite (get_path_normalize_idx _ _ _ _ H).
Qed.

Lemma rel_ref_urn u : rel_ref (URN ++ u) = None.
Proof. reflexivity. Qed.

Lemma normalize_member_twice k v :
  normalize_member k (normalize_member k v) = normalize_member k v.
Proof.
  unfold normalize_member. destruct v as [| | |s| |]; try reflexivity.
  destruct (is_ref_key k) eqn:K; [|reflexivity].
  destruct (rel_ref s) as [u|] eqn:R.
  - now rewrite rel_ref_urn.
  - now rewrite R.
Qed.

Lemma normalize_twice j : normalize (normalize j) = normalize j.
Proof.
  induction j as [| b | z | s | l IH | kvs IH] using json_induction;
    try reflexivity.
  - cbn [normalize]. rewrite map_map. f_equal. apply map_ext_in.
    intros x Hx. rewrite Forall_forall in IH. auto.
  - rewrite !normalize_obj. rewrite map_map. f_equal. apply map_ext_in.
    intros [k v] Hx. rewrite Forall_forall in IH. specialize (IH _ Hx).
    unfold normalize_kv. cbn [fst snd] in *. f_equal.
    set (x := normalize v) in *.
    assert (normalize (normalize_member k x) = normalize_member k x) as Q.
    { destruct x as [| | |s| |]; try exact IH.
      unfold normalize_member. destruct (is_ref_key k); [|reflexivity].
      destruct (rel_ref s); reflexivity. }
    rewrite Q. apply normalize_member_twice.
Qed.

(** X6. Normalizing twice is normalizing once: the URNs the first pass wrote
    are not relative references. *)
Theorem standardize_references_idempotent (p p' : json) :
  wf p = true ->
  standardize_references p = Ok p' ->
  standardize_references p' = Ok p'.
Proof.
  intros W H. rewrite (standardize_references_normalize p W) in H.
  injection H as <-.
  rewrite (standardize_references_normalize _ (wf_normalize _ W)).
  now rewrite normalize_twice.
Qed.

Lemma normalize_fixed j :
  wf j = true ->
  (forall path k s,
      get_path j (path ++ [Key k]) = Some (JStr s) ->
      is_ref_key k = true -> rel_ref s = None) ->
  normalize j = j.
Proof.
  induction j as [| b | z | s | l IH | kvs IH] using json_induction;
    intros W H; try reflexivity.
  - cbn [normalize]. f_equal. rewrite <- (map_id l) at 2. apply map_ext_in.
    intros x Hx. rewrite Forall_forall in IH. apply IH; [assumption| |].
    + pose proof (wf_arr _ W) as Wl. rewrite Forall_forall in Wl. auto.
    + intros path k s G. destruct (In_nth_error _ _ Hx) as [i Hi].
      apply (H (Idx i :: path)). cbn [app get_path]. now rewrite Hi.
  - rewrite normalize_obj. f_equal. rewrite <- (map_id kvs) at 2.
    apply map_ext_in. intros [k v] Hx.
    destruct (wf_obj _ W) as [N Wv].
    pose proof (dict_get_unique k v kvs N Hx) as G.
    rewrite Forall_forall in IH. specialize (IH _ Hx). cbn [snd] in IH.
    unfold normalize_kv. cbn [fst snd]. rewrite IH.
    + f_equal. destruct v as [| | |s| |]; try reflexivity.
      destruct (is_ref_key k) eqn:K.
      * apply normalize_member_quiet. right. right. exists s.
        split; [reflexivity|]. apply (H [] k s); [|exact K].
        cbn [app get_path]. now rewrite G.
      * apply normalize_member_quiet. now left.
    + exact (Wv k v Hx).
    + intros path k' s G'. apply (H (Key k :: path)).
      cbn [app get_path]. now rewrite G.
Qed.

(** X7. A document in which no string under a key the pattern fires on is a
    relative reference comes back from the text as it went in: the
    round trip through [json.dumps] and [json.loads] loses nothing. *)
Theorem standardize_references_unchanged_without_relative_references (p : json) :
  wf p = true ->
  (forall path k s,
      get_path p (path ++ [Key k]) = Some (JStr s) ->
      is_ref_key k = true -> rel_ref s = None) ->
  standardize_references p = Ok p.
Proof.
  intros W H. rewrite (standardize_references_normalize p W).
  now rewrite (normalize_fixed p W H).
Qed.

(** ** The idempotency-key injector *)

Lemma map_result_Forall2 {A B} (f : A -> result B) (l : list A) : forall l',
  map_result f l = Ok l' -> Forall2 (fun x y => f x = Ok y) l l'.
Proof.
  induction l as [|x l IH]; intros l' H; cbn [map_result] in H.
  - injection H as <-. constructor.
  - destruct (f x) as [y| |] eqn:Hx; try discriminate. cbn [bind] in H.
    destruct (map_result f l) as [ys| |] eqn:Hl; try discriminate.
    cbn [bind] in H. injection H as <-. constructor; auto.
Qed.

Lemma entry_step_same_but_keys e e' : entry_step e = Ok e' -> same_but_keys e e'.
Proof.
  intro H.
  destruct (entry_step_inv e e' H) as (ek & resource & qk & r' & q & -> & Hr & Hq & Hk & ->).
  split.
  - intros k N1 N2. cbn [getitem]. now rewrite !dict_get_set_other by congruence.
  - exists resource, r', (JObj qk), (JObj (dict_set (str "ifNoneExist") (JStr q) qk)).
    cbn [getitem]. rewrite dict_get_set_same, Hr.
    rewrite dict_get_set_other by discriminate. rewrite dict_get_set_same, Hq.
    repeat split; try reflexivity.
    + intros k N.
      destruct (key_of_inv _ _ _ Hk) as (rk & rt & -> & Hrt & [[-> _]|C]);
        [reflexivity|].
      destruct C as (rid & _ & _ & -> & _). cbn [getitem].
      now rewrite dict_get_set_other by congruence.
    + intros k N. now rewrite dict_get_set_other by congruence.
Qed.

(** X8. The injector changes nothing but [request.ifNoneExist] and
    [resource.identifier]: the bundle keeps its other fields and the
    number and order of its entries, and each entry keeps the rest. *)
Theorem add_if_none_exist_clause_changes_two_fields
        (p p' : json) (es : list json) :
  getitem p (str "entry") = Ok (JArr es) ->
  add_if_none_exist_clause p = Ok p' ->
  (forall k, k <> str "entry" -> getitem p' k = getitem p k)
  /\ exists es',
      getitem p' (str "entry") = Ok (JArr es')
      /\ length es' = length es
      /\ Forall2 same_but_keys es es'.
Proof.
  intros G H. rewrite (add_if_none_exist_clause_entries _ _ G) in H.
  destruct (getitem_Ok _ _ _ G) as (kvs & -> & Gk).
  destruct (map_result entry_step es) as [es'| |] eqn:Hes; try discriminate.
  cbn [bind setitem] in H. injection H as <-. split.
  - intros k N. cbn [getitem]. now rewrite dict_get_set_other by congruence.
  - exists es'. cbn [getitem]. rewrite dict_get_set_same.
    pose proof (map_result_Forall2 _ _ _ Hes) as F.
    split; [reflexivity|]. split.
    + symmetry. exact (Forall2_length F).
    + apply (Forall2_weaken (fun x y => entry_step x = Ok y)); [|exact F].
      exact entry_step_same_but_keys.
Qed.

Lemma add_if_none_exist_clause_stops p before x after err :
  getitem p (str "entry") = Ok (JArr (before ++ x :: after)) ->
  Forall injectable before ->
  entry_step x = Raise err ->
  add_if_none_exist_clause p = Raise err.
Proof.
  intros G F Hx. rewrite (add_if_none_exist_clause_entries _ _ G).
  assert (map_result entry_step (before ++ x :: after) = Raise err) as ->;
    [|reflexivity].
  clear G. induction F as [|b before [b' Hb] _ IH]; cbn [app map_result].
  - now rewrite Hx.
  - rewrite (entry_step_injected _ _ Hb). cbn [bind]. now rewrite IH.
Qed.

(** X9. The first entry whose resource has neither identifier nor [id], or
    whose first identifier has no [system] or no [value], makes the
    injector raise the [KeyError] of that field. *)
Theorem add_if_none_exist_clause_raises_without_id
        (p : json) (before : list json) (x : json) (after : list json)
        (resource request rt : json) :
  getitem p (str "entry") = Ok (JArr (before ++ x :: after)) ->
  Forall injectable before ->
  getitem x (str "resource") = Ok resource ->
  getitem x (str "request") = Ok request ->
  getitem resource (str "resourceType") = Ok rt ->
  (lacks_identifier resource ->
   getitem resource (str "id") = Raise (KeyError (str "id")) ->
   add_if_none_exist_clause p = Raise (KeyError (str "id")))
  /\ (forall first more,
        getitem resource (str "identifier") = Ok (JArr (first :: more)) ->
        (getitem first (str "system") = Raise (KeyError (str "system")) ->
         add_if_none_exist_clause p = Raise (KeyError (str "system")))
        /\ (forall system,
              getitem first (str "system") = Ok system ->
              getitem first (str "value") = Raise (KeyError (str "value")) ->
              add_if_none_exist_clause p = Raise (KeyError (str "value")))).
Proof.
  intros G F Hr Hq Hrt.
  destruct (getitem_Ok _ _ _ Hrt) as (rk & -> & Hrt').
  split.
  - intros L Hid. apply (add_if_none_exist_clause_stops p before x after); auto.
    unfold entry_step. rewrite Hr. cbn [bind]. rewrite Hq. cbn [bind].
    rewrite (key_of_synthesized rk rt Hrt' L), Hid. reflexivity.
  - intros first more Hids.
    destruct (getitem_Ok _ _ _ Hids) as (rk' & E & Hids'). injection E as <-.
    pose proof (key_of_existing rk rt (JArr (first :: more)) (length more)
                  Hrt' Hids' eq_refl) as K.
    cbn [getidx nth_error bind] in K. split.
    + intro Hs. apply (add_if_none_exist_clause_stops p before x after); auto.
      unfold entry_step. rewrite Hr. cbn [bind]. rewrite Hq. cbn [bind].
      rewrite K, Hs. reflexivity.
    + intros system Hs Hv.
      apply (add_if_none_exist_clause_stops p before x after); auto.
      unfold entry_step. rewrite Hr. cbn [bind]. rewrite Hq. cbn [bind].
      rewrite K, Hs. cbn [bind]. rewrite Hv. reflexivity.
Qed.

(** ** The payload reducer *)

(** X10. The reducer keeps the first ten entries, in place: the bundle keeps
    its other fields, a bundle of at most ten entries is unchanged, and
    reducing twice is reducing once. *)
Theorem reduce_payload_size_keeps_first_ten (p : json) (es : list json) :
  getitem p (str "entry") = Ok (JArr es) ->
  exists p' es',
    reduce_payload_size p = Ok p'
    /\ getitem p' (str "entry") = Ok (JArr es')
    /\ length es' = Nat.min 10 (length es)
    /\ (forall i, i < 10 -> nth_error es' i = nth_error es i)
    /\ (forall k, k <> str "entry" -> getitem p' k = getitem p k)
    /\ (length es <= 10 -> p' = p)
    /\ reduce_payload_size p' = Ok p'.
Proof.
  intro G. destruct (getitem_Ok _ _ _ G) as (kvs & -> & Gk).
  exists (JObj (dict_set (str "entry") (JArr (firstn 10 es)) kvs)), (firstn 10 es).
  split; [|split; [|split; [|split; [|split; [|split]]]]].
  - unfold reduce_payload_size. rewrite G. reflexivity.
  - cbn [getitem]. now rewrite dict_get_set_same.
  - apply length_firstn.
  - intros i Hi. rewrite nth_error_firstn.
    apply Nat.ltb_lt in Hi. now rewrite Hi.
  - intros k N. cbn [getitem]. now rewrite dict_get_set_other by congruence.
  - intro L. rewrite firstn_all2 by exact L. now rewrite (dict_set_same _ _ _ Gk).
  - unfold reduce_payload_size. cbn [getitem]. rewrite dict_get_set_same.
    cbn [bind slice_to setitem]. rewrite firstn_firstn. cbn [Nat.min].
    now rewrite dict_set_idem.
Qed.

(** * Further properties of the batch uploader *)

(** ** The order of the patient files *)

Lemma str_ltb_irrefl a : str_ltb a a = false.
Proof.
  induction a as [|x a IH]; [reflexivity|]. cbn [str_ltb].
  now rewrite N.ltb_irrefl, N.eqb_refl, IH.
Qed.

Lemma str_ltb_trans a : forall b c,
  str_ltb a b = true -> str_ltb b c = true -> str_ltb a c = true.
Proof.
  induction a as [|x a IH]; intros [|y b] [|z c] H1 H2; try discriminate;
    try reflexivity.
  cbn [str_ltb] in *.
  apply orb_true_iff in H1 as [H1|H1]; apply orb_true_iff in H2 as [H2|H2];
    apply orb_true_iff.
  - left. apply N.ltb_lt in H1, H2. apply N.ltb_lt. lia.
  - apply andb_true_iff in H2 as [E _]. apply N.eqb_eq in E. subst. now left.
  - apply andb_true_iff in H1 as [E _]. apply N.eqb_eq in E. subst. now left.
  - apply andb_true_iff in H1 as [E1 H1]. apply andb_true_iff in H2 as [E2 H2].
    apply N.eqb_eq in E1, E2. subst. right. rewrite N.eqb_refl. cbn [andb].
    eapply IH; eassumption.
Qed.

Lemma str_ltb_total a : forall b,
  str_ltb a b = false -> str_eqb a b = false -> str_ltb b a = true.
Proof.
  induction a as [|x a IH]; intros [|y b] H1 H2; try discriminate;
    try reflexivity.
  cbn [str_ltb str_eqb] in *.
  apply orb_false_iff in H1 as [L H1]. apply N.ltb_ge in L.
  destruct (N.eqb x y) eqn:E.
  - apply N.eqb_eq in E. subst. rewrite N.eqb_refl. cbn [andb] in *.
    rewrite (IH b H1 H2). apply orb_true_r.
  - apply N.eqb_neq in E. apply orb_true_iff. left. apply N.ltb_lt. lia.
Qed.

Lemma insert_sorted_In x l y : In y (insert_sorted x l) <-> y = x \/ In y l.
Proof.
  induction l as [|z l IH]; cbn [insert_sorted In].
  - intuition.
  - destruct (str_ltb x z); [cbn [In]; intuition|].
    destruct (str_eqb x z) eqn:E.
    + apply str_eqb_eq in E. subst. cbn [In]. intuition.
    + cbn [In]. rewrite IH. intuition.
Qed.

Lemma insert_sorted_ascending x l : ascending l -> ascending (insert_sorted x l).
Proof.
  induction l as [|z l IH]; intro A; cbn [insert_sorted].
  - cbn [ascending]. auto.
  - destruct A as [Az A].
    destruct (str_ltb x z) eqn:L.
    + cbn [ascending]. repeat split; auto. constructor; [exact L|].
      rewrite Forall_forall in *. intros y Hy.
      apply (str_ltb_trans x z y L). auto.
    + destruct (str_eqb x z) eqn:E; [cbn [ascending]; auto|].
      cbn [ascending]. split; [|auto].
      apply Forall_forall. intros y Hy. apply insert_sorted_In in Hy as [->|Hy].
      * now apply str_ltb_total.
      * rewrite Forall_forall in Az. auto.
Qed.

Lemma sorted_set_In l y : In y (sorted_set l) <-> In y l.
Proof.
  induction l as [|x l IH]; cbn [sorted_set fold_right In]; [reflexivity|].
  fold (sorted_set l). rewrite insert_sorted_In, IH. intuition.
Qed.

Lemma sorted_set_ascending l : ascending (sorted_set l).
Proof.
  induction l as [|x l IH]; cbn [sorted_set fold_right]; [exact I|].
  now apply insert_sorted_ascending.
Qed.

Lemma ascending_NoDup l : ascending l -> NoDup l.
Proof.
  induction l as [|x l IH]; intro A; constructor.
  - destruct A as [Ax _]. intro H. rewrite Forall_forall in Ax.
    specialize (Ax _ H). now rewrite str_ltb_irrefl in Ax.
  - apply IH. apply A.
Qed.

Section UploaderOrder.

Variable glob : pystr -> pystr -> list pystr.
Variable iterdir : pystr -> list pystr.

(** X11. The patient files are the files of the folder that neither pattern
    matched, each once, in ascending order of their paths. *)
Theorem patient_payloads_sorted_and_disjoint (mcode_folder : pystr) :
  (forall f,
      In f (patient_payloads glob iterdir mcode_folder)
      <-> In f (iterdir mcode_folder)
          /\ ~ In f (hospital_information_payloads glob mcode_folder)
          /\ ~ In f (practitioner_information_payloads glob mcode_folder))
  /\ ascending (patient_payloads glob iterdir mcode_folder)
  /\ NoDup (patient_payloads glob iterdir mcode_folder).
Proof.
  split; [|split].
  - intro f. unfold patient_payloads. rewrite sorted_set_In, filter_In.
    rewrite negb_true_iff, orb_false_iff, <- !not_true_iff_false, !path_in_In.
    reflexivity.
  - apply sorted_set_ascending.
  - apply ascending_NoDup, sorted_set_ascending.
Qed.

End UploaderOrder.

(** * Loadable documents stay loadable *)

Lemma keys_after_set a k v kvs :
  existsb (str_eqb a) (map fst (dict_set k v kvs))
  = existsb (str_eqb a) (map fst kvs) || str_eqb a k.
Proof.
  induction kvs as [|[k' v'] kvs IH]; cbn [dict_set map fst existsb].
  - now rewrite orb_false_r.
  - destruct (str_eqb k k') eqn:E; cbn [map fst existsb].
    + apply str_eqb_eq in E. subst k'.
      destruct (str_eqb a k); [reflexivity|]. now rewrite orb_false_r.
    + rewrite IH. now rewrite orb_assoc.
Qed.

Lemma keys_unique_set k v kvs :
  keys_unique (map fst kvs) = true ->
  keys_unique (map fst (dict_set k v kvs)) = true.
Proof.
  induction kvs as [|[k' v'] kvs IH]; cbn [dict_set map fst keys_unique];
    [reflexivity|].
  intro H. apply andb_true_iff in H as [H1 H2].
  destruct (str_eqb k k') eqn:E; cbn [map fst keys_unique].
  - now rewrite H1, H2.
  - rewrite keys_after_set, IH by assumption.
    apply negb_true_iff in H1. rewrite H1. rewrite str_eqb_sym, E. reflexivity.
Qed.

(** [d[k] = v] keeps a dict well formed. *)
Lemma wf_set k v kvs :
  wf (JObj kvs) = true -> valid_str k = true -> wf v = true ->
  wf (JObj (dict_set k v kvs)) = true.
Proof.
  intros W Vk Wv. cbn [wf] in *. apply andb_true_iff in W as [W1 W2].
  apply andb_true_iff. split; [now apply keys_unique_set|].
  clear W1. induction kvs as [|[k' v'] kvs IH]; cbn [dict_set forallb fst snd].
  - apply andb_true_iff. split; [|reflexivity].
    apply andb_true_iff. now split.
  - cbn [forallb fst snd] in W2. apply andb_true_iff in W2 as [Wk W2].
    destruct (str_eqb k k'); cbn [forallb fst snd].
    + apply andb_true_iff in Wk as [Wk _].
      apply andb_true_iff; split; [apply andb_true_iff; split|]; assumption.
    + apply andb_true_iff; split; [assumption | now apply IH].
Qed.

Lemma wf_list l : (forall x, In x l -> wf x = true) -> wf (JArr l) = true.
Proof. intro H. cbn [wf]. now apply forallb_forall. Qed.

Lemma valid_str_tail c s : valid_str (c :: s) = true -> valid_str s = true.
Proof. intro H. now apply valid_str_cons in H as (_ & _ & H). Qed.

Lemma valid_str_single c s : valid_str s = true -> In c s -> valid_str [c] = true.
Proof.
  induction s as [|x s IH]; intros V I; [destruct I|].
  destruct I as [->|I].
  - apply valid_str_cons in V as (L & _ & _). cbn [valid_str].
    apply N.ltb_lt in L. rewrite L. now rewrite andb_false_r.
  - apply IH; [|exact I]. now apply valid_str_tail in V.
Qed.

Lemma wf_py_list v items :
  wf v = true -> py_list v = Ok items -> forall x, In x items -> wf x = true.
Proof.
  intros W H x Hx. destruct v as [| | |s|l|kvs]; try discriminate;
    cbn [py_list] in H; injection H as <-.
  - apply in_map_iff in Hx as (c & <- & Hc). cbn [wf].
    now apply (valid_str_single c s).
  - pose proof (wf_arr _ W) as Wl. rewrite Forall_forall in Wl. auto.
  - apply in_map_iff in Hx as ([k y] & <- & Hk). cbn [wf fst].
    apply wf_obj_all in W as [_ W]. rewrite Forall_forall in W.
    now destruct (W _ Hk).
Qed.

Lemma for_each_keeps {A S} (P : S -> Prop) (body : A -> S -> result S) xs :
  (forall x st st', In x xs -> body x st = Ok st' -> P st -> P st') ->
  forall st st', for_each xs st body = Ok st' -> P st -> P st'.
Proof.
  induction xs as [|x xs IH]; intros B st st' H Pst; cbn [for_each] in H.
  - now injection H as <-.
  - destruct (body x st) as [st1| |] eqn:E; try discriminate. cbn [bind] in H.
    apply (IH (fun y s s' Hy => B y s s' (or_intror Hy)) st1 st' H).
    apply (B x st st1); auto. now left.
Qed.

Lemma kdict_set_values k e acc kv :
  In kv (kdict_set k e acc) -> snd kv = e \/ In kv acc.
Proof.
  induction acc as [|[k' v'] acc IH]; cbn [kdict_set].
  - intros [<-|[]]. now left.
  - destruct (py_eq k' k).
    + intros [<-|H]; [now left | right; now right].
    + intros [<-|H]; [right; now left|].
      destruct (IH H) as [E|I]; [now left | right; now right].
Qed.

Lemma wf_purge_duplicates d d' :
  wf d = true -> purge_duplicates d = Ok d' -> wf d' = true.
Proof.
  intros W H. unfold purge_duplicates in H.
  apply bind_Ok in H as (entry & He & H).
  apply bind_Ok in H as (items & Hi & H).
  apply bind_Ok in H as (unique & Hu & H).
  destruct (getitem_Ok _ _ _ He) as (kvs & -> & Gk).
  cbn [setitem] in H. injection H as <-.
  pose proof (wf_py_list _ _ (wf_getitem _ _ _ W He) Hi) as Wi.
  apply (wf_dict_set _ _ entry); auto.
  assert (forall kv, In kv unique -> wf (snd kv) = true) as Wu.
  { refine (for_each_keeps
              (fun acc => forall kv, In kv acc -> wf (snd kv) = true)
              _ items _ [] unique Hu _).
    - intros e st st' He' Hs Pst kv' Hkv'.
      apply bind_Ok in Hs as (k & _ & Hs).
      apply bind_Ok in Hs as (u & _ & Hs). injection Hs as <-.
      destruct (kdict_set_values _ _ _ _ Hkv') as [->|I]; auto.
    - intros kv' []. }
  apply wf_list. intros x Hx. apply in_map_iff in Hx as (kv & <- & Hkv). auto.
Qed.

Lemma remove_first_In e l l' x : remove_first e l = Some l' -> In x l' -> In x l.
Proof.
  revert l'. induction l as [|y l IH]; intros l' H Hx; cbn [remove_first] in H;
    [discriminate|].
  destruct (py_eq y e).
  - injection H as <-. now right.
  - destruct (remove_first e l) as [r|]; [|discriminate].
    injection H as <-. destruct Hx as [->|Hx]; [now left | right; eauto].
Qed.

Lemma wf_remove_provenance p p' :
  wf p = true -> remove_provenance p = Ok p' -> wf p' = true.
Proof.
  intros W H. unfold remove_provenance in H.
  apply bind_Ok in H as (entry & He & H).
  apply bind_Ok in H as (items & Hi & H).
  apply bind_Ok in H as (entry' & Hu & H).
  destruct (getitem_Ok _ _ _ He) as (kvs & -> & Gk).
  cbn [setitem] in H. injection H as <-.
  apply (wf_dict_set _ _ entry); auto.
  refine (for_each_keeps (fun st => wf st = true) _ items _ entry entry' Hu _).
  - intros e st st' _ Hs Wst.
    apply bind_Ok in Hs as (r & _ & Hs). apply bind_Ok in Hs as (t & _ & Hs).
    destruct (py_eq t (JStr (str "Provenance"))); [|now injection Hs as <-].
    unfold list_remove in Hs. destruct st as [| | | |l|]; try discriminate.
    destruct (remove_first e l) as [l'|] eqn:R; [|discriminate].
    injection Hs as <-. apply wf_list. intros x Hx.
    pose proof (wf_arr _ Wst) as Wl. rewrite Forall_forall in Wl.
    apply Wl. exact (remove_first_In _ _ _ _ R Hx).
  - exact (wf_getitem _ _ _ W He).
Qed.

Lemma valid_str_ascii_cons c s :
  is_ascii c = true -> valid_str s = true -> valid_str (c :: s) = true.
Proof.
  intros A V. cbn [valid_str]. rewrite V, andb_true_r.
  unfold is_ascii in A. apply N.ltb_lt in A.
  apply andb_true_iff. split; [apply N.ltb_lt; lia|].
  apply negb_true_iff. apply andb_false_iff. left.
  unfold is_high_surrogate. apply andb_false_iff. left. apply N.leb_gt. lia.
Qed.

Lemma valid_str_ascii_app a s :
  forallb is_ascii a = true -> valid_str s = true -> valid_str (a ++ s) = true.
Proof.
  induction a as [|c a IH]; intros A V; [exact V|].
  cbn [forallb] in A. apply andb_true_iff in A as [Ac A].
  cbn [app]. apply valid_str_ascii_cons; auto.
Qed.

Lemma ascii_valid s : forallb is_ascii s = true -> valid_str s = true.
Proof.
  intro A. rewrite <- (List.app_nil_r s). now apply valid_str_ascii_app.
Qed.

Lemma valid_str_app a b :
  valid_str a = true -> valid_str b = true ->
  match b with c :: _ => is_low_surrogate c = false | [] => True end ->
  valid_str (a ++ b) = true.
Proof.
  intros Va Vb Hb. induction a as [|x a IH]; [exact Vb|].
  apply valid_str_cons in Va as (L & S & Va). specialize (IH Va).
  cbn [app valid_str]. rewrite IH, andb_true_r.
  apply andb_true_iff. split; [now apply N.ltb_lt|].
  apply negb_true_iff. destruct (is_high_surrogate x) eqn:Hx; [|reflexivity].
  specialize (S eq_refl). cbn [andb].
  destruct a as [|y a]; cbn [app].
  - destruct b as [|c b]; [reflexivity | exact Hb].
  - exact S.
Qed.

Lemma py_format_valid v s : wf v = true -> py_format v = Ok s -> valid_str s = true.
Proof.
  intros W H. destruct v as [|[|]|z|t| |]; try discriminate;
    cbn [py_format] in H; injection H as <-; try reflexivity.
  - apply ascii_valid. apply int_repr_chars; [reflexivity|].
    apply digit_ascii.
  - exact W.
Qed.

Lemma query_term_valid rt sys val q :
  wf rt = true -> wf sys = true -> wf val = true ->
  query_term_of rt sys val = Ok q -> valid_str q = true.
Proof.
  intros Wr Ws Wv H. unfold query_term_of in H.
  apply bind_Ok in H as (a & Ha & H). apply bind_Ok in H as (b & Hb & H).
  apply bind_Ok in H as (c & Hc & H). injection H as <-.
  apply py_format_valid in Ha, Hb, Hc; auto.
  apply (valid_str_app a (str "?identifier=" ++ b ++ str "|" ++ c));
    [assumption | | reflexivity].
  apply (valid_str_ascii_app (str "?identifier=") (b ++ str "|" ++ c));
    [reflexivity|].
  apply (valid_str_app b (str "|" ++ c)); [assumption | | reflexivity].
  apply (valid_str_ascii_app (str "|") c); [reflexivity | assumption].
Qed.

Lemma wf_synthesized rid : wf rid = true -> wf (synthesized rid) = true.
Proof.
  intro W. apply wf_list. intros x [<-|[]].
  change (JObj [(str "system", JStr synthea_system); (str "value", rid)])
    with (JObj (dict_set (str "value") rid
                  (dict_set (str "system") (JStr synthea_system) []))).
  apply wf_set; [apply wf_set | |]; auto.
Qed.

Lemma wf_dict_get k v kvs : wf (JObj kvs) = true -> dict_get k kvs = Some v -> wf v = true.
Proof.
  intros W G. apply (wf_getitem (JObj kvs) k); [exact W|]. cbn [getitem].
  now rewrite G.
Qed.

Lemma wf_key_of r r' q :
  wf r = true -> key_of r = Ok (r', q) -> wf r' = true /\ valid_str q = true.
Proof.
  intros W H.
  destruct (key_of_inv _ _ _ H) as (rk & rt & -> & Hrt & [[-> C]|C]).
  - split; [exact W|].
    destruct C as (first & more & system & value & Hids & Hs & Hv & Hq).
    pose proof (wf_dict_get _ _ _ W Hids) as Wi.
    pose proof (wf_arr _ Wi) as Wl. apply Forall_cons_iff in Wl as [Wf _].
    apply (query_term_valid rt system value); auto.
    + exact (wf_dict_get _ _ _ W Hrt).
    + exact (wf_getitem _ _ _ Wf Hs).
    + exact (wf_getitem _ _ _ Wf Hv).
  - destruct C as (rid & _ & Hid & -> & Hq).
    pose proof (wf_dict_get _ _ _ W Hid) as Wi. split.
    + apply wf_set; auto. now apply wf_synthesized.
    + apply (query_term_valid rt (JStr synthea_system) rid); auto.
      exact (wf_dict_get _ _ _ W Hrt).
Qed.

Lemma wf_entry_step e e' : wf e = true -> entry_step e = Ok e' -> wf e' = true.
Proof.
  intros W H.
  destruct (entry_step_inv e e' H) as (ek & resource & qk & r' & q & -> & Hr & Hq & Hk & ->).
  destruct (wf_key_of _ _ _ (wf_dict_get _ _ _ W Hr) Hk) as [Wr Vq].
  apply wf_set; auto. apply wf_set; auto.
  apply wf_set; auto. exact (wf_dict_get _ _ _ W Hq).
Qed.

Lemma wf_add_if_none_exist_clause p p' :
  wf p = true -> add_if_none_exist_clause p = Ok p' -> wf p' = true.
Proof.
  intros W H.
  destruct (getitem p (str "entry")) as [entry| |] eqn:He;
    try (unfold add_if_none_exist_clause in H; rewrite He in H; discriminate).
  destruct (getitem_Ok _ _ _ He) as (pk & -> & Hpk).
  destruct entry as [| | |s|es|kvs];
    try (unfold add_if_none_exist_clause in H; rewrite He in H; discriminate).
  - unfold add_if_none_exist_clause in H. rewrite He in H.
    cbn [bind py_list] in H. destruct s as [|c s]; [|discriminate].
    cbn [map enumerate length seq combine for_each bind setitem] in H.
    rewrite (dict_set_same _ _ _ Hpk) in H. now injection H as <-.
  - rewrite (add_if_none_exist_clause_entries _ _ He) in H.
    destruct (map_result entry_step es) as [es'| |] eqn:Hes; try discriminate.
    cbn [bind setitem] in H. injection H as <-.
    apply (wf_dict_set _ _ (JArr es)); auto. apply wf_list.
    pose proof (map_result_Forall2 _ _ _ Hes) as F.
    pose proof (wf_arr _ (wf_dict_get _ _ _ W Hpk)) as Wes.
    clear - F Wes. induction F as [|x y l l' Hxy F IH]; intros z Hz; [destruct Hz|].
    apply Forall_cons_iff in Wes as [Wx Wes]. destruct Hz as [<-|Hz].
    + exact (wf_entry_step _ _ Wx Hxy).
    + now apply IH.
  - unfold add_if_none_exist_clause in H. rewrite He in H.
    cbn [bind py_list] in H. destruct kvs as [|kv kvs]; [|discriminate].
    cbn [map enumerate length seq combine for_each bind setitem] in H.
    rewrite (dict_set_same _ _ _ Hpk) in H. now injection H as <-.
Qed.

(** X14. The pipeline keeps a document loadable: what it returns for a
    well-formed document is well formed, so its JSON text reads back as
    the same document. *)
Theorem preprocess_payload_result_round_trips (payload p' : json) :
  wf payload = true ->
  preprocess_loaded payload = Ok p' ->
  wf p' = true /\ loads (dumps p') = Ok p'.
Proof.
  intros W H. rewrite preprocess_loaded_pipeline in H. unfold pipeline in H.
  apply bind_Ok in H as (p1 & H1 & H). apply bind_Ok in H as (p2 & H2 & H).
  apply bind_Ok in H as (p3 & H3 & H).
  pose proof (wf_purge_duplicates _ _ W H1) as W1.
  pose proof (wf_remove_provenance _ _ W1 H2) as W2.
  rewrite (standardize_references_normalize _ W2) in H3. injection H3 as <-.
  pose proof (wf_add_if_none_exist_clause _ _ (wf_normalize _ W2) H) as W4.
  split; [exact W4 | now apply loads_dumps].
Qed.

(** X15. On a well-formed document the pipeline can fail in the purger, the
    stripper or the injector only: the normalizer always returns. *)
Theorem preprocess_payload_fails_outside_the_normalizer (payload : json) :
  wf payload = true ->
  preprocess_loaded payload
  = (p1 <- purge_duplicates payload ;;
     p2 <- remove_provenance p1 ;;
     add_if_none_exist_clause (normalize p2))
  /\ (forall p1 p2,
        purge_duplicates payload = Ok p1 -> remove_provenance p1 = Ok p2 ->
        standardize_references p2 = Ok (normalize p2)).
Proof.
  intro W. split.
  - rewrite preprocess_loaded_pipeline. unfold pipeline.
    destruct (purge_duplicates payload) as [p1| |] eqn:H1; try reflexivity.
    cbn [bind]. destruct (remove_provenance p1) as [p2| |] eqn:H2; try reflexivity.
    cbn [bind]. rewrite standardize_references_normalize; [reflexivity|].
    eapply wf_remove_provenance; [|exact H2].
    eapply wf_purge_duplicates; eassumption.
  - intros p1 p2 H1 H2. apply standardize_references_normalize.
    eapply wf_remove_provenance; [|exact H2].
    eapply wf_purge_duplicates; eassumption.
Qed.

(** * Running the pipeline twice *)

(** ** Documents the normalizer leaves alone *)

Lemma normalize_set k v kvs :
  map normalize_kv (dict_set k v kvs)
  = dict_set k (normalize_member k (normalize v)) (map normalize_kv kvs).
Proof.
  induction kvs as [|[k' v'] kvs IH]; cbn [dict_set map normalize_kv fst snd];
    [reflexivity|].
  destruct (str_eqb k k') eqn:E; cbn [map normalize_kv fst snd].
  - apply str_eqb_eq in E. now subst.
  - now rewrite IH.
Qed.

Lemma normalize_scalar k : hashable k = Ok tt -> normalize k = k.
Proof. destruct k; try discriminate; reflexivity. Qed.

Lemma fixed_get k v kvs :
  normalize (JObj kvs) = JObj kvs -> dict_get k kvs = Some v -> normalize v = v.
Proof.
  intros F G. rewrite normalize_obj in F. injection F as F.
  pose proof (dict_get_normalize k kvs) as D. rewrite F, G in D.
  cbn [option_map] in D. injection D as D.
  destruct v as [| | |s| |]; try reflexivity;
    rewrite normalize_member_quiet in D
      by (right; left; apply normalize_not_str; discriminate);
    now symmetry.
Qed.

Lemma fixed_set k v kvs :
  normalize (JObj kvs) = JObj kvs ->
  normalize_member k (normalize v) = v ->
  normalize (JObj (dict_set k v kvs)) = JObj (dict_set k v kvs).
Proof.
  intros F Hv. rewrite normalize_obj in *. injection F as F.
  now rewrite normalize_set, F, Hv.
Qed.

Lemma fixed_member k v :
  normalize v = v -> (forall s, v <> JStr s) \/ is_ref_key k = false ->
  normalize_member k (normalize v) = v.
Proof.
  intros F [N|K]; rewrite F; apply normalize_member_quiet; auto.
Qed.

Lemma fixed_key_of r r' q :
  normalize r = r -> key_of r = Ok (r', q) -> normalize r' = r'.
Proof.
  intros F H.
  destruct (key_of_inv _ _ _ H) as (rk & rt & -> & Hrt & [[-> _]|C]); [exact F|].
  destruct C as (rid & _ & Hid & -> & _).
  apply fixed_set; [exact F|].
  pose proof (fixed_get _ _ _ F Hid) as Fr.
  cbn [synthesized normalize map fst snd].
  rewrite (normalize_member_quiet (str "value")) by (now left).
  now rewrite Fr.
Qed.

Lemma fixed_entry_step e e' :
  normalize e = e -> entry_step e = Ok e' -> normalize e' = e'.
Proof.
  intros F H.
  destruct (entry_step_inv e e' H) as (ek & resource & qk & r' & q & -> & Hr & Hq & Hk & ->).
  pose proof (fixed_key_of _ _ _ (fixed_get _ _ _ F Hr) Hk) as Fr.
  pose proof (fixed_get _ _ _ F Hq) as Fq.
  destruct (key_of_inv _ _ _ Hk) as (rk & rt & Er & _ & C).
  assert (exists rk', r' = JObj rk') as [rk' ->].
  { destruct C as [[-> _]|(rid & _ & _ & -> & _)]; [now exists rk | eauto]. }
  apply fixed_set; [apply fixed_set; [exact F|]|].
  - apply fixed_member; [|left; discriminate].
    apply fixed_set; [exact Fq | reflexivity].
  - apply fixed_member; [exact Fr | left; discriminate].
Qed.

(** ** The stages on what the pipeline returned *)

Lemma strip_loop_types (todo : list json) : forall st st',
  for_each todo st strip_step = Ok st' ->
  forall e, In e todo -> exists t, resource_type e = Ok t.
Proof.
  induction todo as [|x todo IH]; intros st st' H e He; [destruct He|].
  cbn [for_each] in H. apply bind_Ok in H as (st1 & Hx & H).
  destruct He as [<-|He]; [|eauto].
  unfold strip_step in Hx. apply bind_Ok in Hx as (r & Hr & Hx).
  apply bind_Ok in Hx as (t & Ht & _). exists t. unfold resource_type.
  now rewrite Hr.
Qed.

Lemma resource_type_normalize e t :
  resource_type e = Ok t -> resource_type (normalize e) = Ok (normalize t).
Proof.
  unfold resource_type. intro H. apply bind_Ok in H as (r & Hr & Ht).
  rewrite (getitem_normalize_plain _ (str "resource") _ eq_refl Hr). cbn [bind].
  exact (getitem_normalize_plain _ (str "resourceType") _ eq_refl Ht).
Qed.

Lemma py_eq_normalize_str t s : py_eq (normalize t) (JStr s) = py_eq t (JStr s).
Proof. destruct t; reflexivity. Qed.

Lemma own_key_Ok e k : getitem e (str "fullUrl") = Ok k -> own_key e = k.
Proof. intro H. unfold own_key. now rewrite H. Qed.

(** An entry the purger kept, after the normalizer and the injector. *)
Lemma rerun_entry kv y :
  filed kv -> (exists t, resource_type (snd kv) = Ok t) ->
  entry_step (normalize (snd kv)) = Ok y ->
  filed (fst kv, y)
  /\ is_provenance y = is_provenance (snd kv)
  /\ (exists t, resource_type y = Ok t)
  /\ normalize y = y
  /\ entry_step y = Ok y.
Proof.
  intros (S1 & S2 & G & Q) [t Ht] Hy.
  destruct (entry_step_frame _ _ Hy) as (Fu & Ft & _).
  pose proof (getitem_normalize_plain _ (str "fullUrl") _ eq_refl G) as Gn.
  rewrite (normalize_scalar _ S2) in Gn. rewrite <- Fu in Gn.
  pose proof (own_key_Ok _ _ Gn) as Ko.
  pose proof (resource_type_normalize _ _ Ht) as Tn. rewrite <- Ft in Tn.
  split; [|split; [|split; [|split]]].
  - unfold filed. cbn [fst snd]. rewrite Ko. auto.
  - unfold is_provenance. rewrite Tn, Ht. apply py_eq_normalize_str.
  - eauto.
  - apply (fixed_entry_step (normalize (snd kv))); [apply normalize_twice | exact Hy].
  - exact (entry_step_idempotent _ _ Hy).
Qed.

Lemma distinct_keys_filter (q : json * json -> bool) (l : list (json * json)) :
  distinct_keys l -> distinct_keys (filter q l).
Proof.
  induction l as [|kv l IH]; intro D; [exact I|].
  destruct D as [D1 D2]. cbn [filter]. destruct (q kv); [|auto].
  split; [|auto]. rewrite Forall_forall in *. intros x Hx.
  apply filter_In in Hx as [Hx _]. auto.
Qed.

Lemma distinct_keys_same_keys (l l' : list (json * json)) :
  map fst l' = map fst l -> distinct_keys l -> distinct_keys l'.
Proof.
  revert l'. induction l as [|kv l IH]; intros [|kv' l'] E D; try discriminate;
    [exact I|].
  cbn [map] in E. injection E as E1 E2. destruct D as [D1 D2]. split; [|auto].
  rewrite E1. clear - D1 E2. revert l' E2.
  induction l as [|x l IH]; intros [|x' l'] E; try discriminate; constructor.
  - cbn [map] in E. injection E as -> _. now apply Forall_cons_iff in D1 as [D1 _].
  - cbn [map] in E. injection E as _ E. apply Forall_cons_iff in D1 as [_ D1].
    now apply IH.
Qed.

Lemma filter_snd (q : json -> bool) (l : list (json * json)) :
  map snd (filter (fun kv => q (snd kv)) l) = filter q (map snd l).
Proof.
  induction l as [|kv l IH]; [reflexivity|]. cbn [filter map].
  destruct (q (snd kv)); cbn [map]; now rewrite IH.
Qed.

Lemma purge_loop_distinct (s : list (json * json)) :
  Forall filed s -> distinct_keys s ->
  exists unique,
    for_each (map snd s) [] purge_step = Ok unique /\ map snd unique = map snd s.
Proof.
  intros F D. exists (refiled s). split.
  - exact (purge_loop_again s [] F D).
  - unfold refiled. now rewrite map_map.
Qed.

(** The entries the pipeline returns, filed under the keys the purger
    gave to the entries they come from. *)
Lemma rerun_entries (kept : list (json * json)) : forall es',
  Forall filed kept ->
  (forall kv, In kv kept -> exists t, resource_type (snd kv) = Ok t) ->
  map_result entry_step (map normalize (map snd kept)) = Ok es' ->
  exists s,
    map snd s = es' /\ map fst s = map fst kept /\ Forall filed s
    /\ Forall2 (fun kv y => is_provenance y = is_provenance (snd kv)) kept es'
    /\ (forall y, In y es' ->
                  (exists t, resource_type y = Ok t)
                  /\ normalize y = y /\ entry_step y = Ok y).
Proof.
  induction kept as [|kv kept IH]; intros es' F T H; cbn [map map_result] in H.
  - injection H as <-. exists [].
    split; [reflexivity|]. split; [reflexivity|]. split; [constructor|].
    split; [constructor|]. intros y [].
  - destruct (entry_step (normalize (snd kv))) as [y| |] eqn:Hy; try discriminate.
    cbn [bind] in H.
    destruct (map_result entry_step (map normalize (map snd kept))) as [ys| |] eqn:Hys;
      try discriminate.
    cbn [bind] in H. injection H as <-.
    apply Forall_cons_iff in F as [Fk F].
    destruct (IH ys F (fun x Hx => T x (or_intror Hx)) eq_refl)
      as (s & E1 & E2 & Fs & P & R).
    destruct (rerun_entry kv y Fk (T kv (or_introl eq_refl)) Hy)
      as (Fy & Py & Ty & Ny & Sy).
    exists ((fst kv, y) :: s). cbn [map fst snd]. rewrite E1, E2.
    split; [reflexivity|]. split; [reflexivity|]. split; [now constructor|].
    split; [now constructor|].
    intros z [<-|Hz]; [auto | now apply R].
Qed.

(** X16. Running the pipeline on what it returned changes nothing: the URLs
    are distinct, no Provenance entry is left, the URNs are not relative
    references, and every entry has its identifier and its query. *)
Theorem preprocess_payload_idempotent (payload p' : json) :
  wf payload = true ->
  preprocess_loaded payload = Ok p' ->
  preprocess_loaded p' = Ok p'.
Proof.
  intros W H. pose proof H as Hrun.
  rewrite preprocess_loaded_pipeline in H. unfold pipeline in H.
  apply bind_Ok in H as (p1 & H1 & H). apply bind_Ok in H as (p2 & H2 & H).
  apply bind_Ok in H as (p3 & H3 & H4).
  pose proof (wf_purge_duplicates _ _ W H1) as W1.
  pose proof (wf_remove_provenance _ _ W1 H2) as W2.
  rewrite (standardize_references_normalize _ W2) in H3. injection H3 as <-.
  pose proof (wf_add_if_none_exist_clause _ _ (wf_normalize _ W2) H4) as W'.
  (* the purger *)
  unfold purge_duplicates in H1.
  apply bind_Ok in H1 as (entry0 & He0 & H1).
  apply bind_Ok in H1 as (items & Hi & H1).
  apply bind_Ok in H1 as (unique & Hu & H1).
  destruct (getitem_Ok _ _ _ He0) as (kvs & -> & Gk).
  cbn [setitem] in H1. injection H1 as <-.
  destruct (purge_loop_good items [] unique Hu (Forall_nil _) I) as (Fu & Du).
  set (k1 := dict_set (str "entry") (JArr (map snd unique)) kvs) in *.
  assert (dict_get (str "entry") k1 = Some (JArr (map snd unique))) as G1
      by apply dict_get_set_same.
  (* the stripper *)
  assert (forall e, In e (map snd unique) -> exists t, resource_type e = Ok t) as T1.
  { unfold remove_provenance in H2. cbn [getitem] in H2. rewrite G1 in H2.
    cbn [bind py_list] in H2. apply bind_Ok in H2 as (entry' & Hl & _).
    exact (strip_loop_types _ _ _ Hl). }
  rewrite (remove_provenance_kept k1 _ W1 G1 T1) in H2. injection H2 as <-.
  set (kept := filter (fun kv => keep (snd kv)) unique).
  assert (filter keep (map snd unique) = map snd kept) as Ek
      by (symmetry; apply filter_snd).
  rewrite Ek in *.
  set (k2 := dict_set (str "entry") (JArr (map snd kept)) k1) in *.
  (* the normalizer and the injector *)
  assert (getitem (normalize (JObj k2)) (str "entry")
          = Ok (JArr (map normalize (map snd kept)))) as G3.
  { apply (getitem_normalize_plain (JObj k2) (str "entry")
             (JArr (map snd kept)) eq_refl).
    cbn [getitem]. unfold k2. now rewrite dict_get_set_same. }
  rewrite (add_if_none_exist_clause_entries _ _ G3) in H4.
  destruct (map_result entry_step (map normalize (map snd kept))) as [es'| |] eqn:Hes;
    try discriminate.
  destruct (getitem_Ok _ _ _ G3) as (k3 & E3 & Gk3).
  rewrite E3 in H4. cbn [bind setitem] in H4. injection H4 as <-.
  assert (Forall filed kept) as Fk.
  { apply Forall_forall. intros kv Hkv. apply filter_In in Hkv as [Hkv _].
    rewrite Forall_forall in Fu. auto. }
  assert (forall kv, In kv kept -> exists t, resource_type (snd kv) = Ok t) as Tk.
  { intros kv Hkv. apply filter_In in Hkv as [Hkv _]. apply T1.
    apply in_map_iff. now exists kv. }
  destruct (rerun_entries kept es' Fk Tk Hes) as (s & Es & Ef & Fs & Ps & Rs).
  set (kp := dict_set (str "entry") (JArr es') k3) in *.
  assert (dict_get (str "entry") kp = Some (JArr es')) as Gp
      by apply dict_get_set_same.
  (* the second run *)
  assert (purge_duplicates (JObj kp) = Ok (JObj kp)) as R1.
  { unfold purge_duplicates. cbn [getitem]. rewrite Gp. cbn [bind py_list].
    destruct (purge_loop_distinct s Fs) as (u' & Hu' & Eu').
    - apply (distinct_keys_same_keys kept); [exact Ef|].
      now apply distinct_keys_filter.
    - rewrite Es in Hu', Eu'. unfold purge_step in Hu'. rewrite Hu'.
      cbn [bind setitem]. rewrite Eu'. now rewrite (dict_set_same _ _ _ Gp). }
  assert (Forall (fun e => is_provenance e = false) es') as Np.
  { apply (Forall2_Forall_r _ _ _ _ Ps). intros kv y Hkv E. rewrite E.
    apply filter_In in Hkv as [_ K]. unfold keep in K.
    now apply negb_true_iff in K. }
  assert (remove_provenance (JObj kp) = Ok (JObj kp)) as R2.
  { rewrite (remove_provenance_kept kp es' W' Gp).
    - rewrite (filter_keep_all es' Np). now rewrite (dict_set_same _ _ _ Gp).
    - intros y Hy. now apply Rs. }
  assert (normalize (JObj kp) = JObj kp) as Fp.
  { apply fixed_set.
    - rewrite <- E3. apply normalize_twice.
    - cbn [normalize normalize_member]. f_equal.
      rewrite <- (map_id es') at 2. apply map_ext_in. intros y Hy. now apply Rs. }
  assert (add_if_none_exist_clause (JObj kp) = Ok (JObj kp)) as R4.
  { rewrite (add_if_none_exist_clause_entries (JObj kp) es').
    - rewrite (map_result_idempotent _ entry_step_idempotent _ _ Hes).
      cbn [bind setitem]. now rewrite (dict_set_same _ _ _ Gp).
    - cbn [getitem]. now rewrite Gp. }
  rewrite preprocess_loaded_pipeline. unfold pipeline.
  rewrite R1. cbn [bind]. rewrite R2. cbn [bind].
  rewrite (standardize_references_normalize _ W'), Fp. cbn [bind]. exact R4.
Qed.

(** * The pipeline on a bundle with nothing to purge or strip *)

(** X17. A bundle whose URLs are distinct and that has no Provenance entry
    keeps every entry, in order: the pipeline normalizes and injects,
    entry by entry, and does not cut the list. *)
Theorem preprocess_payload_keeps_every_entry_of_clean_bundle
        (payload : json) (es : list json) :
  wf payload = true ->
  getitem payload (str "entry") = Ok (JArr es) ->
  (forall e, In e es -> exists u, getitem e (str "fullUrl") = Ok (JStr u)) ->
  NoDup (map full_url es) ->
  Forall (fun e => is_provenance e = false) es ->
  Forall injectable es ->
  exists p' es',
    preprocess_loaded payload = Ok p'
    /\ getitem p' (str "entry") = Ok (JArr es')
    /\ length es' = length es
    /\ Forall2 processed es es'
    /\ map_result entry_step (map normalize es) = Ok es'.
Proof.
  intros W G U N P F.
  destruct (getitem_Ok _ _ _ G) as (kvs & -> & Gk).
  assert (purge_duplicates (JObj kvs) = Ok (JObj kvs)) as H1.
  { rewrite (purge_duplicates_built kvs es Gk U), (built_distinct es N).
    now rewrite (dict_set_same _ _ _ Gk). }
  assert (remove_provenance (JObj kvs) = Ok (JObj kvs)) as H2.
  { rewrite (remove_provenance_kept kvs es W Gk).
    - rewrite (filter_keep_all es P). now rewrite (dict_set_same _ _ _ Gk).
    - intros e He. rewrite Forall_forall in F.
      destruct (injectable_resource_type e (F e He)) as [rt Hrt]. eauto. }
  pose proof (standardize_references_normalize _ W) as H3.
  assert (getitem (normalize (JObj kvs)) (str "entry") = Ok (JArr (map normalize es)))
    as G3 by exact (getitem_normalize_plain (JObj kvs) (str "entry") (JArr es) eq_refl G).
  destruct (entries_processed es U F) as (es' & Hes & Ps & _).
  pose proof (add_if_none_exist_clause_entries _ _ G3) as H4. rewrite Hes in H4.
  destruct (getitem_Ok _ _ _ G3) as (k3 & E3 & _). rewrite E3 in H4.
  cbn [bind setitem] in H4.
  exists (JObj (dict_set (str "entry") (JArr es') k3)), es'.
  split; [|split; [|split; [|split]]].
  - rewrite preprocess_loaded_pipeline. unfold pipeline.
    rewrite H1. cbn [bind]. rewrite H2. cbn [bind]. rewrite H3. cbn [bind].
    rewrite E3. exact H4.
  - cbn [getitem]. now rewrite dict_get_set_same.
  - symmetry. exact (Forall2_length Ps).
  - exact Ps.
  - exact Hes.
Qed.

(** * More bundles and folders to run the statements on *)

(** * The further statements on these *)

Lemma clean_urls e :
  In e clean_entries -> exists u, getitem e (str "fullUrl") = Ok (JStr u).
Proof. intros [<-|[<-|[]]]; eexists; reflexivity. Qed.

Lemma clean_urls_distinct : NoDup (map full_url clean_entries).
Proof.
  apply keys_unique_NoDup. vm_compute. reflexivity.
Qed.

Lemma clean_injectable : Forall injectable clean_entries.
Proof.
  repeat constructor; auto using patient_injectable, observation_injectable.
Qed.

Lemma purge_duplicates_keeps_distinct_entries_witness :
  getitem clean_bundle (str "entry") = Ok (JArr clean_entries)
  /\ NoDup (map full_url clean_entries)
  /\ purge_duplicates clean_bundle = Ok clean_bundle.
Proof.
  split; [reflexivity|]. split; [exact clean_urls_distinct|].
  exact (purge_duplicates_keeps_distinct_entries
           clean_bundle clean_entries eq_refl clean_urls clean_urls_distinct).
Defined.

Lemma first_entry_hashable x :
  In x [patient_entry (str "female")] ->
  exists k, getitem x (str "fullUrl") = Ok k /\ hashable k = Ok tt.
Proof. intros [<-|[]]. eexists. split; reflexivity. Qed.

Lemma purge_duplicates_raises_on_first_bad_entry_witness :
  purge_duplicates
    (bundle_of [patient_entry (str "female"); entry_without_url; observation_entry])
  = Raise (KeyError (str "fullUrl"))
  /\ purge_duplicates
       (bundle_of [patient_entry (str "female"); entry_with_list_url;
                   observation_entry])
     = Raise TypeError.
Proof.
  split.
  - apply (proj1 (purge_duplicates_raises_on_first_bad_entry
                    (bundle_of [patient_entry (str "female"); entry_without_url;
                                observation_entry])
                    [patient_entry (str "female")] entry_without_url
                    [observation_entry] eq_refl first_entry_hashable)).
    reflexivity.
  - apply (proj2 (purge_duplicates_raises_on_first_bad_entry
                    (bundle_of [patient_entry (str "female"); entry_with_list_url;
                                observation_entry])
                    [patient_entry (str "female")] entry_with_list_url
                    [observation_entry] eq_refl first_entry_hashable)
             (JArr [])); reflexivity.
Defined.

Lemma remove_provenance_idempotent_witness :
  wf scenario_bundle = true
  /\ exists p',
      remove_provenance scenario_bundle = Ok p'
      /\ remove_provenance p' = Ok p'
      /\ (Forall (fun e => is_provenance e = false) scenario_entries ->
          p' = scenario_bundle).
Proof.
  split; [vm_compute; reflexivity|].
  apply (remove_provenance_idempotent scenario_bundle scenario_entries);
    [vm_compute; reflexivity | reflexivity | exact scenario_types].
Defined.

Lemma first_entry_typed x :
  In x [patient_entry (str "female")] -> exists t, resource_type x = Ok t.
Proof. intros [<-|[]]. eexists. reflexivity. Qed.

Lemma remove_provenance_raises_on_first_bad_entry_witness :
  remove_provenance
    (bundle_of [patient_entry (str "female"); entry_without_resource;
                observation_entry])
  = Raise (KeyError (str "resource"))
  /\ remove_provenance
       (bundle_of [patient_entry (str "female"); entry_without_type;
                   observation_entry])
     = Raise (KeyError (str "resourceType")).
Proof.
  split.
  - apply (proj1 (remove_provenance_raises_on_first_bad_entry
                    (bundle_of [patient_entry (str "female"); entry_without_resource;
                                observation_entry])
                    [patient_entry (str "female")] entry_without_resource
                    [observation_entry] eq_refl eq_refl first_entry_typed)).
    reflexivity.
  - apply (proj2 (remove_provenance_raises_on_first_bad_entry
                    (bundle_of [patient_entry (str "female"); entry_without_type;
                                observation_entry])
                    [patient_entry (str "female")] entry_without_type
                    [observation_entry] eq_refl eq_refl first_entry_typed)
             (JObj [(str "id", JStr uuid_provenance)])); reflexivity.
Defined.

Lemma standardize_references_fires_on_keys_ending_in_reference_witness :
  wf quoted_key_document = true
  /\ exists p',
      standardize_references quoted_key_document = Ok p'
      /\ get_path p' [Key quoted_key] = Some (JStr (str "urn:uuid:" ++ uuid_patient))
      /\ get_path p' [Key (str "note")]
         = Some (JStr (str "Patient/" ++ uuid_patient))
      /\ get_path p' [Key (str "reference"); Idx 0]
         = Some (JStr (str "Patient/" ++ uuid_patient)).
Proof.
  split; [vm_compute; reflexivity|].
  destruct (standardize_references_fires_on_keys_ending_in_reference
              quoted_key_document) as (p' & H & A & B & C);
    [vm_compute; reflexivity|].
  exists p'. split; [exact H|]. split; [|split].
  - apply (A [] (str "x") (str "Patient") uuid_patient);
      [discriminate | reflexivity | reflexivity | reflexivity].
  - apply (B [] (str "note") (str "Patient/" ++ uuid_patient));
      [discriminate | | reflexivity].
    intros prefix E. apply (f_equal (fun k => ends_quote_ref k)) in E.
    assert (ends_quote_ref (prefix ++ 34%N :: str "reference") = true) as Q
        by (apply ends_quote_ref_spec; now exists prefix).
    rewrite Q in E. discriminate.
  - apply (C [Key (str "reference")] 0 (str "Patient/" ++ uuid_patient)).
    reflexivity.
Defined.

Lemma standardize_references_idempotent_witness :
  wf scenario_bundle = true
  /\ standardize_references scenario_bundle = Ok (normalize scenario_bundle)
  /\ standardize_references (normalize scenario_bundle)
     = Ok (normalize scenario_bundle).
Proof.
  assert (standardize_references scenario_bundle = Ok (normalize scenario_bundle))
    as H by (vm_compute; reflexivity).
  split; [vm_compute; reflexivity|]. split; [exact H|].
  apply (standardize_references_idempotent scenario_bundle);
    [vm_compute; reflexivity | exact H].
Defined.

Lemma plain_document_quiet path k s :
  get_path plain_document (path ++ [Key k]) = Some (JStr s) ->
  is_ref_key k = true -> rel_ref s = None.
Proof.
  intros G _. destruct path as [|[k0|i] path]; cbn [app get_path plain_document] in G.
  - cbn [dict_get] in G. destruct (str_eqb k (str "reference")); [|discriminate].
    injection G as <-. reflexivity.
  - cbn [dict_get] in G. destruct (str_eqb k0 (str "reference")); [|discriminate].
    now destruct path as [|[|] path].
  - discriminate.
Qed.

Lemma standardize_references_unchanged_without_relative_references_witness :
  wf plain_document = true
  /\ standardize_references plain_document = Ok plain_document.
Proof.
  split; [reflexivity|].
  apply (standardize_references_unchanged_without_relative_references
           plain_document eq_refl plain_document_quiet).
Defined.

Lemma add_if_none_exist_clause_changes_two_fields_witness :
  getitem scenario_bundle (str "entry") = Ok (JArr scenario_entries)
  /\ add_if_none_exist_clause scenario_bundle = Ok keyed_bundle
  /\ (forall k, k <> str "entry" ->
                getitem keyed_bundle k = getitem scenario_bundle k)
  /\ exists es',
      getitem keyed_bundle (str "entry") = Ok (JArr es')
      /\ length es' = length scenario_entries
      /\ Forall2 same_but_keys scenario_entries es'.
Proof.
  assert (add_if_none_exist_clause scenario_bundle = Ok keyed_bundle) as H
      by (vm_compute; reflexivity).
  split; [reflexivity|]. split; [exact H|].
  exact (add_if_none_exist_clause_changes_two_fields
           scenario_bundle keyed_bundle scenario_entries eq_refl H).
Defined.

Lemma first_entry_injectable : Forall injectable [patient_entry (str "female")].
Proof. repeat constructor. apply patient_injectable. Qed.

Lemma add_if_none_exist_clause_raises_without_id_witness :
  add_if_none_exist_clause
    (bundle_of [patient_entry (str "female"); entry_of_resource resource_without_id])
  = Raise (KeyError (str "id"))
  /\ add_if_none_exist_clause
       (bundle_of [patient_entry (str "female");
                   entry_of_resource resource_without_system])
     = Raise (KeyError (str "system"))
  /\ add_if_none_exist_clause
       (bundle_of [patient_entry (str "female");
                   entry_of_resource resource_without_value])
     = Raise (KeyError (str "value")).
Proof.
  split; [|split].
  - apply (proj1 (add_if_none_exist_clause_raises_without_id
                    (bundle_of [patient_entry (str "female");
                                entry_of_resource resource_without_id])
                    [patient_entry (str "female")]
                    (entry_of_resource resource_without_id) []
                    resource_without_id (post_request (str "Patient"))
                    (JStr (str "Patient"))
                    eq_refl first_entry_injectable eq_refl eq_refl eq_refl));
      [left; reflexivity | reflexivity].
  - apply (proj1 (proj2 (add_if_none_exist_clause_raises_without_id
                    (bundle_of [patient_entry (str "female");
                                entry_of_resource resource_without_system])
                    [patient_entry (str "female")]
                    (entry_of_resource resource_without_system) []
                    resource_without_system (post_request (str "Patient"))
                    (JStr (str "Patient"))
                    eq_refl first_entry_injectable eq_refl eq_refl eq_refl)
                   (JObj [(str "value", JStr (str "p-1"))]) [] eq_refl));
      reflexivity.
  - apply (proj2 (proj2 (add_if_none_exist_clause_raises_without_id
                    (bundle_of [patient_entry (str "female");
                                entry_of_resource resource_without_value])
                    [patient_entry (str "female")]
                    (entry_of_resource resource_without_value) []
                    resource_without_value (post_request (str "Patient"))
                    (JStr (str "Patient"))
                    eq_refl first_entry_injectable eq_refl eq_refl eq_refl)
                   (JObj [(str "system", JStr (str "urn:example:patients"))])
                   [] eq_refl)
             (JStr (str "urn:example:patients"))); reflexivity.
Defined.

Lemma reduce_payload_size_keeps_first_ten_witness :
  getitem (bundle_of twelve_entries) (str "entry") = Ok (JArr twelve_entries)
  /\ exists p' es',
      reduce_payload_size (bundle_of twelve_entries) = Ok p'
      /\ getitem p' (str "entry") = Ok (JArr es')
      /\ length es' = 10.
Proof.
  split; [reflexivity|].
  destruct (reduce_payload_size_keeps_first_ten
              (bundle_of twelve_entries) twelve_entries eq_refl)
    as (p' & es' & H & G & L & _).
  exists p', es'. split; [exact H|]. split; [exact G | exact L].
Defined.

Lemma main_opens_files_in_phase_order_witness :
  exists w',
    main nat accept_all join_text hospital_text hospital_glob hospital_list
         (str "mcode") fhir_url fresh_world = (Ok tt, w')
    /\ opened (trace nat w') = [file_h; file_a].
Proof.
  destruct (main nat accept_all join_text hospital_text hospital_glob hospital_list
                 (str "mcode") fhir_url fresh_world) as [r w'] eqn:H.
  assert (r = Ok tt) as -> by (apply (f_equal fst) in H; vm_compute in H; congruence).
  exists w'. split; [reflexivity|].
  destruct (main_opens_files_in_phase_order
              nat accept_all join_text hospital_text hospital_glob hospital_list
              (str "mcode") fhir_url fresh_world w' (Ok tt) H)
    as (done & rest & E & O & R).
  rewrite (R eq_refl), List.app_nil_r in E. rewrite O, <- E.
  vm_compute. reflexivity.
Defined.

Lemma request_failure_aborts_hospital_and_practitioner_phases_witness :
  prepare hospital_text file_h = Ok loaded_payload
  /\ exists w',
      main nat refuse_first join_text hospital_text hospital_glob hospital_list
           (str "mcode") fhir_url fresh_world = (Raise RequestException, w')
      /\ opened (trace nat w') = [file_h].
Proof.
  assert (prepare hospital_text file_h = Ok loaded_payload) as P
      by (vm_compute; reflexivity).
  split; [exact P|].
  destruct (request_failure_aborts_hospital_and_practitioner_phases
              nat refuse_first join_text hospital_text hospital_glob hospital_list
              (str "mcode") fhir_url file_h loaded_payload P) as (A & _ & _).
  apply (A [] [] fresh_world fresh_world); reflexivity.
Defined.

Lemma preprocess_payload_result_round_trips_witness :
  wf scenario_bundle = true
  /\ preprocess_loaded scenario_bundle = Ok loaded_payload
  /\ wf loaded_payload = true
  /\ loads (dumps loaded_payload) = Ok loaded_payload.
Proof.
  assert (preprocess_loaded scenario_bundle = Ok loaded_payload) as H
      by (vm_compute; reflexivity).
  split; [vm_compute; reflexivity|]. split; [exact H|].
  apply (preprocess_payload_result_round_trips scenario_bundle loaded_payload);
    [vm_compute; reflexivity | exact H].
Defined.

Lemma preprocess_payload_fails_outside_the_normalizer_witness :
  wf broken_bundle = true
  /\ preprocess_loaded broken_bundle
     = (p1 <- purge_duplicates broken_bundle ;;
        p2 <- remove_provenance p1 ;;
        add_if_none_exist_clause (normalize p2))
  /\ preprocess_loaded broken_bundle = Raise (KeyError (str "request")).
Proof.
  split; [vm_compute; reflexivity|]. split.
  - apply (preprocess_payload_fails_outside_the_normalizer broken_bundle).
    vm_compute. reflexivity.
  - vm_compute. reflexivity.
Defined.

Lemma preprocess_payload_idempotent_witness :
  wf scenario_bundle = true
  /\ preprocess_loaded scenario_bundle = Ok loaded_payload
  /\ preprocess_loaded loaded_payload = Ok loaded_payload.
Proof.
  assert (preprocess_loaded scenario_bundle = Ok loaded_payload) as H
      by (vm_compute; reflexivity).
  split; [vm_compute; reflexivity|]. split; [exact H|].
  apply (preprocess_payload_idempotent scenario_bundle loaded_payload);
    [vm_compute; reflexivity | exact H].
Defined.

Lemma clean_entries_kept : Forall (fun e => is_provenance e = false) clean_entries.
Proof. repeat constructor. Qed.

Lemma preprocess_payload_keeps_every_entry_of_clean_bundle_witness :
  wf clean_bundle = true
  /\ getitem clean_bundle (str "entry") = Ok (JArr clean_entries)
  /\ exists p' es',
      preprocess_loaded clean_bundle = Ok p'
      /\ getitem p' (str "entry") = Ok (JArr es')
      /\ length es' = length clean_entries
      /\ Forall2 processed clean_entries es'
      /\ map_result entry_step (map normalize clean_entries) = Ok es'.
Proof.
  split; [vm_compute; reflexivity|]. split; [reflexivity|].
  apply (preprocess_payload_keeps_every_entry_of_clean_bundle
           clean_bundle clean_entries);
    [vm_compute; reflexivity | reflexivity | exact clean_urls
     | exact clean_urls_distinct | exact clean_entries_kept
     | exact clean_injectable].
Defined.
